(** * FloraGuard: the local-first persistence, scheduling and memoization core

    A shallow embedding of the stateful core of the application
    ([App.tsx], [components/Reminders.tsx], [components/GardenCare.tsx],
    [types.ts]) and of the handlers of its views
    ([components/ChatWindow.tsx], [components/SoilAnalyzer.tsx],
    [components/SeedDetector.tsx], [components/ImageUpload.tsx]),
    together with the host facilities they call ([JSON.stringify],
    [JSON.parse], [localStorage], [Date], [Notification], [String]).
    React state is threaded explicitly; every handler takes the values
    its closure captured as ordinary arguments, and an asynchronous
    handler is split at its [await].

    The first part holds the definitions, component by component; the
    second part, from "Properties" on, the lemmas and the theorems: those
    for the claims C1 to C10 of the specification, and the further
    properties X1 to X26 of the code. *)

From Stdlib Require Import ZArith Ascii String List Decimal DecimalN DecimalFacts.
From Stdlib Require Import Permutation Sorted.
From stdpp Require Import gmap strings list.

Local Open Scope Z_scope.

(** ** JSON values and the host serializer

    [json] is the plain-data fragment of JavaScript values that the
    application hands to [JSON.stringify]: objects are property lists in
    insertion order, numbers are integers (the timestamps), strings are
    byte strings (the UTF-8 form of the text). *)

Module Json.

#[warnings="-register-all"]
Inductive json : Type :=
| JNull
| JBool (b : bool)
| JNum (z : Z)
| JStr (s : string)
| JArr (vs : list json)
| JObj (ps : list (string * json)).

(** Character codes are compared as numbers; the quotation mark is 34 and
    the reverse solidus 92. *)
Definition code (c : ascii) : N := N_of_ascii c.
Definition chr (n : N) : ascii := ascii_of_N n.

Definition dquote : ascii := chr 34.
Definition bslash : ascii := chr 92.

Definition hex_digit (n : N) : ascii :=
  if (n <? 10)%N then chr (48 + n) else chr (87 + n).

(** [QuoteJSONString]: the two-character escapes, then [\u00xx] for the
    remaining control characters, everything else verbatim. *)
Definition escape_char (c : ascii) : list ascii :=
  let n := code c in
  if (n =? 34)%N then [bslash; dquote]
  else if (n =? 92)%N then [bslash; bslash]
  else if (n =? 8)%N then [bslash; "b"%char]
  else if (n =? 12)%N then [bslash; "f"%char]
  else if (n =? 10)%N then [bslash; "n"%char]
  else if (n =? 13)%N then [bslash; "r"%char]
  else if (n =? 9)%N then [bslash; "t"%char]
  else if (n <? 32)%N then
    [bslash; "u"%char; "0"%char; "0"%char; hex_digit (n / 16); hex_digit (n mod 16)]
  else [c].

Fixpoint quote_chars (s : string) : list ascii :=
  match s with
  | EmptyString => []
  | String c s' => escape_char c ++ quote_chars s'
  end.

Definition quote (s : string) : list ascii :=
  dquote :: quote_chars s ++ [dquote].

Fixpoint chars_of_uint (d : uint) : list ascii :=
  match d with
  | Nil => []
  | D0 d' => "0"%char :: chars_of_uint d'
  | D1 d' => "1"%char :: chars_of_uint d'
  | D2 d' => "2"%char :: chars_of_uint d'
  | D3 d' => "3"%char :: chars_of_uint d'
  | D4 d' => "4"%char :: chars_of_uint d'
  | D5 d' => "5"%char :: chars_of_uint d'
  | D6 d' => "6"%char :: chars_of_uint d'
  | D7 d' => "7"%char :: chars_of_uint d'
  | D8 d' => "8"%char :: chars_of_uint d'
  | D9 d' => "9"%char :: chars_of_uint d'
  end.

(** [Number::toString] on an integer: an optional sign and the decimal
    digits without leading zeros. *)
Definition print_Z (z : Z) : list ascii :=
  if z <? 0 then "-"%char :: chars_of_uint (N.to_uint (Z.abs_N z))
  else chars_of_uint (N.to_uint (Z.to_N z)).

(** The elements after the first one, each behind its comma. *)
Definition print_tail {A : Type} (f : A -> list ascii) : list A -> list ascii :=
  fix more (l : list A) : list ascii :=
    match l with
    | [] => []
    | x :: l' => ","%char :: f x ++ more l'
    end.

Definition print_list {A : Type} (f : A -> list ascii) (l : list A) : list ascii :=
  match l with
  | [] => []
  | x :: l' => f x ++ print_tail f l'
  end.

(** [SerializeJSONProperty] with no replacer and no indentation. *)
Fixpoint print (v : json) : list ascii :=
  match v with
  | JNull => ["n"; "u"; "l"; "l"]%char
  | JBool true => ["t"; "r"; "u"; "e"]%char
  | JBool false => ["f"; "a"; "l"; "s"; "e"]%char
  | JNum z => print_Z z
  | JStr s => quote s
  | JArr vs => "["%char :: print_list print vs ++ ["]"%char]
  | JObj ps =>
      "{"%char ::
      print_list (fun kv => quote (fst kv) ++ ":"%char :: print (snd kv)) ps ++
      ["}"%char]
  end.

Definition print_member (kv : string * json) : list ascii :=
  quote (fst kv) ++ ":"%char :: print (snd kv).

Definition JSON_stringify (v : json) : string :=
  string_of_list_ascii (print v).

(** *** The host parser

    [JSON.parse] either returns a value or throws a [SyntaxError].  The
    third outcome, [Unsupported], marks texts whose value lies outside
    [json] (a fraction or exponent, an integer beyond the safe range, a
    negative zero, a [\u] escape above 127, a property name that the
    engine would reorder as an array index): the embedding says nothing
    about them. *)

Inductive parse_error : Type := SyntaxError | Unsupported.

Inductive result (A : Type) : Type :=
| Ok (a : A) (rest : list ascii)
| Err (e : parse_error).
Arguments Ok {A} a rest.
Arguments Err {A} e.

Definition rmap {A B : Type} (f : A -> B) (r : result A) : result B :=
  match r with
  | Ok a rest => Ok (f a) rest
  | Err e => Err e
  end.

Definition is_ws (c : ascii) : bool :=
  let n := code c in
  (n =? 32)%N || (n =? 9)%N || (n =? 10)%N || (n =? 13)%N.

Fixpoint skip_ws (cs : list ascii) : list ascii :=
  match cs with
  | c :: cs' => if is_ws c then skip_ws cs' else cs
  | [] => []
  end.

Definition hex_value (c : ascii) : option N :=
  let n := code c in
  if (48 <=? n)%N && (n <=? 57)%N then Some (n - 48)%N
  else if (97 <=? n)%N && (n <=? 102)%N then Some (n - 87)%N
  else if (65 <=? n)%N && (n <=? 70)%N then Some (n - 55)%N
  else None.

Definition hex4 (a b c d : ascii) : option N :=
  match hex_value a, hex_value b, hex_value c, hex_value d with
  | Some x, Some y, Some z, Some w => Some (((x * 16 + y) * 16 + z) * 16 + w)%N
  | _, _, _, _ => None
  end.

(** The characters of a string literal after its opening quotation mark. *)
Fixpoint parse_chars (cs : list ascii) : result string :=
  match cs with
  | [] => Err SyntaxError
  | c :: cs' =>
      if (code c =? 34)%N then Ok EmptyString cs'
      else if (code c =? 92)%N then
        match cs' with
        | [] => Err SyntaxError
        | e :: cs'' =>
            let n := code e in
            if (n =? 34)%N then rmap (String dquote) (parse_chars cs'')
            else if (n =? 92)%N then rmap (String bslash) (parse_chars cs'')
            else if (n =? 47)%N then rmap (String "/"%char) (parse_chars cs'')
            else if (n =? 98)%N then rmap (String (chr 8)) (parse_chars cs'')
            else if (n =? 102)%N then rmap (String (chr 12)) (parse_chars cs'')
            else if (n =? 110)%N then rmap (String (chr 10)) (parse_chars cs'')
            else if (n =? 114)%N then rmap (String (chr 13)) (parse_chars cs'')
            else if (n =? 116)%N then rmap (String (chr 9)) (parse_chars cs'')
            else if (n =? 117)%N then
              match cs'' with
              | h1 :: h2 :: h3 :: h4 :: cs3 =>
                  match hex4 h1 h2 h3 h4 with
                  | Some u =>
                      if (u <? 128)%N then rmap (String (chr u)) (parse_chars cs3)
                      else Err Unsupported
                  | None => Err SyntaxError
                  end
              | _ => Err SyntaxError
              end
            else Err SyntaxError
        end
      else if (code c <? 32)%N then Err SyntaxError
      else rmap (String c) (parse_chars cs')
  end.

Definition digit_cons (c : ascii) : option (uint -> uint) :=
  let n := code c in
  if (n =? 48)%N then Some D0 else if (n =? 49)%N then Some D1
  else if (n =? 50)%N then Some D2 else if (n =? 51)%N then Some D3
  else if (n =? 52)%N then Some D4 else if (n =? 53)%N then Some D5
  else if (n =? 54)%N then Some D6 else if (n =? 55)%N then Some D7
  else if (n =? 56)%N then Some D8 else if (n =? 57)%N then Some D9
  else None.

(** The longest run of decimal digits at the head of the input. *)
Fixpoint lex_uint (cs : list ascii) : uint * list ascii :=
  match cs with
  | [] => (Nil, [])
  | c :: cs' =>
      match digit_cons c with
      | Some D => let '(d, rest) := lex_uint cs' in (D d, rest)
      | None => (Nil, cs)
      end
  end.

Definition MAX_SAFE_INTEGER : Z := 9007199254740991.

Definition starts_fraction (cs : list ascii) : bool :=
  match cs with
  | c :: _ => let n := code c in (n =? 46)%N || (n =? 101)%N || (n =? 69)%N
  | [] => false
  end.

(** The value of a digit run: a leading zero is a syntax error, and so
    is an empty run. *)
Definition number_of (neg : bool) (d : uint) (rest : list ascii) : result Z :=
  match d with
  | Nil => Err SyntaxError
  | D0 (D0 _ | D1 _ | D2 _ | D3 _ | D4 _ | D5 _ | D6 _ | D7 _ | D8 _ | D9 _) =>
      Err SyntaxError
  | _ =>
      if starts_fraction rest then Err Unsupported
      else
        let m := Z.of_N (N.of_uint d) in
        if MAX_SAFE_INTEGER <? m then Err Unsupported
        else if neg then (if m =? 0 then Err Unsupported else Ok (- m) rest)
        else Ok m rest
  end.

Definition parse_number (cs : list ascii) : result Z :=
  match cs with
  | [] => Err SyntaxError
  | c :: cs' =>
      if (code c =? 45)%N
      then let '(d, rest) := lex_uint cs' in number_of true d rest
      else let '(d, rest) := lex_uint cs in number_of false d rest
  end.

(** [CreateDataProperty] on the object under construction: a repeated
    name overwrites the value in place, a new name goes last. *)
Fixpoint obj_set (k : string) (v : json) (ps : list (string * json))
  : list (string * json) :=
  match ps with
  | [] => [(k, v)]
  | (k', v') :: ps' =>
      if String.eqb k k' then (k, v) :: ps' else (k', v') :: obj_set k v ps'
  end.

Definition obj_of_members (ms : list (string * json)) : list (string * json) :=
  fold_left (fun o kv => obj_set (fst kv) (snd kv) o) ms [].

Definition index_like (k : string) : bool :=
  match k with
  | String c _ => (48 <=? code c)%N && (code c <=? 57)%N
  | EmptyString => false
  end.

(** Recursive descent; [fuel] bounds the nesting of calls and is taken
    larger than twice the input by [JSON_parse]. *)
Fixpoint parse_value (fuel : nat) (cs : list ascii) : result json :=
  match fuel with
  | O => Err Unsupported
  | S fuel' =>
      match skip_ws cs with
      | [] => Err SyntaxError
      | c :: r =>
          let n := code c in
          if (n =? 110)%N then
            match r with
            | "u"%char :: "l"%char :: "l"%char :: r' => Ok JNull r'
            | _ => Err SyntaxError
            end
          else if (n =? 116)%N then
            match r with
            | "r"%char :: "u"%char :: "e"%char :: r' => Ok (JBool true) r'
            | _ => Err SyntaxError
            end
          else if (n =? 102)%N then
            match r with
            | "a"%char :: "l"%char :: "s"%char :: "e"%char :: r' => Ok (JBool false) r'
            | _ => Err SyntaxError
            end
          else if (n =? 34)%N then rmap JStr (parse_chars r)
          else if (n =? 91)%N then
            match skip_ws r with
            | [] => Err SyntaxError
            | c' :: r' =>
                if (code c' =? 93)%N then Ok (JArr []) r'
                else rmap JArr (parse_elements fuel' r)
            end
          else if (n =? 123)%N then
            match skip_ws r with
            | [] => Err SyntaxError
            | c' :: r' =>
                if (code c' =? 125)%N then Ok (JObj []) r'
                else rmap (fun ms => JObj (obj_of_members ms)) (parse_members fuel' r)
            end
          else rmap JNum (parse_number (c :: r))
      end
  end
with parse_elements (fuel : nat) (cs : list ascii) : result (list json) :=
  match fuel with
  | O => Err Unsupported
  | S fuel' =>
      match parse_value fuel' cs with
      | Err e => Err e
      | Ok v r =>
          match skip_ws r with
          | [] => Err SyntaxError
          | c :: r' =>
              if (code c =? 44)%N then rmap (cons v) (parse_elements fuel' r')
              else if (code c =? 93)%N then Ok [v] r'
              else Err SyntaxError
          end
      end
  end
with parse_members (fuel : nat) (cs : list ascii) : result (list (string * json)) :=
  match fuel with
  | O => Err Unsupported
  | S fuel' =>
      match skip_ws cs with
      | [] => Err SyntaxError
      | q :: r =>
          if (code q =? 34)%N then
            match parse_chars r with
            | Err e => Err e
            | Ok k r1 =>
                if index_like k then Err Unsupported
                else
                  match skip_ws r1 with
                  | [] => Err SyntaxError
                  | c :: r2 =>
                      if (code c =? 58)%N then
                        match parse_value fuel' r2 with
                        | Err e => Err e
                        | Ok v r3 =>
                            match skip_ws r3 with
                            | [] => Err SyntaxError
                            | c' :: r4 =>
                                if (code c' =? 44)%N then
                                  rmap (cons (k, v)) (parse_members fuel' r4)
                                else if (code c' =? 125)%N then Ok [(k, v)] r4
                                else Err SyntaxError
                            end
                        end
                      else Err SyntaxError
                  end
            end
          else Err SyntaxError
      end
  end.

(** *** The grammar, decided

    [parse_value] builds values of [json] only.  Whether a text is JSON
    at all is decided apart from it, by a recognizer of the whole
    grammar: escapes to any code unit, fractions and exponents, integers
    of any size, nesting of any depth.  It answers with what follows the
    value it read. *)

Definition is_digit (c : ascii) : bool :=
  match digit_cons c with Some _ => true | None => false end.

Definition is_hex (c : ascii) : bool :=
  match hex_value c with Some _ => true | None => false end.

(** The characters that may follow a reverse solidus, [u] apart. *)
Definition simple_escape (e : ascii) : bool :=
  let n := code e in
  (n =? 34)%N || (n =? 92)%N || (n =? 47)%N || (n =? 98)%N ||
  (n =? 102)%N || (n =? 110)%N || (n =? 114)%N || (n =? 116)%N.

(** The characters of a string literal after its opening quotation mark. *)
Fixpoint accept_chars (cs : list ascii) : option (list ascii) :=
  match cs with
  | [] => None
  | c :: cs' =>
      if (code c =? 34)%N then Some cs'
      else if (code c =? 92)%N then
        match cs' with
        | [] => None
        | e :: cs'' =>
            if simple_escape e then accept_chars cs''
            else if (code e =? 117)%N then
              match cs'' with
              | h1 :: h2 :: h3 :: h4 :: cs3 =>
                  if is_hex h1 && is_hex h2 && is_hex h3 && is_hex h4
                  then accept_chars cs3
                  else None
              | _ => None
              end
            else None
        end
      else if (code c <? 32)%N then None
      else accept_chars cs'
  end.

Fixpoint skip_digits (cs : list ascii) : list ascii :=
  match cs with
  | c :: cs' => if is_digit c then skip_digits cs' else cs
  | [] => []
  end.

(** One digit at least. *)
Definition accept_digits (cs : list ascii) : option (list ascii) :=
  match cs with
  | c :: cs' => if is_digit c then Some (skip_digits cs') else None
  | [] => None
  end.

(** The integer part: a zero stands alone. *)
Definition accept_int (cs : list ascii) : option (list ascii) :=
  match cs with
  | c :: cs' =>
      if (code c =? 48)%N then Some cs'
      else if is_digit c then Some (skip_digits cs')
      else None
  | [] => None
  end.

Definition accept_frac (cs : list ascii) : option (list ascii) :=
  match cs with
  | c :: cs' => if (code c =? 46)%N then accept_digits cs' else Some cs
  | [] => Some []
  end.

Definition accept_exp (cs : list ascii) : option (list ascii) :=
  match cs with
  | c :: cs' =>
      if (code c =? 101)%N || (code c =? 69)%N then
        match cs' with
        | s :: cs'' =>
            if (code s =? 43)%N || (code s =? 45)%N then accept_digits cs''
            else accept_digits cs'
        | [] => None
        end
      else Some cs
  | [] => Some []
  end.

Definition accept_number (cs : list ascii) : option (list ascii) :=
  let body :=
    match cs with
    | c :: cs' => if (code c =? 45)%N then cs' else cs
    | [] => []
    end in
  match accept_int body with
  | Some r1 =>
      match accept_frac r1 with
      | Some r2 => accept_exp r2
      | None => None
      end
  | None => None
  end.

Inductive verdict : Type :=
| Accepted (rest : list ascii)
| Refused          (* not a text of the grammar *)
| Exhausted.       (* out of fuel *)

Definition of_option (o : option (list ascii)) : verdict :=
  match o with
  | Some rest => Accepted rest
  | None => Refused
  end.

(** The shape of [parse_value], without the values. *)
Fixpoint accept_value (fuel : nat) (cs : list ascii) : verdict :=
  match fuel with
  | O => Exhausted
  | S fuel' =>
      match skip_ws cs with
      | [] => Refused
      | c :: r =>
          let n := code c in
          if (n =? 110)%N then
            match r with
            | "u"%char :: "l"%char :: "l"%char :: r' => Accepted r'
            | _ => Refused
            end
          else if (n =? 116)%N then
            match r with
            | "r"%char :: "u"%char :: "e"%char :: r' => Accepted r'
            | _ => Refused
            end
          else if (n =? 102)%N then
            match r with
            | "a"%char :: "l"%char :: "s"%char :: "e"%char :: r' => Accepted r'
            | _ => Refused
            end
          else if (n =? 34)%N then of_option (accept_chars r)
          else if (n =? 91)%N then
            match skip_ws r with
            | [] => Refused
            | c' :: r' =>
                if (code c' =? 93)%N then Accepted r'
                else accept_elements fuel' r
            end
          else if (n =? 123)%N then
            match skip_ws r with
            | [] => Refused
            | c' :: r' =>
                if (code c' =? 125)%N then Accepted r'
                else accept_members fuel' r
            end
          else of_option (accept_number (c :: r))
      end
  end
with accept_elements (fuel : nat) (cs : list ascii) : verdict :=
  match fuel with
  | O => Exhausted
  | S fuel' =>
      match accept_value fuel' cs with
      | Accepted r =>
          match skip_ws r with
          | [] => Refused
          | c :: r' =>
              if (code c =? 44)%N then accept_elements fuel' r'
              else if (code c =? 93)%N then Accepted r'
              else Refused
          end
      | Refused => Refused
      | Exhausted => Exhausted
      end
  end
with accept_members (fuel : nat) (cs : list ascii) : verdict :=
  match fuel with
  | O => Exhausted
  | S fuel' =>
      match skip_ws cs with
      | [] => Refused
      | q :: r =>
          if (code q =? 34)%N then
            match accept_chars r with
            | None => Refused
            | Some r1 =>
                match skip_ws r1 with
                | [] => Refused
                | c :: r2 =>
                    if (code c =? 58)%N then
                      match accept_value fuel' r2 with
                      | Accepted r3 =>
                          match skip_ws r3 with
                          | [] => Refused
                          | c' :: r4 =>
                              if (code c' =? 44)%N then accept_members fuel' r4
                              else if (code c' =? 125)%N then Accepted r4
                              else Refused
                          end
                      | Refused => Refused
                      | Exhausted => Exhausted
                      end
                    else Refused
                end
            end
          else Refused
      end
  end.

(** *** The grammar, as ECMA-404 states it

    A JSON text is a value between whitespace.  The relations below
    follow the productions of the standard and owe nothing to the
    recognizer; [JsonFacts.accept_value_sound] relates the two. *)

Definition blank (w : list ascii) : Prop :=
  List.Forall (fun c => is_ws c = true) w.

Definition digits (l : list ascii) : Prop :=
  l <> [] /\ List.Forall (fun c => is_digit c = true) l.

(** What stands between the quotation marks of a string. *)
Inductive json_chars : list ascii -> Prop :=
| chars_end : json_chars []
| chars_plain c l :
    code c <> 34%N -> code c <> 92%N -> (32 <= code c)%N ->
    json_chars l -> json_chars (c :: l)
| chars_escape e l :
    simple_escape e = true -> json_chars l -> json_chars (bslash :: e :: l)
| chars_unicode h1 h2 h3 h4 l :
    is_hex h1 = true -> is_hex h2 = true -> is_hex h3 = true -> is_hex h4 = true ->
    json_chars l -> json_chars (bslash :: "u"%char :: h1 :: h2 :: h3 :: h4 :: l).

Inductive json_int : list ascii -> Prop :=
| int_zero : json_int ["0"%char]
| int_digits c l :
    is_digit c = true -> code c <> 48%N ->
    List.Forall (fun d => is_digit d = true) l -> json_int (c :: l).

Inductive json_frac : list ascii -> Prop :=
| frac_none : json_frac []
| frac_some l : digits l -> json_frac ("."%char :: l).

Inductive json_exp : list ascii -> Prop :=
| exp_none : json_exp []
| exp_plain e l :
    code e = 101%N \/ code e = 69%N -> digits l -> json_exp (e :: l)
| exp_signed e s l :
    code e = 101%N \/ code e = 69%N -> code s = 43%N \/ code s = 45%N ->
    digits l -> json_exp (e :: s :: l).

Inductive json_number : list ascii -> Prop :=
| number_plain i f e :
    json_int i -> json_frac f -> json_exp e -> json_number (i ++ f ++ e)
| number_minus i f e :
    json_int i -> json_frac f -> json_exp e ->
    json_number ("-"%char :: i ++ f ++ e).

Inductive json_value : list ascii -> Prop :=
| value_null : json_value ["n"; "u"; "l"; "l"]%char
| value_true : json_value ["t"; "r"; "u"; "e"]%char
| value_false : json_value ["f"; "a"; "l"; "s"; "e"]%char
| value_string body :
    json_chars body -> json_value (dquote :: body ++ [dquote])
| value_number l : json_number l -> json_value l
| value_empty_array w : blank w -> json_value ("["%char :: w ++ ["]"%char])
| value_array l : json_elements l -> json_value ("["%char :: l ++ ["]"%char])
| value_empty_object w : blank w -> json_value ("{"%char :: w ++ ["}"%char])
| value_object l : json_members l -> json_value ("{"%char :: l ++ ["}"%char])
with json_elements : list ascii -> Prop :=
| elements_one w1 v w2 :
    blank w1 -> json_value v -> blank w2 -> json_elements (w1 ++ v ++ w2)
| elements_more w1 v w2 l :
    blank w1 -> json_value v -> blank w2 -> json_elements l ->
    json_elements (w1 ++ v ++ w2 ++ ","%char :: l)
with json_members : list ascii -> Prop :=
| members_one w1 k w2 w3 v w4 :
    blank w1 -> json_chars k -> blank w2 -> blank w3 -> json_value v -> blank w4 ->
    json_members (w1 ++ dquote :: k ++ dquote :: w2 ++ ":"%char :: w3 ++ v ++ w4)
| members_more w1 k w2 w3 v w4 l :
    blank w1 -> json_chars k -> blank w2 -> blank w3 -> json_value v -> blank w4 ->
    json_members l ->
    json_members
      (w1 ++ dquote :: k ++ dquote :: w2 ++ ":"%char :: w3 ++ v ++ w4 ++ ","%char :: l).

Definition json_text (cs : list ascii) : Prop :=
  exists w1 v w2, cs = w1 ++ v ++ w2 /\ blank w1 /\ json_value v /\ blank w2.

Inductive parsed : Type :=
| Value (v : json)
| Throws          (* a SyntaxError is thrown *)
| OutOfModel.     (* the text denotes a value that [json] does not cover *)

(** [JSON.parse]: a text outside the grammar throws, whatever precedes
    the offending character; a text of the grammar is read by
    [parse_value].  The fuel exceeds what either pass uses
    ([JsonFacts.accept_value_fuel]), so the last branch is never taken. *)
Definition JSON_parse (s : string) : parsed :=
  let cs := list_ascii_of_string s in
  let fuel := S (2 * List.length cs) in
  match accept_value fuel cs with
  | Accepted rest =>
      match skip_ws rest with
      | [] =>
          match parse_value fuel cs with
          | Ok v _ => Value v
          | Err _ => OutOfModel
          end
      | _ :: _ => Throws
      end
  | Refused => Throws
  | Exhausted => OutOfModel
  end.

Fixpoint distinct (ks : list string) : bool :=
  match ks with
  | [] => true
  | k :: ks' => negb (existsb (String.eqb k) ks') && distinct ks'
  end.

(** The values on which [json] agrees with the engine: safe integers, and
    objects whose property names are pairwise different and are not
    array indices. *)
Fixpoint json_wf (v : json) : bool :=
  match v with
  | JNum z => (- MAX_SAFE_INTEGER <=? z) && (z <=? MAX_SAFE_INTEGER)
  | JArr vs => forallb json_wf vs
  | JObj ps =>
      distinct (map fst ps) &&
      forallb (fun kv => negb (index_like (fst kv)) && json_wf (snd kv)) ps
  | _ => true
  end.

(** Fuel that suffices to read back what [print] wrote. *)
Fixpoint need (v : json) : nat :=
  match v with
  | JArr vs => S (list_sum (map (fun x => S (need x)) vs))
  | JObj ps => S (list_sum (map (fun kv => S (need (snd kv))) ps))
  | _ => 1%nat
  end.

(** *** Vocabulary of the read-back proof *)

(** What may follow a number: anything but a digit, a point or an
    exponent mark. *)
Definition delim (rest : list ascii) : Prop :=
  match rest with
  | [] => True
  | c :: _ => digit_cons c = None /\ starts_fraction rest = false
  end.

(** [N.to_uint] writes no leading zero and at least one digit. *)
Definition canonical (d : uint) : Prop :=
  match d with
  | Nil => False
  | D0 Nil => True
  | D0 _ => False
  | _ => True
  end.

Definition number_start (c : ascii) : Prop :=
  code c = 45%N \/ (48 <= code c <= 57)%N.

Definition member_ok (kv : string * json) : bool :=
  negb (index_like (fst kv)) && json_wf (snd kv).

(** The inductive statement: whatever [print] wrote is read back, with any
    fuel from [need] upwards and any delimited remainder left over. *)
Definition reads_back (v : json) : Prop :=
  json_wf v = true ->
  forall fuel rest, (need v <= fuel)%nat -> delim rest ->
  parse_value fuel (print v ++ rest) = Ok v rest.

End Json.
Import Json.

(** ** Typed records and their JavaScript values ([types.ts])

    A TypeScript interface is a record here; [to_json] is the object the
    program builds for it and [of_json] the view of a parsed value at
    that interface ([None] when the value does not have the declared
    shape).  An optional property is an [option]; [JSON.stringify] omits
    it when it is undefined. *)

Class Jsonable (T : Type) : Type := {
  to_json : T -> json;
  of_json : json -> option T
}.

Definition field : Type := string * option json.

(** The properties that are written: an undefined one is left out. *)
Fixpoint present (fs : list field) : list (string * json) :=
  match fs with
  | [] => []
  | (k, Some v) :: fs' => (k, v) :: present fs'
  | (_, None) :: fs' => present fs'
  end.

Definition object (fs : list field) : json := JObj (present fs).

Fixpoint assoc (k : string) (ps : list (string * json)) : option json :=
  match ps with
  | [] => None
  | (k', v) :: ps' => if String.eqb k k' then Some v else assoc k ps'
  end.

(** [v[k]] on a parsed value; [None] is [undefined]. *)
Definition prop (k : string) (v : json) : option json :=
  match v with
  | JObj ps => assoc k ps
  | _ => None
  end.

Definition required {T : Type} `{Jsonable T} (k : string) (v : json) : option T :=
  prop k v ≫= of_json.

Definition optional {T : Type} `{Jsonable T} (k : string) (v : json)
  : option (option T) :=
  match prop k v with
  | None => Some None
  | Some j => Some <$> of_json j
  end.

Definition put {T : Type} `{Jsonable T} (k : string) (x : T) : field :=
  (k, Some (to_json x)).

Definition put_opt {T : Type} `{Jsonable T} (k : string) (x : option T) : field :=
  (k, to_json <$> x).

(** The view inverts the encoder. *)
Class JsonableLaws (T : Type) `{Jsonable T} : Prop := {
  of_to_json : forall x : T, of_json (to_json x) = Some x
}.

(** The types whose values are inside [json] whatever they hold. *)
Class AlwaysWf (T : Type) `{Jsonable T} : Prop := {
  to_json_wf : forall x : T, json_wf (to_json x) = true
}.

(** The value that the field list gives to a property name. *)
Fixpoint slot (k : string) (fs : list field) : option json :=
  match fs with
  | [] => None
  | (k', ov) :: fs' => if String.eqb k k' then ov else slot k fs'
  end.

(** A history item is inside [json] when its timestamp is a safe integer. *)
Definition safe_integer (z : Z) : Prop :=
  - MAX_SAFE_INTEGER <= z <= MAX_SAFE_INTEGER.

#[export] Instance string_json : Jsonable string := {
  to_json s := JStr s;
  of_json v := match v with JStr s => Some s | _ => None end
}.

#[export] Instance bool_json : Jsonable bool := {
  to_json b := JBool b;
  of_json v := match v with JBool b => Some b | _ => None end
}.

#[export] Instance number_json : Jsonable Z := {
  to_json z := JNum z;
  of_json v := match v with JNum z => Some z | _ => None end
}.

#[export] Instance array_json {T : Type} `{Jsonable T} : Jsonable (list T) := {
  to_json xs := JArr (map to_json xs);
  of_json v := match v with JArr vs => mapM of_json vs | _ => None end
}.

Inductive ReminderType : Type := fertilizer | pesticide | watering | other.

#[export] Instance ReminderType_json : Jsonable ReminderType := {
  to_json t :=
    JStr match t with
         | fertilizer => "fertilizer"
         | pesticide => "pesticide"
         | watering => "watering"
         | other => "other"
         end;
  of_json v :=
    match v with
    | JStr s =>
        if String.eqb s "fertilizer" then Some fertilizer
        else if String.eqb s "pesticide" then Some pesticide
        else if String.eqb s "watering" then Some watering
        else if String.eqb s "other" then Some other
        else None
    | _ => None
    end
}.

Module Reminder.
Record t : Type := make {
  id : string;
  title : string;
  date : string;          (* ISO format *)
  type : ReminderType;
  plantName : option string;
  completed : bool
}.
End Reminder.

(** Property order as [handleAddSubmit] writes the object literal. *)
#[export] Instance Reminder_json : Jsonable Reminder.t := {
  to_json r :=
    object [put "id" (Reminder.id r); put "title" (Reminder.title r);
            put "type" (Reminder.type r);
            put_opt "plantName" (Reminder.plantName r);
            put "date" (Reminder.date r);
            put "completed" (Reminder.completed r)];
  of_json v :=
    i ← required "id" v; t ← required "title" v; d ← required "date" v;
    ty ← required "type" v; p ← optional "plantName" v;
    c ← required "completed" v;
    Some (Reminder.make i t d ty p c)
}.

Module User.
Record t : Type := make {
  name : string;
  email : string;
  photoUrl : string;
  isLoggedIn : bool
}.
End User.

#[export] Instance User_json : Jsonable User.t := {
  to_json u :=
    object [put "name" (User.name u); put "email" (User.email u);
            put "photoUrl" (User.photoUrl u);
            put "isLoggedIn" (User.isLoggedIn u)];
  of_json v :=
    n ← required "name" v; e ← required "email" v;
    p ← required "photoUrl" v; l ← required "isLoggedIn" v;
    Some (User.make n e p l)
}.

Module PurchaseLink.
Record t : Type := make { pesticideName : string; url : string }.
End PurchaseLink.

#[export] Instance PurchaseLink_json : Jsonable PurchaseLink.t := {
  to_json l :=
    object [put "pesticideName" (PurchaseLink.pesticideName l);
            put "url" (PurchaseLink.url l)];
  of_json v :=
    n ← required "pesticideName" v; u ← required "url" v;
    Some (PurchaseLink.make n u)
}.

Module Cures.
Record t : Type := make { organic : list string; chemical : list string }.
End Cures.

#[export] Instance Cures_json : Jsonable Cures.t := {
  to_json c :=
    object [put "organic" (Cures.organic c); put "chemical" (Cures.chemical c)];
  of_json v :=
    o ← required "organic" v; c ← required "chemical" v;
    Some (Cures.make o c)
}.

Module SoilData.
Record t : Type := make {
  phValue : string;
  nitrogen : string;
  phosphorus : string;
  potassium : string;
  organicMatter : string;
  suitableCrops : list string;
  improvementTips : list string
}.
End SoilData.

#[export] Instance SoilData_json : Jsonable SoilData.t := {
  to_json d :=
    object [put "phValue" (SoilData.phValue d);
            put "nitrogen" (SoilData.nitrogen d);
            put "phosphorus" (SoilData.phosphorus d);
            put "potassium" (SoilData.potassium d);
            put "organicMatter" (SoilData.organicMatter d);
            put "suitableCrops" (SoilData.suitableCrops d);
            put "improvementTips" (SoilData.improvementTips d)];
  of_json v :=
    ph ← required "phValue" v; n ← required "nitrogen" v;
    p ← required "phosphorus" v; k ← required "potassium" v;
    o ← required "organicMatter" v; c ← required "suitableCrops" v;
    i ← required "improvementTips" v;
    Some (SoilData.make ph n p k o c i)
}.

Module SeedData.
Record t : Type := make {
  seedName : string;
  plantName : string;
  description : string;
  cultivationPlaces : list string;
  bestSoil : string;
  growthTips : list string
}.
End SeedData.

#[export] Instance SeedData_json : Jsonable SeedData.t := {
  to_json d :=
    object [put "seedName" (SeedData.seedName d);
            put "plantName" (SeedData.plantName d);
            put "description" (SeedData.description d);
            put "cultivationPlaces" (SeedData.cultivationPlaces d);
            put "bestSoil" (SeedData.bestSoil d);
            put "growthTips" (SeedData.growthTips d)];
  of_json v :=
    s ← required "seedName" v; p ← required "plantName" v;
    d ← required "description" v; c ← required "cultivationPlaces" v;
    b ← required "bestSoil" v; g ← required "growthTips" v;
    Some (SeedData.make s p d c b g)
}.

Inductive HistoryItemType : Type :=
  analysis | guide | soil_analysis | seed_analysis.

#[export] Instance HistoryItemType_json : Jsonable HistoryItemType := {
  to_json t :=
    JStr match t with
         | analysis => "analysis"
         | guide => "guide"
         | soil_analysis => "soil-analysis"
         | seed_analysis => "seed-analysis"
         end;
  of_json v :=
    match v with
    | JStr s =>
        if String.eqb s "analysis" then Some analysis
        else if String.eqb s "guide" then Some guide
        else if String.eqb s "soil-analysis" then Some soil_analysis
        else if String.eqb s "seed-analysis" then Some seed_analysis
        else None
    | _ => None
    end
}.

Module HistoryItem.
Record t : Type := make {
  id : string;
  timestamp : Z;
  type : HistoryItemType;
  plantName : string;
  (* fields for 'analysis' *)
  diseaseName : option string;
  severity : option string;
  symptoms : option (list string);
  cures : option Cures.t;
  prevention : option (list string);
  purchaseLinks : option (list PurchaseLink.t);
  imageUrl : option string;
  (* field for 'guide' *)
  guideContent : option string;
  (* fields for 'soil-analysis' *)
  soilData : option SoilData.t;
  (* fields for 'seed-analysis' *)
  seedData : option SeedData.t
}.
End HistoryItem.

(** Property order as the interface declares it. *)
#[export] Instance HistoryItem_json : Jsonable HistoryItem.t := {
  to_json h :=
    object [put "id" (HistoryItem.id h);
            put "timestamp" (HistoryItem.timestamp h);
            put "type" (HistoryItem.type h);
            put "plantName" (HistoryItem.plantName h);
            put_opt "diseaseName" (HistoryItem.diseaseName h);
            put_opt "severity" (HistoryItem.severity h);
            put_opt "symptoms" (HistoryItem.symptoms h);
            put_opt "cures" (HistoryItem.cures h);
            put_opt "prevention" (HistoryItem.prevention h);
            put_opt "purchaseLinks" (HistoryItem.purchaseLinks h);
            put_opt "imageUrl" (HistoryItem.imageUrl h);
            put_opt "guideContent" (HistoryItem.guideContent h);
            put_opt "soilData" (HistoryItem.soilData h);
            put_opt "seedData" (HistoryItem.seedData h)];
  of_json v :=
    i ← required "id" v; ts ← required "timestamp" v;
    ty ← required "type" v; p ← required "plantName" v;
    dn ← optional "diseaseName" v; sv ← optional "severity" v;
    sy ← optional "symptoms" v; cu ← optional "cures" v;
    pr ← optional "prevention" v; pl ← optional "purchaseLinks" v;
    im ← optional "imageUrl" v; gc ← optional "guideContent" v;
    so ← optional "soilData" v; se ← optional "seedData" v;
    Some (HistoryItem.make i ts ty p dn sv sy cu pr pl im gc so se)
}.

(** ** Host facilities other than JSON

    [Date] depends on the host's clock and time zone: a date is its time
    value in milliseconds ([None] is [NaN], an Invalid Date), and the host
    supplies parsing and the local calendar fields. *)

Definition JsDate : Type := option Z.

Class Host : Type := {
  Date_parse : string -> JsDate;       (* new Date(s) *)
  MonthFromTime : Z -> Z;              (* of the local time *)
  YearFromTime : Z -> Z;
  DateString : Z -> string             (* "Mon Nov 02 2026" *)
}.

Definition toDateString `{Host} (d : JsDate) : string :=
  match d with
  | Some t => DateString t
  | None => "Invalid Date"
  end.

(** [getMonth], [getFullYear] and [getTime] answer [NaN] on an Invalid
    Date. *)
Definition getMonth `{Host} (d : JsDate) : option Z := MonthFromTime <$> d.
Definition getFullYear `{Host} (d : JsDate) : option Z := YearFromTime <$> d.
Definition getTime (d : JsDate) : option Z := d.

(** [x === y] on numbers: [NaN] equals nothing, itself included. *)
Definition number_eq (x y : option Z) : bool :=
  match x, y with
  | Some a, Some b => a =? b
  | _, _ => false
  end.

(** A non-empty string is truthy. *)
Definition truthy (s : string) : bool := negb (String.eqb s "").

Module Notification.
Inductive permission : Type := granted | denied | default.
Record t : Type := make { title : string; body : string; icon : string }.
End Notification.

(** What the program does to the outside world, in program order.  A
    notification is recorded with the reminder and the day string of the
    tick that constructed it. *)
Inductive effect : Type :=
| NewNotification (reminder_id today : string) (n : Notification.t)
| SetItem (key value : string)
| RemoveItem (key : string).

(** ** [App.tsx] *)

Module App.

Record State : Type := mkState {
  history : list HistoryItem.t;
  reminders : list Reminder.t;
  user : User.t;
  storage : gmap string string;      (* localStorage *)
  trace : list effect
}.

Definition HISTORY_KEY : string := "flora_guard_history".
Definition USER_KEY : string := "flora_guard_user".
Definition REMINDERS_KEY : string := "flora_guard_reminders".

Definition loggedOutUser : User.t := User.make "" "" "" false.

Definition setHistory (h : list HistoryItem.t) (st : State) : State :=
  mkState h (reminders st) (user st) (storage st) (trace st).

Definition setReminders (r : list Reminder.t) (st : State) : State :=
  mkState (history st) r (user st) (storage st) (trace st).

Definition setUser (u : User.t) (st : State) : State :=
  mkState (history st) (reminders st) u (storage st) (trace st).

Definition setItem (key value : string) (st : State) : State :=
  mkState (history st) (reminders st) (user st)
          (<[key := value]> (storage st)) (trace st ++ [SetItem key value]).

Definition removeItem (key : string) (st : State) : State :=
  mkState (history st) (reminders st) (user st)
          (delete key (storage st)) (trace st ++ [RemoveItem key]).

Definition newNotification (reminder_id today : string) (n : Notification.t)
  (st : State) : State :=
  mkState (history st) (reminders st) (user st) (storage st)
          (trace st ++ [NewNotification reminder_id today n]).

(** *** Load state from local storage (the mount effect) *)

Inductive loaded (T : Type) : Type :=
| Loaded (x : T)        (* the state after the statement *)
| Untyped (v : json)    (* the state holds a value outside its declared type *)
| Crashed               (* JSON.parse threw; nothing catches it *)
| Unknown.              (* the stored text is outside [json] *)
Arguments Loaded {T} x.
Arguments Untyped {T} v.
Arguments Crashed {T}.
Arguments Unknown {T}.

(** [const saved = localStorage.getItem(key); if (saved) set(JSON.parse(saved));]
    with [current] the state before the statement. *)
Definition load {T : Type} `{Jsonable T} (key : string) (current : T)
  (ls : gmap string string) : loaded T :=
  match ls !! key with
  | None => Loaded current
  | Some saved =>
      if truthy saved then
        match JSON_parse saved with
        | Value v =>
            match of_json v with
            | Some x => Loaded x
            | None => Untyped v
            end
        | Throws => Crashed
        | OutOfModel => Unknown
        end
      else Loaded current
  end.

Definition loaded_bind {A B : Type} (m : loaded A) (k : A -> loaded B) : loaded B :=
  match m with
  | Loaded x => k x
  | Untyped v => Untyped v
  | Crashed => Crashed
  | Unknown => Unknown
  end.

Definition mountEffect (st : State) : loaded State :=
  loaded_bind (load HISTORY_KEY (history st) (storage st)) (fun h =>
  loaded_bind (load USER_KEY (user st) (storage st)) (fun u =>
  loaded_bind (load REMINDERS_KEY (reminders st) (storage st)) (fun r =>
  Loaded (setReminders r (setUser u (setHistory h st)))))).

(** *** Periodic reminder check *)

Definition marker_key (id : string) : string := "notified_" +:+ id.

Definition notification_for (reminder : Reminder.t) : Notification.t :=
  let plant :=
    match Reminder.plantName reminder with
    | Some p => if truthy p then p else "plants"
    | None => "plants"
    end in
  Notification.make
    ("FloraGuard: " +:+ Reminder.title reminder)
    ("Don't forget to take care of your " +:+ plant +:+ " today!")
    "/favicon.ico".

(** The body of the [forEach] callback. *)
Definition check_reminder `{Host} (todayStr : string)
  (permission : Notification.permission) (reminder : Reminder.t) (st : State)
  : State :=
  let reminderDate := Date_parse (Reminder.date reminder) in
  if bool_decide (toDateString reminderDate = todayStr)
     && negb (Reminder.completed reminder) then
    match permission with
    | Notification.granted =>
        let lastNotified := storage st !! marker_key (Reminder.id reminder) in
        if bool_decide (lastNotified ≠ Some todayStr) then
          setItem (marker_key (Reminder.id reminder)) todayStr
            (newNotification (Reminder.id reminder) todayStr
               (notification_for reminder) st)
        else st
    | _ => st
    end
  else st.

Definition checkReminders `{Host} (reminders : list Reminder.t) (now : Z)
  (permission : Notification.permission) (st : State) : State :=
  let todayStr := DateString now in
  fold_left (fun st reminder => check_reminder todayStr permission reminder st)
            reminders st.

(** *** Handlers.  Each takes the state variable its closure captured
    ([history], [reminders]) as an argument. *)

Definition saveToHistory (history : list HistoryItem.t) (item : HistoryItem.t)
  (st : State) : State :=
  let updatedHistory := item :: history in
  setItem HISTORY_KEY (JSON_stringify (to_json updatedHistory))
    (setHistory updatedHistory st).

Definition saveReminders (updated : list Reminder.t) (st : State) : State :=
  setItem REMINDERS_KEY (JSON_stringify (to_json updated))
    (setReminders updated st).

Definition handleAddReminder (reminders : list Reminder.t)
  (reminder : Reminder.t) (st : State) : State :=
  saveReminders (reminders ++ [reminder]) st.

Definition toggle (id : string) (r : Reminder.t) : Reminder.t :=
  if bool_decide (Reminder.id r = id)
  then Reminder.make (Reminder.id r) (Reminder.title r) (Reminder.date r)
         (Reminder.type r) (Reminder.plantName r) (negb (Reminder.completed r))
  else r.

Definition handleToggleReminder (reminders : list Reminder.t) (id : string)
  (st : State) : State :=
  saveReminders (map (toggle id) reminders) st.

Definition handleDeleteReminder (reminders : list Reminder.t) (id : string)
  (st : State) : State :=
  saveReminders (filter (fun r => Reminder.id r ≠ id) reminders) st.

Definition clearHistory (st : State) : State :=
  removeItem HISTORY_KEY (setHistory [] st).

Definition mockUser : User.t :=
  User.make "Agro Enthusiast" "agro.enthusiast@gmail.com"
            "https://api.dicebear.com/7.x/avataaars/svg?seed=Agro" true.

Definition handleGoogleLogin (st : State) : State :=
  setItem USER_KEY (JSON_stringify (to_json mockUser)) (setUser mockUser st).

Definition handleSignOut (st : State) : State :=
  removeItem USER_KEY (setUser loggedOutUser st).

(** *** The application as a transition system: every event runs the
    handler of the latest render on the current state. *)

Inductive action : Type :=
| Tick (now : Z) (permission : Notification.permission)
| SaveToHistory (item : HistoryItem.t)
| AddReminder (reminder : Reminder.t)
| ToggleReminder (id : string)
| DeleteReminder (id : string)
| ClearHistory
| GoogleLogin
| SignOut
| Reload.     (* the page is loaded afresh: state variables restart, the store stays *)

Definition boot (ls : gmap string string) (tr : list effect) : State :=
  mkState [] [] loggedOutUser ls tr.

Definition run `{Host} (a : action) (st : State) : State :=
  match a with
  | Tick now permission => checkReminders (reminders st) now permission st
  | SaveToHistory item => saveToHistory (history st) item st
  | AddReminder reminder => handleAddReminder (reminders st) reminder st
  | ToggleReminder id => handleToggleReminder (reminders st) id st
  | DeleteReminder id => handleDeleteReminder (reminders st) id st
  | ClearHistory => clearHistory st
  | GoogleLogin => handleGoogleLogin st
  | SignOut => handleSignOut st
  | Reload => boot (storage st) (trace st)
  end.

Inductive reachable `{Host} : State -> Prop :=
| reach_init : reachable (boot ∅ [])
| reach_run a st : reachable st -> reachable (run a st)
| reach_mount st st' : reachable st -> mountEffect st = Loaded st' -> reachable st'.

(** *** Observations on reminders and traces *)

Definition due `{Host} (now : Z) (reminder : Reminder.t) : Prop :=
  toDateString (Date_parse (Reminder.date reminder)) = DateString now.

Definition is_dispatch (id : string) (e : effect) : bool :=
  match e with
  | NewNotification reminder_id _ _ => bool_decide (reminder_id = id)
  | _ => false
  end.

(** How many notifications the trace holds for a reminder id. *)
Definition dispatches (id : string) (tr : list effect) : nat :=
  List.length (List.filter (is_dispatch id) tr).

(** Read from the newest effect backwards: a write to the marker of [id]
    comes directly after a notification for [id] made on the day it
    records. *)
Fixpoint justified (newest_first : list effect) : Prop :=
  match newest_first with
  | [] => True
  | SetItem key value :: earlier =>
      (forall id, key = marker_key id ->
                  exists n rest, earlier = NewNotification id value n :: rest)
      /\ justified earlier
  | _ :: earlier => justified earlier
  end.

Definition marker_after_dispatch (tr : list effect) : Prop :=
  justified (rev tr).

(** The loop of [checkReminders] for a given day string. *)
Definition tick `{Host} (todayStr : string) (permission : Notification.permission)
  (rs : list Reminder.t) (st : State) : State :=
  fold_left (fun st r => check_reminder todayStr permission r st) rs st.

(** The callback notifies and writes the marker exactly when: *)
Definition fires `{Host} (todayStr : string) (permission : Notification.permission)
  (r : Reminder.t) (st : State) : Prop :=
  toDateString (Date_parse (Reminder.date r)) = todayStr /\
  Reminder.completed r = false /\
  permission = Notification.granted /\
  storage st !! marker_key (Reminder.id r) <> Some todayStr.

#[global] Instance permission_eq_dec : EqDecision Notification.permission.
Proof. solve_decision. Defined.

#[global] Instance fires_dec `{Host} todayStr permission r st :
  Decision (fires todayStr permission r st).
Proof. unfold fires. apply _. Defined.

(** The invariant on the store and the trace together. *)
Definition marker_inv (ls : gmap string string) (tr : list effect) : Prop :=
  (forall id day, ls !! marker_key id = Some day ->
                  exists n, List.In (NewNotification id day n) tr) /\
  marker_after_dispatch tr.

(** A run of appends, each through the handler of the latest render. *)
Definition appends `{Host} (items : list HistoryItem.t) (st : State) : State :=
  fold_left (fun st item => run (SaveToHistory item) st) items st.

End App.

(** ** [components/Reminders.tsx]

    The [reminders] prop is a reference to the array that the application
    state holds; arrays live in a heap so that [filter] (a fresh array)
    and [sort] (in place) can be told apart. *)

Module Reminders.

Section Arrays.
Context {A : Type}.

Definition alloc (xs : list A) (h : gmap nat (list A)) : nat * gmap nat (list A) :=
  let a := fresh (dom h) in (a, <[a := xs]> h).

(** [Array.prototype.filter]: a new array. *)
Definition Array_filter (p : A -> bool) (a : nat) (h : gmap nat (list A))
  : option (nat * gmap nat (list A)) :=
  xs ← h !! a; Some (alloc (List.filter p xs) h).

Fixpoint insert_by (cmp : A -> A -> Z) (x : A) (l : list A) : list A :=
  match l with
  | [] => [x]
  | y :: l' => if cmp x y <=? 0 then x :: l else y :: insert_by cmp x l'
  end.

(** The order [Array.prototype.sort] must produce for a consistent
    comparator: sorted, with equal elements in their original order. *)
Definition stable_sort (cmp : A -> A -> Z) (l : list A) : list A :=
  foldr (insert_by cmp) [] l.

(** [Array.prototype.sort]: sorts the array in place and returns it. *)
Definition Array_sort (cmp : A -> A -> Z) (a : nat) (h : gmap nat (list A))
  : option (nat * gmap nat (list A)) :=
  xs ← h !! a; Some (a, <[a := stable_sort cmp xs]> h).

End Arrays.

Definition time_of `{Host} (r : Reminder.t) : option Z :=
  getTime (Date_parse (Reminder.date r)).

Definition in_month `{Host} (selectedDate : JsDate) (r : Reminder.t) : bool :=
  number_eq (getMonth (Date_parse (Reminder.date r))) (getMonth selectedDate)
  && number_eq (getFullYear (Date_parse (Reminder.date r))) (getFullYear selectedDate).

(** [(a, b) => new Date(a.date).getTime() - new Date(b.date).getTime()];
    a [NaN] result counts as [+0]. *)
Definition by_date `{Host} (a b : Reminder.t) : Z :=
  match time_of a, time_of b with
  | Some x, Some y => x - y
  | _, _ => 0
  end.

Definition filteredReminders `{Host} (reminders : nat) (selectedDate : JsDate)
  (h : gmap nat (list Reminder.t)) : option (nat * gmap nat (list Reminder.t)) :=
  '(filtered, h1) ← Array_filter (in_month selectedDate) reminders h;
  Array_sort by_date filtered h1.

Definition has_time `{Host} (r : Reminder.t) : Prop := exists t, time_of r = Some t.

(** Ascending by date, between reminders whose dates are valid. *)
Definition le_time `{Host} (a b : Reminder.t) : Prop :=
  exists x y, time_of a = Some x /\ time_of b = Some y /\ x <= y.

End Reminders.

(** ** [components/GardenCare.tsx] *)

Module Translations.
Record t : Type := make { hi : option string; ml : option string }.
End Translations.

Module Message.
Inductive role_t : Type := user | model.
Record t : Type := make {
  role : role_t;
  text : string;
  image : option string;
  isAnalysis : option bool;
  analysis : option HistoryItem.t;
  translations : option Translations.t
}.
End Message.

Module GardenCare.

Inductive lang : Type := hi | ml.

Definition translation (l : lang) (tr : Translations.t) : option string :=
  match l with
  | hi => Translations.hi tr
  | ml => Translations.ml tr
  end.

(** [msg.translations?.[lang]], with [None] for [undefined]. *)
Definition cached (msg : Message.t) (l : lang) : option string :=
  Message.translations msg ≫= translation l.

Definition is_truthy (v : option string) : bool :=
  match v with
  | Some s => truthy s
  | None => false
  end.

(** [{ ...msg.translations, [lang]: translated }] *)
Definition with_translation (tr : option Translations.t) (l : lang)
  (translated : string) : Translations.t :=
  let old := default (Translations.make None None) tr in
  match l with
  | hi => Translations.make (Some translated) (Translations.ml old)
  | ml => Translations.make (Translations.hi old) (Some translated)
  end.

(** [{ ...msg, translations: { ... } }] *)
Definition with_translations (msg : Message.t) (tr : Translations.t) : Message.t :=
  Message.make (Message.role msg) (Message.text msg) (Message.image msg)
               (Message.isAnalysis msg) (Message.analysis msg) (Some tr).

Definition targetLang (l : lang) : string :=
  match l with
  | hi => "Hindi"
  | ml => "Malayalam"
  end.

Record State : Type := mkState {
  chatMessages : list Message.t;
  translatingIndex : option nat;
  console : list string
}.

Definition setChatMessages (ms : list Message.t) (st : State) : State :=
  mkState ms (translatingIndex st) (console st).

Definition setTranslatingIndex (i : option nat) (st : State) : State :=
  mkState (chatMessages st) i (console st).

Definition console_error (line : string) (st : State) : State :=
  mkState (chatMessages st) (translatingIndex st) (console st ++ [line]).

(** The call [translateText(msg.text, targetLang)] and what the suspended
    handler keeps from its closure. *)
Record pending : Type := mkPending {
  request : string * string;
  index : nat;
  language : lang;
  msg : Message.t;
  captured : list Message.t
}.

Inductive started : Type :=
| TypeError                              (* [msg] is undefined *)
| Returned (st : State)                  (* returned at once, nothing requested *)
| Awaiting (st : State) (k : pending).   (* suspended on the collaborator *)

(** [handleTranslate] up to its [await]; [chatMessages] is the list the
    closure captured. *)
Definition handleTranslate (chatMessages : list Message.t) (index : nat)
  (l : lang) (st : State) : started :=
  match chatMessages !! index with
  | None => TypeError
  | Some msg =>
      if is_truthy (cached msg l) then Returned st
      else
        Awaiting (setTranslatingIndex (Some index) st)
                 (mkPending (Message.text msg, targetLang l) index l msg chatMessages)
  end.

Inductive response : Type :=
| Resolved (translated : string)   (* the empty string stands for any falsy result *)
| Rejected.

(** [handleTranslate] from its [await] on, run on the state of the moment
    the collaborator answers. *)
Definition resume (k : pending) (r : response) (st : State) : State :=
  let st1 :=
    match r with
    | Resolved translated =>
        if truthy translated then
          let updatedMessages :=
            <[index k := with_translations (msg k)
                           (with_translation (Message.translations (msg k))
                                             (language k) translated)]>
              (captured k) in
          setChatMessages updatedMessages st
        else st
    | Rejected => console_error "Translation failed" st
    end in
  setTranslatingIndex None st1.

(** *** Sequential runs: each event is handled by the latest render and
    runs to its end, the collaborator's answer included, before the next. *)

Inductive event : Type :=
| Translate (index : nat) (l : lang) (answer : response)
| Post (m : Message.t).     (* [setChatMessages(prev => [...prev, m])] *)

Definition step (e : event) (st : State) : option State :=
  match e with
  | Translate index l answer =>
      match handleTranslate (chatMessages st) index l st with
      | TypeError => None
      | Returned st' => Some st'
      | Awaiting st1 k => Some (resume k answer st1)
      end
  | Post m => Some (setChatMessages (chatMessages st ++ [m]) st)
  end.

Fixpoint steps (es : list event) (st : State) : option State :=
  match es with
  | [] => Some st
  | e :: es' => step e st ≫= steps es'
  end.

Definition other (l : lang) : lang :=
  match l with
  | hi => ml
  | ml => hi
  end.

End GardenCare.

(** *** Overlapping handlers

    A request that goes out suspends its handler on the collaborator,
    and the view handles other events before the answer comes: further
    requests (the view disables only the button of the message being
    translated), posts, and the answers to the handlers that are
    suspended, in any order. *)

Module Overlap.
Import GardenCare.

Record world : Type := mkWorld {
  view : State;
  inflight : list pending        (* the suspended handlers, oldest first *)
}.

Inductive event : Type :=
| Request (index : nat) (l : lang)
| Answer (n : nat) (r : response)     (* the collaborator answers the n-th suspended handler *)
| Post (m : Message.t).               (* [setChatMessages(prev => [...prev, m])] *)

Definition step (e : event) (w : world) : option world :=
  match e with
  | Request index l =>
      match handleTranslate (chatMessages (view w)) index l (view w) with
      | TypeError => None
      | Returned st => Some (mkWorld st (inflight w))
      | Awaiting st k => Some (mkWorld st (inflight w ++ [k]))
      end
  | Answer n r =>
      match inflight w !! n with
      | Some k => Some (mkWorld (resume k r (view w)) (delete n (inflight w)))
      | None => None
      end
  | Post m =>
      Some (mkWorld (setChatMessages (chatMessages (view w) ++ [m]) (view w))
                    (inflight w))
  end.

Fixpoint steps (es : list event) (w : world) : option world :=
  match es with
  | [] => Some w
  | e :: es' =>
      match step e w with
      | Some w' => steps es' w'
      | None => None
      end
  end.



End Overlap.

(** ** A host for the examples: UTC, proleptic Gregorian calendar,
    [Date.prototype.toISOString] texts only. *)

Module Utc.

Definition msPerDay : Z := 86400000.

Definition days_from_civil (y m d : Z) : Z :=
  let y' := if m <=? 2 then y - 1 else y in
  let era := y' / 400 in
  let yoe := y' - era * 400 in
  let doy := (153 * (if 2 <? m then m - 3 else m + 9) + 2) / 5 + d - 1 in
  let doe := yoe * 365 + yoe / 4 - yoe / 100 + doy in
  era * 146097 + doe - 719468.

(** Year, month (1 to 12) and day of the month of a day number. *)
Definition civil_from_days (z : Z) : Z * Z * Z :=
  let z' := z + 719468 in
  let era := z' / 146097 in
  let doe := z' - era * 146097 in
  let yoe := (doe - doe / 1460 + doe / 36524 - doe / 146096) / 365 in
  let doy := doe - (365 * yoe + yoe / 4 - yoe / 100) in
  let mp := (5 * doy + 2) / 153 in
  let d := doy - (153 * mp + 2) / 5 + 1 in
  let m := if mp <? 10 then mp + 3 else mp - 9 in
  ((yoe + era * 400 + (if m <=? 2 then 1 else 0)), m, d).

Definition digit_value (c : ascii) : option Z :=
  let n := code c in
  if (48 <=? n)%N && (n <=? 57)%N then Some (Z.of_N n - 48) else None.

Fixpoint digits_value (acc : Z) (cs : list ascii) : option Z :=
  match cs with
  | [] => Some acc
  | c :: cs' => d ← digit_value c; digits_value (10 * acc + d) cs'
  end.

Definition number_at (from len : nat) (cs : list ascii) : option Z :=
  let part := take len (drop from cs) in
  if (List.length part =? len)%nat then digits_value 0 part else None.

Definition char_at (i : nat) (c : string) (cs : list ascii) : bool :=
  bool_decide (String.get i (string_of_list_ascii cs) = String.get 0 c).

(** [YYYY-MM-DDTHH:mm:ss.sssZ] *)
Definition parse_iso (s : string) : JsDate :=
  let cs := list_ascii_of_string s in
  if (List.length cs =? 24)%nat
     && char_at 4 "-" cs && char_at 7 "-" cs && char_at 10 "T" cs
     && char_at 13 ":" cs && char_at 16 ":" cs && char_at 19 "." cs
     && char_at 23 "Z" cs
  then
    y ← number_at 0 4 cs; m ← number_at 5 2 cs; d ← number_at 8 2 cs;
    hh ← number_at 11 2 cs; mm ← number_at 14 2 cs; ss ← number_at 17 2 cs;
    ms ← number_at 20 3 cs;
    if (1 <=? m) && (m <=? 12) && (1 <=? d) && (d <=? 31)
       && (hh <=? 23) && (mm <=? 59) && (ss <=? 59)
    then Some (days_from_civil y m d * msPerDay
               + ((hh * 60 + mm) * 60 + ss) * 1000 + ms)
    else None
  else None.

Definition decimal (n : Z) : string :=
  string_of_list_ascii (chars_of_uint (N.to_uint (Z.to_N n))).

Definition pad2 (n : Z) : string :=
  if n <? 10 then "0" +:+ decimal n else decimal n.

Definition pad4 (n : Z) : string :=
  if n <? 10 then "000" +:+ decimal n
  else if n <? 100 then "00" +:+ decimal n
  else if n <? 1000 then "0" +:+ decimal n
  else decimal n.

Definition weekdays : list string :=
  ["Sun"; "Mon"; "Tue"; "Wed"; "Thu"; "Fri"; "Sat"].

Definition months : list string :=
  ["Jan"; "Feb"; "Mar"; "Apr"; "May"; "Jun";
   "Jul"; "Aug"; "Sep"; "Oct"; "Nov"; "Dec"].

Definition date_string (t : Z) : string :=
  let day := t / msPerDay in
  let '(y, m, d) := civil_from_days day in
  default "" (weekdays !! Z.to_nat ((day + 4) mod 7)) +:+ " " +:+
  default "" (months !! Z.to_nat (m - 1)) +:+ " " +:+ pad2 d +:+ " " +:+ pad4 y.

Definition host : Host := {|
  Date_parse := parse_iso;
  MonthFromTime t := snd (fst (civil_from_days (t / msPerDay))) - 1;
  YearFromTime t := fst (fst (civil_from_days (t / msPerDay)));
  DateString := date_string
|}.

End Utc.

(** ** Sample data for the examples *)

Module Examples.
Import App.

Definition example_reminder : Reminder.t :=
  Reminder.make "7f9c" "Fertilize Tomatoes" "2026-11-02T08:10:00.000Z"
                fertilizer (Some "Cherry Tomato"%string) false.

Definition november_first : Reminder.t :=
  Reminder.make "02ab" "Spray Neem Oil" "2026-11-01T17:45:00.000Z"
                pesticide None true.

Definition december_first : Reminder.t :=
  Reminder.make "c310" "Water Ferns" "2026-12-01T06:00:00.000Z"
                watering (Some "Fern"%string) false.

Definition example_registry : list Reminder.t :=
  [december_first; example_reminder; november_first].

Definition monday_morning : Z := 1793607000000.   (* 2026-11-02T08:10:00Z *)

Definition example_guide : HistoryItem.t :=
  HistoryItem.make "a41e" 1793607000000 guide "Hibiscus"
    None None None None None None None (Some "Water twice a week."%string)
    None None.

Definition truncated_store : gmap string string :=
  {[ HISTORY_KEY := "[{"%string ]}.

Definition greeting : Message.t :=
  Message.make Message.model "Hi! I am your Garden Master." None None None None.

Definition chat : GardenCare.State := GardenCare.mkState [greeting] None [].

Definition hibiscus_guide : Message.t :=
  Message.make Message.model "Water twice a week." None None None None.


Definition example_soil_test : HistoryItem.t :=
  HistoryItem.make "0c5b" 1793607060000 soil_analysis "Soil Test"
    None None None None None None None None None None.

(** A short session: a task, a login, a guide. *)
Definition example_session : State :=
  run (H := Utc.host) (SaveToHistory example_guide)
    (run (H := Utc.host) GoogleLogin
       (run (H := Utc.host) (AddReminder example_reminder) (boot ∅ []))).

End Examples.

(** ** Write-through, as a predicate on states *)

Module Session.
Import App.

(** The store holds the collection as serialized, or holds nothing for a
    collection that is still at its initial value. *)
Definition synced {T : Type} `{Jsonable T} (key : string) (initial current : T)
  (ls : gmap string string) : Prop :=
  (ls !! key = None /\ current = initial) \/
  ls !! key = Some (JSON_stringify (to_json current)).

Definition write_through (st : State) : Prop :=
  synced HISTORY_KEY [] (history st) (storage st) /\
  synced USER_KEY loggedOutUser (user st) (storage st) /\
  synced REMINDERS_KEY [] (reminders st) (storage st).

(** A run of events, each handled by the latest render. *)
Definition runs `{Host} (acts : list action) (st : State) : State :=
  fold_left (fun st a => run a st) acts st.

Definition is_reload (a : action) : bool :=
  match a with
  | Reload => true
  | _ => false
  end.

End Session.

(** ** Host text functions: [trim], [startsWith], [endsWith], [split]

    On the UTF-8 form of the text.  [trim] removes the WhiteSpace and
    LineTerminator code points at both ends: the ASCII ones, U+00A0,
    U+1680, U+2000 to U+200A, U+2028, U+2029, U+202F, U+205F, U+3000 and
    U+FEFF.  In well-formed UTF-8 a byte below 128 is a code point of its
    own and the bytes 194, 225, 226, 227 and 239 only start a code point,
    so matching at the end of the text is matching its last code point. *)

Module Text.
Import Json.

Definition is_ws1 (c : ascii) : bool :=
  let n := code c in
  ((9 <=? n) && (n <=? 13) || (n =? 32))%N.

Definition is_ws2 (c1 c2 : ascii) : bool :=
  ((code c1 =? 194) && (code c2 =? 160))%N.

Definition is_ws3 (c1 c2 c3 : ascii) : bool :=
  let a := code c1 in
  let b := code c2 in
  let c := code c3 in
  ((a =? 225) && (b =? 154) && (c =? 128)
   || (a =? 226) && (b =? 128)
      && ((128 <=? c) && (c <=? 138) || (c =? 168) || (c =? 169) || (c =? 175))
   || (a =? 226) && (b =? 129) && (c =? 159)
   || (a =? 227) && (b =? 128) && (c =? 128)
   || (a =? 239) && (b =? 187) && (c =? 191))%N.

Section Strip.
Variable w2 : ascii -> ascii -> bool.
Variable w3 : ascii -> ascii -> ascii -> bool.

(** Drops the white space code points at the front. *)
Fixpoint strip (l : list ascii) : list ascii :=
  match l with
  | [] => []
  | c1 :: l1 =>
      if is_ws1 c1 then strip l1
      else
        match l1 with
        | [] => l
        | c2 :: l2 =>
            if w2 c1 c2 then strip l2
            else
              match l2 with
              | [] => l
              | c3 :: l3 => if w3 c1 c2 c3 then strip l3 else l
              end
        end
  end.

End Strip.

Definition trimStart (l : list ascii) : list ascii := strip is_ws2 is_ws3 l.

(** The same from the end, on the reversed bytes. *)
Definition trimEnd (l : list ascii) : list ascii :=
  rev (strip (fun c2 c1 => is_ws2 c1 c2) (fun c3 c2 c1 => is_ws3 c1 c2 c3) (rev l)).

Definition trim (s : string) : string :=
  string_of_list_ascii (trimEnd (trimStart (list_ascii_of_string s))).

Definition startsWith (c : ascii) (s : string) : bool :=
  match list_ascii_of_string s with
  | c' :: _ => (code c' =? code c)%N
  | [] => false
  end.

Definition endsWith (c : ascii) (s : string) : bool :=
  match rev (list_ascii_of_string s) with
  | c' :: _ => (code c' =? code c)%N
  | [] => false
  end.

(** [s.split(sep)] for a separator of one character: the empty text
    gives one empty piece. *)
Fixpoint split_chars (sep : ascii) (l : list ascii) : list (list ascii) :=
  match l with
  | [] => [[]]
  | c :: l' =>
      if (code c =? code sep)%N then [] :: split_chars sep l'
      else
        match split_chars sep l' with
        | piece :: pieces => (c :: piece) :: pieces
        | [] => [[c]]
        end
  end.

Definition split (sep : ascii) (s : string) : list string :=
  map string_of_list_ascii (split_chars sep (list_ascii_of_string s)).

(** [(reader.result as string).split(',')[1]], the statement the three
    upload handlers share; [None] is [undefined]. *)
Definition base64String (result : string) : option string :=
  split ","%char result !! 1%nat.

Definition no_comma (s : string) : Prop :=
  List.Forall (fun c => code c <> code ","%char) (list_ascii_of_string s).

Definition ascii_blank (s : string) : Prop :=
  List.Forall (fun c => is_ws1 c = true) (list_ascii_of_string s).

End Text.

(** ** [components/ChatWindow.tsx]

    The component reports to its parent through callbacks; a handler
    returns the call it makes, if any. *)

Module ChatWindow.
Import Text GardenCare.

Record State : Type := mkState {
  input : string;
  translatingIndex : option nat;
  activeLangMenu : option nat;
  console : list string
}.


Definition setTranslatingIndex (i : option nat) (st : State) : State :=
  mkState (input st) i (activeLangMenu st) (console st).

Definition setActiveLangMenu (i : option nat) (st : State) : State :=
  mkState (input st) (translatingIndex st) i (console st).

Definition console_error (line : string) (st : State) : State :=
  mkState (input st) (translatingIndex st) (activeLangMenu st) (console st ++ [line]).

Inductive call : Type :=
| SendMessage (text : string)
| ImageUpload (base64 : option string)
| UpdateMessage (index : nat) (updatedMessage : Message.t).


(** [file] is the data URL the reader produces for the chosen file, if a
    file was chosen. *)
Definition handleFileChange (file : option string) (onImageUpload : bool)
  : option call :=
  match file with
  | Some result =>
      if onImageUpload then Some (ImageUpload (base64String result)) else None
  | None => None
  end.

Inductive started : Type :=
| TypeError (st : State)                 (* [msg] is undefined *)
| Returned (st : State)
| Awaiting (st : State) (k : pending).

(** [handleTranslate] up to its [await]; [messages] is the prop of the
    render the handler belongs to. *)
Definition handleTranslate (messages : list Message.t) (index : nat) (l : lang)
  (st : State) : started :=
  let st0 := setActiveLangMenu None st in
  match messages !! index with
  | None => TypeError st0
  | Some msg =>
      if is_truthy (cached msg l) then Returned st0
      else
        Awaiting (setTranslatingIndex (Some index) st0)
                 (mkPending (Message.text msg, targetLang l) index l msg messages)
  end.

(** From the [await] on. *)
Definition resume (onUpdateMessage : bool) (k : pending) (r : response)
  (st : State) : State * option call :=
  match r with
  | Resolved translated =>
      (setTranslatingIndex None st,
       if truthy translated && onUpdateMessage then
         Some (UpdateMessage (index k)
                 (with_translations (msg k)
                    (with_translation (Message.translations (msg k))
                                      (language k) translated)))
       else None)
  | Rejected =>
      (setTranslatingIndex None (console_error "Translation failed" st), None)
  end.

Definition placeholder : string :=
  "_Botanist is compiling technical data... Ask a specific question for a textual answer._".

Definition cleanText (text : string) : string :=
  if startsWith "{" (trim text) && endsWith "}" (trim text)
  then placeholder
  else text.

End ChatWindow.

(** ** [App.tsx]: the chat of the home view, the views and the history
    list.  [core] is the persisted part of the component's state. *)

Module Shell.
Import App.

Inductive AppView : Type :=
| home_view | history_view | account_view | garden_care_view
| soil_analyzer_view | seed_detector_view | reminders_view.

Record State : Type := mkState {
  core : App.State;
  view : AppView;
  messages : list Message.t;
  isAnalyzing : bool;
  isChatting : bool;
  selectedHistoryItem : option HistoryItem.t;
  isMobileMenuOpen : bool
}.

Definition setCore (c : App.State) (st : State) : State :=
  mkState c (view st) (messages st) (isAnalyzing st) (isChatting st)
          (selectedHistoryItem st) (isMobileMenuOpen st).

Definition setView (v : AppView) (st : State) : State :=
  mkState (core st) v (messages st) (isAnalyzing st) (isChatting st)
          (selectedHistoryItem st) (isMobileMenuOpen st).

Definition setMessages (ms : list Message.t) (st : State) : State :=
  mkState (core st) (view st) ms (isAnalyzing st) (isChatting st)
          (selectedHistoryItem st) (isMobileMenuOpen st).

Definition setIsAnalyzing (b : bool) (st : State) : State :=
  mkState (core st) (view st) (messages st) b (isChatting st)
          (selectedHistoryItem st) (isMobileMenuOpen st).


Definition setSelectedHistoryItem (i : option HistoryItem.t) (st : State) : State :=
  mkState (core st) (view st) (messages st) (isAnalyzing st) (isChatting st)
          i (isMobileMenuOpen st).


(** The state of a page that was just loaded, over the given store. *)
Definition boot (ls : gmap string string) (tr : list effect) : State :=
  mkState (App.boot ls tr) home_view [] false false None false.

Definition mountEffect (st : State) : loaded State :=
  loaded_bind (App.mountEffect (core st)) (fun c => Loaded (setCore c st)).


(** [updated[index] = x] on a copy of the array: inside the array the
    element is replaced, at its length the array grows by one, beyond it
    the array gets holes ([None]: no list holds it). *)
Definition array_set {A : Type} (l : list A) (index : nat) (x : A) : option (list A) :=
  if (index <? List.length l)%nat then Some (<[index := x]> l)
  else if (index =? List.length l)%nat then Some (l ++ [x])
  else None.

Definition handleUpdateMessage (messages : list Message.t) (index : nat)
  (updatedMessage : Message.t) (st : State) : option State :=
  updatedMessages ← array_set messages index updatedMessage;
  Some (setMessages updatedMessages st).

Definition text_message (role : Message.role_t) (text : string) : Message.t :=
  Message.make role text None None None None.

(** [x || fallback] on a text. *)
Definition or_else (x fallback : string) : string :=
  if truthy x then x else fallback.

(** *** [handleImageAnalysis]

    [resultRaw] is read at the properties of a history item, an absent
    [plantName] being the empty text; [None] is a collaborator that
    resolved with [null] or [undefined], on which [resultRaw.plantName]
    throws. *)

Inductive analysis_response : Type :=
| AnalysisResolved (resultRaw : option HistoryItem.t)
| AnalysisRejected.

Record analysis_pending : Type := mkAnalysisPending {
  analysis_request : option string;               (* the image *)
  captured_history : list HistoryItem.t           (* of [saveToHistory] *)
}.

(** Up to the [await]; [history] is the list that the [saveToHistory] of
    the same render captured. *)
Definition handleImageAnalysis (history : list HistoryItem.t)
  (base64 : option string) (st : State) : State * analysis_pending :=
  (setIsAnalyzing true st, mkAnalysisPending base64 history).

Definition analysis_result (resultRaw : HistoryItem.t) (uuid : string) (now : Z)
  (base64 : option string) : HistoryItem.t :=
  HistoryItem.make uuid now analysis
    (or_else (HistoryItem.plantName resultRaw) "Unknown Plant")
    (HistoryItem.diseaseName resultRaw) (HistoryItem.severity resultRaw)
    (HistoryItem.symptoms resultRaw) (HistoryItem.cures resultRaw)
    (HistoryItem.prevention resultRaw) (HistoryItem.purchaseLinks resultRaw)
    base64
    (HistoryItem.guideContent resultRaw) (HistoryItem.soilData resultRaw)
    (HistoryItem.seedData resultRaw).

Definition analysis_failed : Message.t :=
  text_message Message.model
    "I'm sorry, I couldn't identify any issues in that photo. Could you try a clearer image?".

(** From the [await] on; [uuid] and [now] are what [crypto.randomUUID()]
    and [Date.now()] answer. *)
Definition resumeImageAnalysis (k : analysis_pending) (r : analysis_response)
  (uuid : string) (now : Z) (st : State) : State :=
  let st1 :=
    match r with
    | AnalysisResolved (Some resultRaw) =>
        let result := analysis_result resultRaw uuid now (analysis_request k) in
        let st' := setCore (saveToHistory (captured_history k) result (core st)) st in
        setMessages
          (messages st' ++
           [Message.make Message.model
              "I've completed the diagnostic scan for your plant."
              (analysis_request k) (Some true) (Some result) None])
          st'
    | _ => setMessages (messages st ++ [analysis_failed]) st
    end in
  setIsAnalyzing false st1.

(** *** [handleSendMessage] *)




(** *** The click on an entry of the history list *)

Definition history_item_onClick (item : HistoryItem.t) (st : State) : State :=
  match HistoryItem.type item with
  | analysis =>
      setView home_view
        (setMessages
           [Message.make Message.model
              ("I've reloaded the analysis for your **" +:+
               HistoryItem.plantName item +:+ "**.")
              (HistoryItem.imageUrl item) (Some true) (Some item) None]
           st)
  | soil_analysis =>
      setView soil_analyzer_view (setSelectedHistoryItem (Some item) st)
  | seed_analysis =>
      setView seed_detector_view (setSelectedHistoryItem (Some item) st)
  | guide =>
      setView garden_care_view
        (setMessages
           [text_message Message.model (default "" (HistoryItem.guideContent item))]
           st)
  end.

Definition initialMessages (st : State) : option (list Message.t) := Some (messages st).
Definition initialData (st : State) : option HistoryItem.t := selectedHistoryItem st.

(** *** The home chat, one event at a time: a handler of the latest
    render runs to its end, the collaborator's answer included. *)


Definition upload (file : option string) (answer : analysis_response)
  (uuid : string) (now : Z) (st : State) : State :=
  match ChatWindow.handleFileChange file true with
  | Some (ChatWindow.ImageUpload base64) =>
      let '(st1, k) := handleImageAnalysis (history (core st)) base64 st in
      resumeImageAnalysis k answer uuid now st1
  | _ => st
  end.

Definition translate (index : nat) (l : GardenCare.lang)
  (answer : GardenCare.response) (ws : ChatWindow.State * State)
  : option (ChatWindow.State * State) :=
  let '(w, st) := ws in
  match ChatWindow.handleTranslate (messages st) index l w with
  | ChatWindow.TypeError _ => None
  | ChatWindow.Returned w' => Some (w', st)
  | ChatWindow.Awaiting w1 k =>
      match ChatWindow.resume true k answer w1 with
      | (w', Some (ChatWindow.UpdateMessage i m)) =>
          st' ← handleUpdateMessage (GardenCare.captured k) i m st; Some (w', st')
      | (w', _) => Some (w', st)
      end
  end.

End Shell.

(** ** [components/GardenCare.tsx]: the initial messages and the guide
    chat.  [chat] is the part of the state the translations work on. *)

Module GardenGuide.
Import Text App GardenCare.

Record State : Type := mkState {
  chat : GardenCare.State;
  chatInput : string;
  isChatLoading : bool
}.

Definition setChat (c : GardenCare.State) (st : State) : State :=
  mkState c (chatInput st) (isChatLoading st).

Definition setChatInput (s : string) (st : State) : State :=
  mkState (chat st) s (isChatLoading st).

Definition setIsChatLoading (b : bool) (st : State) : State :=
  mkState (chat st) (chatInput st) b.

Definition setChatMessages (ms : list Message.t) (st : State) : State :=
  setChat (GardenCare.setChatMessages ms (chat st)) st.

Definition mounted : State := mkState (GardenCare.mkState [] None []) "" false.

Definition welcome : Message.t :=
  Message.make Message.model
    "Hi! I am your Garden Master. **Just type a plant name** (e.g., *Hibiscus*, *Rose*, *Tulsi*) and I will provide a complete guide on potting mix, watering, pests, and maintenance schedules."
    None None None None.

(** The effect on [initialMessages]; [chatMessages] is the list of the
    render that scheduled it. *)
Definition initialEffect (initialMessages : option (list Message.t))
  (chatMessages : list Message.t) (st : State) : State :=
  match initialMessages with
  | Some (m :: ms) => setChatMessages (m :: ms) st
  | _ =>
      match chatMessages with
      | [] => setChatMessages [welcome] st
      | _ :: _ => st
      end
  end.

Record pending : Type := mkPending {
  request : list (Message.role_t * string) * string;
  plantName : string
}.

Inductive started : Type :=
| Ignored                                 (* returned before anything was set *)
| Awaiting (st : State) (k : pending).

(** [handleChatSubmit] up to its [await]; [chatMessages] is the list the
    closure captured. *)
Definition handleChatSubmit (chatMessages : list Message.t) (st : State) : started :=
  if negb (truthy (trim (chatInput st))) || isChatLoading st then Ignored
  else
    let plantName := trim (chatInput st) in
    let userMsg := Message.make Message.user plantName None None None None in
    Awaiting
      (setIsChatLoading true
         (setChatInput ""
            (setChatMessages (GardenCare.chatMessages (chat st) ++ [userMsg]) st)))
      (mkPending
         (map (fun m => (Message.role m, Message.text m)) chatMessages, plantName)
         plantName).

Definition guide_item (uuid : string) (now : Z) (plantName reply : string)
  : HistoryItem.t :=
  HistoryItem.make uuid now guide plantName
    None None None None None None None (Some reply) None None.

(** From the [await] on; the second component is the call of
    [onAddToHistory], if one is made. *)
Definition resume (onAddToHistory : bool) (k : pending) (r : response)
  (uuid : string) (now : Z) (st : State) : State * option HistoryItem.t :=
  match r with
  | Resolved reply =>
      let botMsg :=
        Message.make Message.model
          (Shell.or_else reply
             "I couldn't generate a guide for that plant. Please check the spelling!")
          None None None None in
      (setIsChatLoading false
         (setChatMessages (GardenCare.chatMessages (chat st) ++ [botMsg]) st),
       if onAddToHistory && truthy reply
       then Some (guide_item uuid now (plantName k) reply)
       else None)
  | Rejected =>
      (setIsChatLoading false
         (setChatMessages
            (GardenCare.chatMessages (chat st) ++
             [Message.make Message.model
                "I'm having trouble connecting to my garden wisdom. Please try again later."
                None None None None])
            st),
       None)
  end.

(** The text of the answer that [resume] posts. *)
Definition guide_reply (answer : response) : string :=
  match answer with
  | Resolved reply =>
      Shell.or_else reply
        "I couldn't generate a guide for that plant. Please check the spelling!"
  | Rejected =>
      "I'm having trouble connecting to my garden wisdom. Please try again later."
  end.

(** A submit handled to its end by the latest render; [onAddToHistory]
    is the [saveToHistory] of the application. *)
Definition submit (answer : response) (uuid : string) (now : Z)
  (gc : State * App.State) : State * App.State :=
  let '(g, c) := gc in
  match handleChatSubmit (GardenCare.chatMessages (chat g)) g with
  | Ignored => (g, c)
  | Awaiting g1 k =>
      match resume true k answer uuid now g1 with
      | (g2, Some item) => (g2, saveToHistory (history c) item c)
      | (g2, None) => (g2, c)
      end
  end.

(** The view as the application mounts it. *)
Definition open (initialMessages : option (list Message.t)) : State :=
  initialEffect initialMessages (GardenCare.chatMessages (chat mounted)) mounted.

End GardenGuide.

(** ** [components/SeedDetector.tsx] *)

Module SeedDetector.
Import Text App.

Record State : Type := mkState {
  isAnalyzing : bool;
  result : option SeedData.t;
  currentImage : option string;
  error : option string;
  console : list string
}.

Definition setIsAnalyzing (b : bool) (st : State) : State :=
  mkState b (result st) (currentImage st) (error st) (console st).

Definition setResult (r : option SeedData.t) (st : State) : State :=
  mkState (isAnalyzing st) r (currentImage st) (error st) (console st).

Definition setCurrentImage (i : option string) (st : State) : State :=
  mkState (isAnalyzing st) (result st) i (error st) (console st).

Definition setError (e : option string) (st : State) : State :=
  mkState (isAnalyzing st) (result st) (currentImage st) e (console st).

Definition console_error (line : string) (st : State) : State :=
  mkState (isAnalyzing st) (result st) (currentImage st) (error st)
          (console st ++ [line]).

Definition mounted : State := mkState false None None None [].

(** [x || null] on an optional text. *)
Definition or_null (x : option string) : option string :=
  match x with
  | Some s => if truthy s then Some s else None
  | None => None
  end.

Definition initialEffect (initialData : option HistoryItem.t) (st : State) : State :=
  match initialData with
  | Some item =>
      match HistoryItem.type item, HistoryItem.seedData item with
      | seed_analysis, Some data =>
          setCurrentImage (or_null (HistoryItem.imageUrl item))
            (setResult (Some data) st)
      | _, _ => st
      end
  | None => st
  end.

Inductive response : Type :=
| Resolved (data : option SeedData.t)    (* [None]: a falsy answer *)
| Rejected.

(** [performAnalysis] up to its [await]. *)
Definition performAnalysis (base64 : option string) (st : State)
  : State * option string :=
  (setError None (setResult None (setIsAnalyzing true st)), base64).

Definition seed_item (uuid : string) (now : Z) (base64 : option string)
  (data : SeedData.t) : HistoryItem.t :=
  HistoryItem.make uuid now seed_analysis
    (Shell.or_else (SeedData.seedName data) "Unknown Seed")
    None None None None None None base64 None None (Some data).

Definition failure : string :=
  "Failed to identify the seed. Please try a clearer image or ensure the seed is centered in the photo.".

(** From the [await] on; the second component is the call of
    [onAddToHistory], if one is made. *)
Definition resume (base64 : option string) (r : response) (uuid : string)
  (now : Z) (st : State) : State * option HistoryItem.t :=
  match r with
  | Resolved (Some data) =>
      (setIsAnalyzing false (setResult (Some data) st),
       Some (seed_item uuid now base64 data))
  | _ =>
      (setIsAnalyzing false
         (setError (Some failure) (console_error "Seed detection error:" st)),
       None)
  end.

(** [reader.onloadend] of [handleFileUpload], handled to its end. *)
Definition handleFileUpload (file : string) (answer : response) (uuid : string)
  (now : Z) (sc : State * App.State) : State * App.State :=
  let '(s, c) := sc in
  let base64String := Text.base64String file in
  let '(s1, request) := performAnalysis base64String (setCurrentImage base64String s) in
  match resume request answer uuid now s1 with
  | (s2, Some item) => (s2, saveToHistory (history c) item c)
  | (s2, None) => (s2, c)
  end.

Definition resetAnalysis (st : State) : State :=
  setCurrentImage None (setError None (setResult None st)).

(** The view as the application mounts it. *)
Definition open (initialData : option HistoryItem.t) : State :=
  initialEffect initialData mounted.

End SeedDetector.

(** ** [components/SoilAnalyzer.tsx]: the analysis and the reopened report *)

Module SoilAnalyzer.
Import Text App.

Record State : Type := mkState {
  isAnalyzing : bool;
  result : option SoilData.t;
  currentImage : option string;
  chatMessages : list Message.t;
  chatInput : string;
  isChatLoading : bool;
  error : option string;
  console : list string
}.

Definition setIsAnalyzing (b : bool) (st : State) : State :=
  mkState b (result st) (currentImage st) (chatMessages st) (chatInput st)
          (isChatLoading st) (error st) (console st).

Definition setResult (r : option SoilData.t) (st : State) : State :=
  mkState (isAnalyzing st) r (currentImage st) (chatMessages st) (chatInput st)
          (isChatLoading st) (error st) (console st).

Definition setCurrentImage (i : option string) (st : State) : State :=
  mkState (isAnalyzing st) (result st) i (chatMessages st) (chatInput st)
          (isChatLoading st) (error st) (console st).

Definition setChatMessages (ms : list Message.t) (st : State) : State :=
  mkState (isAnalyzing st) (result st) (currentImage st) ms (chatInput st)
          (isChatLoading st) (error st) (console st).

Definition setChatInput (s : string) (st : State) : State :=
  mkState (isAnalyzing st) (result st) (currentImage st) (chatMessages st) s
          (isChatLoading st) (error st) (console st).

Definition setIsChatLoading (b : bool) (st : State) : State :=
  mkState (isAnalyzing st) (result st) (currentImage st) (chatMessages st)
          (chatInput st) b (error st) (console st).

Definition setError (e : option string) (st : State) : State :=
  mkState (isAnalyzing st) (result st) (currentImage st) (chatMessages st)
          (chatInput st) (isChatLoading st) e (console st).

Definition console_error (line : string) (st : State) : State :=
  mkState (isAnalyzing st) (result st) (currentImage st) (chatMessages st)
          (chatInput st) (isChatLoading st) (error st) (console st ++ [line]).

Definition mounted : State := mkState false None None [] "" false None [].

Section Locale.
(** [new Date(t).toLocaleDateString()] of the host. *)
Variable toLocaleDateString : Z -> string.

Definition initialEffect (initialData : option HistoryItem.t) (st : State) : State :=
  match initialData with
  | Some item =>
      match HistoryItem.type item, HistoryItem.soilData item with
      | soil_analysis, Some data =>
          setChatMessages
            [Message.make Message.model
               ("I've reloaded your soil analysis from " +:+
                toLocaleDateString (HistoryItem.timestamp item) +:+
                ". You can continue to ask questions about this specific report below.")
               None None None None]
            (setCurrentImage (SeedDetector.or_null (HistoryItem.imageUrl item))
               (setResult (Some data) st))
      | _, _ => st
      end
  | None => st
  end.

Definition open (initialData : option HistoryItem.t) : State :=
  initialEffect initialData mounted.

End Locale.

Inductive response : Type :=
| Resolved (data : option SoilData.t)    (* [None]: a falsy answer *)
| Rejected.

(** [performAnalysis] up to its [await]. *)
Definition performAnalysis (base64 : option string) (st : State)
  : State * option string :=
  (setChatMessages [] (setError None (setResult None (setIsAnalyzing true st))),
   base64).

Definition welcomeMsg : Message.t :=
  Message.make Message.model
    "I've analyzed your soil report. The parameters are extracted above. You can now ask me any specific doubts about fertilizing, adjusting pH, or crop selection for this soil!"
    None None None None.

Definition soil_item (uuid : string) (now : Z) (base64 : option string)
  (data : SoilData.t) : HistoryItem.t :=
  HistoryItem.make uuid now soil_analysis "Soil Test"
    None None None None None None base64 None (Some data) None.

Definition failure : string :=
  "Failed to analyze soil report. Please ensure the photo is clear and contains text-based soil test data.".

Definition resume (base64 : option string) (r : response) (uuid : string)
  (now : Z) (st : State) : State * option HistoryItem.t :=
  match r with
  | Resolved (Some data) =>
      (setIsAnalyzing false (setChatMessages [welcomeMsg] (setResult (Some data) st)),
       Some (soil_item uuid now base64 data))
  | _ =>
      (setIsAnalyzing false
         (setError (Some failure) (console_error "Soil analysis error:" st)),
       None)
  end.

(** [reader.onloadend] of [handleFileUpload], handled to its end. *)
Definition handleFileUpload (file : string) (answer : response) (uuid : string)
  (now : Z) (sc : State * App.State) : State * App.State :=
  let '(s, c) := sc in
  let base64String := Text.base64String file in
  let '(s1, request) := performAnalysis base64String (setCurrentImage base64String s) in
  match resume request answer uuid now s1 with
  | (s2, Some item) => (s2, saveToHistory (history c) item c)
  | (s2, None) => (s2, c)
  end.

Definition resetAnalysis (st : State) : State :=
  setChatMessages [] (setCurrentImage None (setError None (setResult None st))).

(** *** The chat about the report

    [handleChatSubmit] up to its [await]; [chatMessages] and [result] are
    what the closure captured.  The question is sent as typed, behind
    the figures of the report when one is shown. *)

Definition soilContext (result : option SoilData.t) : string :=
  match result with
  | Some r =>
      "User Soil Data: pH " +:+ SoilData.phValue r +:+ ", N: " +:+
      SoilData.nitrogen r +:+ ", P: " +:+ SoilData.phosphorus r +:+ ", K: " +:+
      SoilData.potassium r +:+ ". "
  | None => ""
  end.

Record pending : Type := mkPending {
  historyLog : list (Message.role_t * string);
  question : string
}.

Inductive started : Type :=
| Ignored                                 (* returned before anything was set *)
| Awaiting (st : State) (k : pending).

Definition handleChatSubmit (chatMessages : list Message.t)
  (result : option SoilData.t) (st : State) : started :=
  if negb (truthy (trim (chatInput st))) || isChatLoading st then Ignored
  else
    let userMsg := Message.make Message.user (chatInput st) None None None None in
    Awaiting
      (setIsChatLoading true
         (setChatInput ""
            (setChatMessages (SoilAnalyzer.chatMessages st ++ [userMsg]) st)))
      (mkPending
         (map (fun m => (Message.role m, Message.text m)) chatMessages)
         (soilContext result +:+ Message.text userMsg)).



End SoilAnalyzer.

(** ** [components/Reminders.tsx]: the calendar and the form

    The calendar builds dates from local calendar fields; the host
    supplies [new Date(year, month, date)] on numbers, the day of the
    month, the day of the week and the ISO text of a time value. *)

Class LocalTime : Type := {
  MakeDate : Z -> Z -> Z -> JsDate;    (* [None]: outside the range of dates *)
  DateFromTime : Z -> Z;
  WeekDay : Z -> Z;
  toISOString : Z -> string
}.

Module Calendar.

Record form : Type := mkForm {
  title : string;
  type : ReminderType;
  plantName : string
}.

Record State : Type := mkState {
  selectedDate : JsDate;
  showAddModal : bool;
  newReminder : form
}.

Definition setSelectedDate (d : JsDate) (st : State) : State :=
  mkState d (showAddModal st) (newReminder st).

Definition setShowAddModal (b : bool) (st : State) : State :=
  mkState (selectedDate st) b (newReminder st).

Definition setNewReminder (f : form) (st : State) : State :=
  mkState (selectedDate st) (showAddModal st) f.

Section WithHost.
Context `{Host} `{LocalTime}.

(** [new Date(year, month, date)]: a [NaN] among the arguments gives an
    Invalid Date. *)
Definition new_Date (year month date : option Z) : JsDate :=
  y ← year; m ← month; d ← date; MakeDate y m d.

Definition getDate (d : JsDate) : option Z := DateFromTime <$> d.
Definition getDay (d : JsDate) : option Z := WeekDay <$> d.

Definition daysInMonth (year month : option Z) : option Z :=
  getDate (new_Date year ((fun m => m + 1) <$> month) (Some 0)).

Definition firstDayOfMonth (year month : option Z) : option Z :=
  getDay (new_Date year month (Some 1)).

Definition handlePrevMonth (st : State) : State :=
  setSelectedDate
    (new_Date (getFullYear (selectedDate st))
              ((fun m => m - 1) <$> getMonth (selectedDate st)) (Some 1))
    st.

Definition handleNextMonth (st : State) : State :=
  setSelectedDate
    (new_Date (getFullYear (selectedDate st))
              ((fun m => m + 1) <$> getMonth (selectedDate st)) (Some 1))
    st.

(** [today] is what [new Date()] answers. *)
Definition isToday (today : Z) (day : Z) (st : State) : bool :=
  number_eq (getDate (Some today)) (Some day)
  && number_eq (getMonth (Some today)) (getMonth (selectedDate st))
  && number_eq (getFullYear (Some today)) (getFullYear (selectedDate st)).

Definition hasReminder (reminders : list Reminder.t) (day : Z) (st : State) : bool :=
  let dateStr :=
    toDateString (new_Date (getFullYear (selectedDate st))
                           (getMonth (selectedDate st)) (Some day)) in
  existsb (fun r => bool_decide (toDateString (Date_parse (Reminder.date r)) = dateStr))
          reminders.

(** [selectedDate.toISOString()] throws a RangeError on an Invalid Date
    before anything is added or set: [None]. *)
Definition handleAddSubmit (uuid : string) (st : State)
  : option (State * Reminder.t) :=
  match selectedDate st with
  | Some t =>
      Some (setNewReminder (mkForm "" fertilizer "") (setShowAddModal false st),
            Reminder.make uuid (title (newReminder st)) (toISOString t)
              (type (newReminder st)) (Some (plantName (newReminder st))) false)
  | None => None
  end.

(** [Array.from({ length: n }, (_, i) => i + 1)]; a length of [NaN]
    gives the empty array. *)
Definition days (st : State) : list Z :=
  match daysInMonth (getFullYear (selectedDate st)) (getMonth (selectedDate st)) with
  | Some n => map (fun i => Z.of_nat i + 1) (seq 0 (Z.to_nat n))
  | None => []
  end.

Definition blanks (st : State) : list Z :=
  match firstDayOfMonth (getFullYear (selectedDate st)) (getMonth (selectedDate st)) with
  | Some n => map Z.of_nat (seq 0 (Z.to_nat n))
  | None => []
  end.

End WithHost.

End Calendar.

(** ** The calendar functions of the UTC host *)

Module UtcCalendar.
Import Utc.

(** [new Date(year, month, date)]: a year from 0 to 99 counts from 1900,
    months beyond the year carry into the year, and a time value beyond
    8.64e15 milliseconds is no date. *)
Definition make_date (year month date : Z) : JsDate :=
  let yr := if (0 <=? year) && (year <=? 99) then 1900 + year else year in
  let ym := yr + month / 12 in
  let mn := month mod 12 in
  let t := (days_from_civil ym (mn + 1) 1 + date - 1) * msPerDay in
  if Z.abs t <=? 8640000000000000 then Some t else None.

Definition date_from_time (t : Z) : Z := snd (civil_from_days (t / msPerDay)).

Definition week_day (t : Z) : Z := (t / msPerDay + 4) mod 7.

Definition pad3 (n : Z) : string :=
  if n <? 10 then "00" +:+ decimal n
  else if n <? 100 then "0" +:+ decimal n
  else decimal n.

Definition pad6 (n : Z) : string :=
  if n <? 10 then "00000" +:+ decimal n
  else if n <? 100 then "0000" +:+ decimal n
  else if n <? 1000 then "000" +:+ decimal n
  else if n <? 10000 then "00" +:+ decimal n
  else if n <? 100000 then "0" +:+ decimal n
  else decimal n.

Definition iso_year (y : Z) : string :=
  if (0 <=? y) && (y <=? 9999) then pad4 y
  else (if y <? 0 then "-" else "+") +:+ pad6 (Z.abs y).

Definition to_iso (t : Z) : string :=
  let day := t / msPerDay in
  let ms := t mod msPerDay in
  let '(y, m, d) := civil_from_days day in
  iso_year y +:+ "-" +:+ pad2 m +:+ "-" +:+ pad2 d +:+ "T" +:+
  pad2 (ms / 3600000) +:+ ":" +:+ pad2 (ms / 60000 mod 60) +:+ ":" +:+
  pad2 (ms / 1000 mod 60) +:+ "." +:+ pad3 (ms mod 1000) +:+ "Z".

Definition local_time : LocalTime := {|
  MakeDate := make_date;
  DateFromTime := date_from_time;
  WeekDay := week_day;
  toISOString := to_iso
|}.

(** The length of a month of the Gregorian calendar, months from 0. *)
Definition leap_year (y : Z) : bool :=
  (y mod 4 =? 0) && (negb (y mod 100 =? 0) || (y mod 400 =? 0)).

Definition month_length (y m : Z) : Z :=
  if m =? 1 then (if leap_year y then 29 else 28)
  else if (m =? 3) || (m =? 5) || (m =? 8) || (m =? 10) then 30
  else 31.

End UtcCalendar.

(** ** Sample data for the examples of the views *)

Module Scenarios.
Import App.

Definition leaf_photo : string := "data:image/jpeg;base64,/9j/4AAQSkZJRg==".

Definition blight : HistoryItem.t :=
  HistoryItem.make "" 0 analysis "Tomato"
    (Some "Early blight"%string) (Some "moderate"%string)
    (Some ["Brown spots with rings"%string])
    (Some (Cures.make ["Neem oil"%string] ["Chlorothalonil"%string]))
    (Some ["Rotate crops"%string]) None None None None None.


Definition red_soil : SoilData.t :=
  SoilData.make "6.4" "low" "medium" "high" "1.2%"
                ["Groundnut"%string] ["Add compost"%string].

Definition asking : ChatWindow.State := ChatWindow.mkState " Why are the leaves yellow? " None None [].

Definition typing_hibiscus : GardenGuide.State :=
  GardenGuide.mkState (GardenCare.mkState [GardenGuide.welcome] None []) "Hibiscus " false.

End Scenarios.

(** * Properties *)

Module JsonFacts.
Import Json.

(** Induction over [json] that reaches the values nested in arrays and
    objects. *)
Section JsonInduction.
Variable P : json -> Prop.
Hypothesis HNull : P JNull.
Hypothesis HBool : forall b, P (JBool b).
Hypothesis HNum : forall z, P (JNum z).
Hypothesis HStr : forall s, P (JStr s).
Hypothesis HArr : forall vs, List.Forall P vs -> P (JArr vs).
Hypothesis HObj : forall ps, List.Forall (fun kv => P (snd kv)) ps -> P (JObj ps).

Fixpoint json_nested_ind (v : json) : P v :=
  match v with
  | JNull => HNull
  | JBool b => HBool b
  | JNum z => HNum z
  | JStr s => HStr s
  | JArr vs =>
      HArr vs
        ((fix go (l : list json) : List.Forall P l :=
            match l with
            | [] => @List.Forall_nil _ P
            | x :: l' => @List.Forall_cons _ P x l' (json_nested_ind x) (go l')
            end) vs)
  | JObj ps =>
      HObj ps
        ((fix go (l : list (string * json)) : List.Forall (fun kv => P (snd kv)) l :=
            match l with
            | [] => @List.Forall_nil _ _
            | kv :: l' => @List.Forall_cons _ _ kv l' (json_nested_ind (snd kv)) (go l')
            end) ps)
  end.
End JsonInduction.

Lemma parse_chars_escape c tl :
  parse_chars (escape_char c ++ tl) = rmap (String c) (parse_chars tl).
Proof. destruct c as [[] [] [] [] [] [] [] []]; reflexivity. Qed.

Lemma parse_chars_quote s rest :
  parse_chars (quote_chars s ++ dquote :: rest) = Ok s rest.
Proof.
  induction s as [|c s IH]; cbn [quote_chars].
  - reflexivity.
  - rewrite <- app_assoc, parse_chars_escape, IH. reflexivity.
Qed.

Lemma lex_uint_chars d rest :
  match rest with c :: _ => digit_cons c = None | [] => True end ->
  lex_uint (chars_of_uint d ++ rest) = (d, rest).
Proof.
  intros Hrest.
  induction d as [|d IH|d IH|d IH|d IH|d IH|d IH|d IH|d IH|d IH|d IH];
    cbn [chars_of_uint app];
    try (change (lex_uint (?c :: ?l)) with
           (match digit_cons c with
            | Some D => let '(d, rest) := lex_uint l in (D d, rest)
            | None => (Nil, c :: l)
            end); cbn [digit_cons]; rewrite IH; reflexivity).
  destruct rest as [|c rest]; [reflexivity|].
  cbn [lex_uint]. rewrite Hrest. reflexivity.
Qed.

Lemma to_uint_canonical n : canonical (N.to_uint n).
Proof.
  assert (E : N.to_uint n = unorm (N.to_uint n)).
  { rewrite <- (DecimalN.Unsigned.to_of (N.to_uint n)).
    rewrite DecimalN.Unsigned.of_to. reflexivity. }
  rewrite E. generalize (N.to_uint n). intros d.
  unfold unorm. pose proof (nzhead_nonzero d) as Hnz.
  destruct (nzhead d) eqn:Ed; cbn; try exact I.
  exfalso. eapply Hnz. reflexivity.
Qed.

Lemma number_of_canonical neg d rest :
  canonical d -> delim rest ->
  Z.of_N (N.of_uint d) <= MAX_SAFE_INTEGER ->
  (neg = true -> Z.of_N (N.of_uint d) <> 0) ->
  number_of neg d rest =
  Ok (if neg then - Z.of_N (N.of_uint d) else Z.of_N (N.of_uint d)) rest.
Proof.
  intros Hc Hd Hmax Hneg.
  assert (Hf : starts_fraction rest = false).
  { destruct rest; [reflexivity | apply Hd]. }
  assert (Hlt : (MAX_SAFE_INTEGER <? Z.of_N (N.of_uint d)) = false)
    by (apply Z.ltb_ge; exact Hmax).
  assert (Hz : neg = true -> (Z.of_N (N.of_uint d) =? 0) = false)
    by (intros E; apply Z.eqb_neq; auto).
  unfold number_of.
  destruct d as [|d|d|d|d|d|d|d|d|d|d]; try contradiction;
    try (rewrite Hf, Hlt; destruct neg; [rewrite Hz by reflexivity|]; reflexivity).
  destruct d; try contradiction.
  rewrite Hf, Hlt. destruct neg; [rewrite Hz by reflexivity|]; reflexivity.
Qed.

Lemma chars_of_uint_head d :
  d <> Nil ->
  exists c tl, chars_of_uint d = c :: tl /\ (48 <= code c <= 57)%N.
Proof.
  destruct d; intros Hd; try congruence;
    cbn [chars_of_uint]; eexists _, _; (split; [reflexivity | vm_compute; split; congruence]).
Qed.

Lemma canonical_nonnil d : canonical d -> d <> Nil.
Proof. destruct d; cbn; congruence || tauto. Qed.

Lemma parse_number_print z rest :
  - MAX_SAFE_INTEGER <= z <= MAX_SAFE_INTEGER -> delim rest ->
  parse_number (print_Z z ++ rest) = Ok z rest.
Proof.
  intros Hz Hd.
  assert (Hlex : forall d, lex_uint (chars_of_uint d ++ rest) = (d, rest)).
  { intros d. apply lex_uint_chars. destruct rest; [exact I | apply Hd]. }
  unfold print_Z. destruct (Z.ltb_spec z 0) as [Hneg|Hpos].
  - cbn [app parse_number]. change (code "-" =? 45)%N with true. cbn match.
    rewrite Hlex.
    rewrite number_of_canonical; rewrite ?DecimalN.Unsigned.of_to;
      try rewrite N2Z.inj_abs_N; auto using to_uint_canonical; try lia.
    f_equal. lia.
  - destruct (chars_of_uint_head (N.to_uint (Z.to_N z))) as (c & tl & E & Hc).
    { apply canonical_nonnil, to_uint_canonical. }
    rewrite E. cbn [app parse_number].
    replace (code c =? 45)%N with false by (symmetry; apply N.eqb_neq; lia).
    change (c :: tl ++ rest) with ((c :: tl) ++ rest). rewrite <- E, Hlex.
    rewrite number_of_canonical; rewrite ?DecimalN.Unsigned.of_to;
      try rewrite Z2N.id; auto using to_uint_canonical; try lia.
Qed.

Lemma print_Z_head z : exists c tl, print_Z z = c :: tl /\ number_start c.
Proof.
  unfold print_Z. destruct (z <? 0).
  - eexists _, _. split; [reflexivity | left; reflexivity].
  - destruct (chars_of_uint_head (N.to_uint (Z.to_N z))) as (c & tl & E & Hc).
    { apply canonical_nonnil, to_uint_canonical. }
    exists c, tl. split; [exact E | right; exact Hc].
Qed.

Lemma parse_value_number fuel c r :
  number_start c ->
  parse_value (S fuel) (c :: r) = rmap JNum (parse_number (c :: r)).
Proof.
  unfold number_start.
  destruct c as [[] [] [] [] [] [] [] []]; vm_compute code; intros H;
    try (exfalso; lia); reflexivity.
Qed.

Lemma number_start_plain c :
  number_start c -> is_ws c = false /\ code c <> 93%N /\ code c <> 125%N.
Proof.
  unfold number_start, is_ws. intros H.
  repeat split; try lia.
  repeat (apply orb_false_intro); apply N.eqb_neq; lia.
Qed.

Lemma print_head v :
  exists c tl, print v = c :: tl /\
               is_ws c = false /\ code c <> 93%N /\ code c <> 125%N.
Proof.
  destruct v as [|[]|z|s|vs|ps];
    try (eexists _, _; split; [reflexivity | vm_compute; repeat split; congruence]).
  destruct (print_Z_head z) as (c & tl & E & Hc).
  exists c, tl. split; [exact E | apply number_start_plain, Hc].
Qed.

Lemma skip_ws_head c tl : is_ws c = false -> skip_ws (c :: tl) = c :: tl.
Proof. intros H. cbn [skip_ws]. rewrite H. reflexivity. Qed.

Lemma delim_comma rest : delim (","%char :: rest).
Proof. split; reflexivity. Qed.

Lemma delim_bracket rest : delim ("]"%char :: rest).
Proof. split; reflexivity. Qed.

Lemma delim_brace rest : delim ("}"%char :: rest).
Proof. split; reflexivity. Qed.

Lemma delim_more {A} (f : A -> list ascii) (l : list A) c rest :
  delim (c :: rest) -> delim (print_tail f l ++ c :: rest).
Proof. destruct l; [trivial | intros _; apply delim_comma]. Qed.

Lemma parse_elements_S fuel cs :
  parse_elements (S fuel) cs =
  match parse_value fuel cs with
  | Err e => Err e
  | Ok v r =>
      match skip_ws r with
      | [] => Err SyntaxError
      | c :: r' =>
          if (code c =? 44)%N then rmap (cons v) (parse_elements fuel r')
          else if (code c =? 93)%N then Ok [v] r'
          else Err SyntaxError
      end
  end.
Proof. reflexivity. Qed.

Lemma parse_elements_print vs :
  List.Forall reads_back vs -> forallb json_wf vs = true ->
  forall v fuel rest, reads_back v -> json_wf v = true ->
  (S (need v) + list_sum (map (fun x => S (need x)) vs) <= fuel)%nat ->
  parse_elements fuel (print v ++ print_tail print vs ++ "]"%char :: rest)
  = Ok (v :: vs) rest.
Proof.
  induction 1 as [|x vs Hx _ IH]; intros Hwf v fuel rest Hv Hwfv Hfuel;
    (destruct fuel as [|fuel]; [cbn in Hfuel; lia|]);
    rewrite parse_elements_S.
  - cbn [print_tail app]. rewrite Hv; [reflexivity | exact Hwfv | cbn in Hfuel; lia |].
    apply delim_bracket.
  - cbn [forallb] in Hwf. apply andb_prop in Hwf as [Hwfx Hwfvs].
    cbn [map list_sum fold_right] in Hfuel.
    rewrite Hv; [| exact Hwfv | lia | apply delim_more, delim_bracket].
    cbn [print_tail app skip_ws]. change (is_ws ",") with false. cbn match.
    change (code "," =? 44)%N with true. cbn match.
    rewrite <- app_assoc.
    rewrite IH; [reflexivity | exact Hwfvs | exact Hx | exact Hwfx | unfold list_sum in *; lia].
Qed.

Lemma parse_members_S fuel cs :
  parse_members (S fuel) cs =
  match skip_ws cs with
  | [] => Err SyntaxError
  | q :: r =>
      if (code q =? 34)%N then
        match parse_chars r with
        | Err e => Err e
        | Ok k r1 =>
            if index_like k then Err Unsupported
            else
              match skip_ws r1 with
              | [] => Err SyntaxError
              | c :: r2 =>
                  if (code c =? 58)%N then
                    match parse_value fuel r2 with
                    | Err e => Err e
                    | Ok v r3 =>
                        match skip_ws r3 with
                        | [] => Err SyntaxError
                        | c' :: r4 =>
                            if (code c' =? 44)%N then
                              rmap (cons (k, v)) (parse_members fuel r4)
                            else if (code c' =? 125)%N then Ok [(k, v)] r4
                            else Err SyntaxError
                        end
                    end
                  else Err SyntaxError
              end
        end
      else Err SyntaxError
  end.
Proof. reflexivity. Qed.

Lemma parse_members_print ps :
  List.Forall (fun kv => reads_back (snd kv)) ps -> forallb member_ok ps = true ->
  forall kv fuel rest, reads_back (snd kv) -> member_ok kv = true ->
  (S (need (snd kv)) + list_sum (map (fun x => S (need (snd x))) ps) <= fuel)%nat ->
  parse_members fuel
    (print_member kv ++ print_tail print_member ps ++ "}"%char :: rest)
  = Ok (kv :: ps) rest.
Proof.
  induction 1 as [|x ps Hx _ IH]; intros Hwf [k v] fuel rest Hv Hok Hfuel;
    (destruct fuel as [|fuel]; [cbn in Hfuel; lia|]);
    rewrite parse_members_S;
    apply andb_prop in Hok as [Hk Hwfv]; cbn [fst snd] in *;
    apply negb_true_iff in Hk;
    unfold print_member at 1, quote; cbn [fst snd];
    rewrite <- !app_assoc; cbn [app skip_ws];
    change (is_ws dquote) with false; cbn match;
    change (code dquote =? 34)%N with true; cbn match;
    rewrite <- app_assoc; cbn [app]; rewrite parse_chars_quote, Hk;
    cbn [app skip_ws]; change (is_ws ":") with false; cbn match;
    change (code ":" =? 58)%N with true; cbn match.
  - cbn [print_tail app]. rewrite Hv; [reflexivity | exact Hwfv | cbn in Hfuel; lia |].
    apply delim_brace.
  - cbn [forallb] in Hwf. apply andb_prop in Hwf as [Hokx Hokps].
    cbn [map list_sum fold_right] in Hfuel.
    rewrite Hv; [| exact Hwfv | lia | apply delim_more, delim_brace].
    cbn [print_tail app skip_ws]. change (is_ws ",") with false. cbn match.
    change (code "," =? 44)%N with true. cbn match.
    rewrite <- app_assoc.
    rewrite IH; [destruct x; reflexivity | exact Hokps | exact Hx | exact Hokx
               | unfold list_sum in *; lia].
Qed.

Lemma distinct_NoDup ks : distinct ks = true -> List.NoDup ks.
Proof.
  induction ks as [|k ks IH]; cbn [distinct]; intros H; [constructor|].
  apply andb_prop in H as [Hk Hks]. constructor; [|auto].
  intros Hin. apply negb_true_iff in Hk.
  assert (existsb (String.eqb k) ks = true); [|congruence].
  apply existsb_exists. exists k. split; [exact Hin | apply String.eqb_refl].
Qed.

Lemma obj_set_fresh k v ps :
  ~ List.In k (map fst ps) -> obj_set k v ps = ps ++ [(k, v)].
Proof.
  induction ps as [|[k' v'] ps IH]; cbn [obj_set map fst app]; intros Hk; [reflexivity|].
  destruct (String.eqb_spec k k') as [->|Hne].
  - exfalso. apply Hk. left. reflexivity.
  - rewrite IH; [reflexivity|]. intros Hin. apply Hk. right. exact Hin.
Qed.

Lemma obj_of_members_app ms : forall acc,
  List.NoDup (map fst (acc ++ ms)) ->
  fold_left (fun o kv => obj_set (fst kv) (snd kv) o) ms acc = acc ++ ms.
Proof.
  induction ms as [|[k v] ms IH]; intros acc Hnd; cbn [fold_left fst snd].
  - rewrite app_nil_r. reflexivity.
  - rewrite obj_set_fresh.
    + rewrite IH; rewrite <- app_assoc; [reflexivity | exact Hnd].
    + rewrite map_app in Hnd. cbn [map fst] in Hnd.
      apply NoDup_remove_2 in Hnd. intros Hin. apply Hnd.
      apply in_or_app. left. exact Hin.
Qed.

Lemma obj_of_members_distinct ms :
  distinct (map fst ms) = true -> obj_of_members ms = ms.
Proof.
  intros H. unfold obj_of_members.
  rewrite obj_of_members_app; [reflexivity | apply distinct_NoDup, H].
Qed.

Lemma print_reads_back v : reads_back v.
Proof.
  induction v as [|b|z|s|vs IH|ps IH] using json_nested_ind;
    intros Hwf fuel rest Hfuel Hrest;
    (destruct fuel as [|fuel]; [cbn in Hfuel; lia|]).
  - reflexivity.
  - destruct b; reflexivity.
  - cbn [json_wf] in Hwf. apply andb_prop in Hwf as [Hlo Hhi].
    apply Z.leb_le in Hlo, Hhi. cbn [print].
    destruct (print_Z_head z) as (c & tl & E & Hc).
    pose proof (parse_number_print z rest (conj Hlo Hhi) Hrest) as Hnum.
    rewrite E in *. cbn [app] in *.
    rewrite parse_value_number by exact Hc. rewrite Hnum. reflexivity.
  - cbn [print]. unfold quote. cbn [app parse_value skip_ws].
    change (is_ws dquote) with false. cbn match.
    change (code dquote) with 34%N. cbn.
    rewrite <- app_assoc. cbn [app]. rewrite parse_chars_quote. reflexivity.
  - destruct vs as [|v vs]; [reflexivity|].
    cbn [json_wf forallb] in Hwf. apply andb_prop in Hwf as [Hwfv Hwfvs].
    inversion IH as [|? ? Hv Hvs]; subst.
    destruct (print_head v) as (c & tl & E & Hws & Hc & _).
    pose proof (parse_elements_print vs Hvs Hwfvs v fuel rest Hv Hwfv) as Hel.
    cbn [print print_list]. rewrite E in *. cbn [app] in *.
    rewrite <- !app_assoc. cbn [app].
    change (parse_value (S fuel) ("["%char :: c :: ?r)) with
      (match skip_ws (c :: r) with
       | [] => Err SyntaxError
       | c' :: r' =>
           if (code c' =? 93)%N then Ok (JArr []) r'
           else rmap JArr (parse_elements fuel (c :: r))
       end).
    rewrite skip_ws_head by exact Hws.
    replace (code c =? 93)%N with false by (symmetry; apply N.eqb_neq; exact Hc).
    rewrite Hel; [reflexivity|]. cbn [need] in Hfuel.
    unfold list_sum in *. cbn [map fold_right] in Hfuel. lia.
  - destruct ps as [|kv ps]; [reflexivity|].
    cbn [json_wf] in Hwf. apply andb_prop in Hwf as [Hdist Hwf].
    change (forallb member_ok (kv :: ps) = true) in Hwf.
    cbn [forallb] in Hwf. apply andb_prop in Hwf as [Hokv Hokps].
    inversion IH as [|? ? Hv Hvs]; subst.
    pose proof (parse_members_print ps Hvs Hokps kv fuel rest Hv Hokv) as Hmem.
    change (print (JObj (kv :: ps))) with
      ("{"%char :: (print_member kv ++ print_tail print_member ps) ++ ["}"%char]).
    cbn [app]. rewrite <- !app_assoc. cbn [app].
    change (parse_value (S fuel) ("{"%char :: print_member kv ++ ?r)) with
      (rmap (fun ms => JObj (obj_of_members ms))
         (parse_members fuel (print_member kv ++ r))).
    rewrite Hmem.
    + cbn [rmap]. rewrite obj_of_members_distinct by exact Hdist. reflexivity.
    + cbn [need] in Hfuel. unfold list_sum in *. cbn [map fold_right] in Hfuel. lia.
Qed.

Lemma need_tail {A} (f : A -> list ascii) (g : A -> nat) (l : list A) :
  List.Forall (fun x => (g x <= List.length (f x))%nat) l ->
  (list_sum (map (fun x => S (g x)) l) <= List.length (print_tail f l))%nat.
Proof.
  induction 1 as [|x l Hx _ IH]; cbn [map print_tail]; [reflexivity|].
  unfold list_sum in *. cbn [fold_right List.length]. rewrite length_app. lia.
Qed.

Lemma need_list {A} (f : A -> list ascii) (g : A -> nat) (l : list A) :
  List.Forall (fun x => (g x <= List.length (f x))%nat) l ->
  (list_sum (map (fun x => S (g x)) l) <= S (List.length (print_list f l)))%nat.
Proof.
  destruct 1 as [|x l Hx Hl]; [cbn; lia|].
  pose proof (need_tail f g l Hl) as Ht.
  cbn [map print_list]. unfold list_sum in *. cbn [fold_right].
  rewrite length_app. lia.
Qed.

Lemma need_le_length v : (need v <= List.length (print v))%nat.
Proof.
  induction v as [|b|z|s|vs IH|ps IH] using json_nested_ind.
  - cbn. lia.
  - destruct b; cbn; lia.
  - destruct (print_Z_head z) as (c & tl & E & _). cbn [need print].
    rewrite E. cbn [List.length]. lia.
  - cbn [need print]. unfold quote. cbn [List.length]. lia.
  - cbn [need print List.length]. rewrite length_app. cbn [List.length].
    pose proof (need_list print need vs IH). lia.
  - cbn [need].
    change (print (JObj ps)) with ("{"%char :: print_list print_member ps ++ ["}"%char]).
    cbn [List.length]. rewrite length_app. cbn [List.length].
    assert (Hm : List.Forall
                   (fun kv => (need (snd kv) <= List.length (print_member kv))%nat) ps).
    { eapply List.Forall_impl; [|exact IH]. intros [k x] Hx. cbn [snd fst] in *.
      unfold print_member. cbn [fst snd]. rewrite length_app. cbn [List.length]. lia. }
    pose proof (need_list print_member (fun kv => need (snd kv)) ps Hm). lia.
Qed.

(** *** The recognizer is sound for the grammar *)

Lemma eq_of_code c n : code c = n -> c = chr n.
Proof. intros <-. unfold chr, code. symmetry. apply ascii_N_embedding. Qed.

Lemma skip_ws_split cs : exists w, cs = w ++ skip_ws cs /\ blank w.
Proof.
  induction cs as [|c cs (w & E & Hw)]; [exists []; split; [reflexivity | constructor]|].
  cbn [skip_ws]. destruct (is_ws c) eqn:Hc.
  - exists (c :: w). split; [cbn [app]; f_equal; exact E | constructor; assumption].
  - exists []. split; [reflexivity | constructor].
Qed.

Lemma skip_ws_length cs : (List.length (skip_ws cs) <= List.length cs)%nat.
Proof.
  destruct (skip_ws_split cs) as (w & E & _).
  rewrite E at 2. rewrite length_app. lia.
Qed.

Lemma skip_ws_blank cs : skip_ws cs = [] -> blank cs.
Proof.
  intros H. destruct (skip_ws_split cs) as (w & E & Hw).
  rewrite H, app_nil_r in E. subst w. exact Hw.
Qed.

Lemma accept_chars_sound cs : forall rest,
  accept_chars cs = Some rest ->
  exists body, cs = body ++ dquote :: rest /\ json_chars body.
Proof.
  remember (List.length cs) as n eqn:Hn. revert cs Hn.
  induction n as [n IH] using lt_wf_ind. intros cs Hn rest H. subst n.
  destruct cs as [|c cs]; [discriminate|]. cbn [accept_chars] in H.
  destruct (N.eqb_spec (code c) 34) as [Hq|Hq].
  - injection H as <-. apply eq_of_code in Hq. subst c.
    exists []. split; [reflexivity | constructor].
  - destruct (N.eqb_spec (code c) 92) as [Hb|Hb].
    + apply eq_of_code in Hb. subst c.
      destruct cs as [|e cs]; [discriminate|].
      destruct (simple_escape e) eqn:He.
      * destruct (IH (List.length cs)) with (cs := cs) (rest := rest)
          as (body & E & Hbody); [cbn [List.length]; lia | reflexivity | exact H |].
        exists (bslash :: e :: body).
        split; [cbn [app]; rewrite E; reflexivity | constructor; assumption].
      * destruct (N.eqb_spec (code e) 117) as [Hu|Hu]; [|discriminate].
        apply eq_of_code in Hu. subst e.
        destruct cs as [|h1 [|h2 [|h3 [|h4 cs]]]]; try discriminate.
        destruct (is_hex h1) eqn:H1; [|discriminate].
        destruct (is_hex h2) eqn:H2; [|discriminate].
        destruct (is_hex h3) eqn:H3; [|discriminate].
        destruct (is_hex h4) eqn:H4; [|discriminate].
        cbn [andb] in H.
        destruct (IH (List.length cs)) with (cs := cs) (rest := rest)
          as (body & E & Hbody); [cbn [List.length]; lia | reflexivity | exact H |].
        exists (bslash :: "u"%char :: h1 :: h2 :: h3 :: h4 :: body).
        split; [cbn [app]; rewrite E; reflexivity | constructor; assumption].
    + destruct (N.ltb_spec (code c) 32) as [Hlt|Hge]; [discriminate|].
      destruct (IH (List.length cs)) with (cs := cs) (rest := rest)
        as (body & E & Hbody); [cbn [List.length]; lia | reflexivity | exact H |].
      exists (c :: body).
      split; [cbn [app]; rewrite E; reflexivity | constructor; assumption].
Qed.

Lemma skip_digits_split cs :
  exists l, cs = l ++ skip_digits cs /\ List.Forall (fun c => is_digit c = true) l.
Proof.
  induction cs as [|c cs (l & E & Hl)]; [exists []; split; [reflexivity | constructor]|].
  cbn [skip_digits]. destruct (is_digit c) eqn:Hc.
  - exists (c :: l). split; [cbn [app]; f_equal; exact E | constructor; assumption].
  - exists []. split; [reflexivity | constructor].
Qed.

Lemma accept_digits_sound cs rest :
  accept_digits cs = Some rest -> exists l, cs = l ++ rest /\ digits l.
Proof.
  destruct cs as [|c cs]; [discriminate|]. cbn [accept_digits].
  destruct (is_digit c) eqn:Hc; [|discriminate]. intros [= <-].
  destruct (skip_digits_split cs) as (l & E & Hl).
  exists (c :: l). split; [cbn [app]; f_equal; exact E|].
  split; [discriminate | constructor; assumption].
Qed.

Lemma accept_int_sound cs rest :
  accept_int cs = Some rest -> exists l, cs = l ++ rest /\ json_int l.
Proof.
  destruct cs as [|c cs]; [discriminate|]. cbn [accept_int].
  destruct (N.eqb_spec (code c) 48) as [Hz|Hz].
  - intros [= <-]. apply eq_of_code in Hz. subst c.
    exists ["0"%char]. split; [reflexivity | constructor].
  - destruct (is_digit c) eqn:Hc; [|discriminate]. intros [= <-].
    destruct (skip_digits_split cs) as (l & E & Hl).
    exists (c :: l). split; [cbn [app]; f_equal; exact E | constructor; assumption].
Qed.

Lemma accept_frac_sound cs rest :
  accept_frac cs = Some rest -> exists l, cs = l ++ rest /\ json_frac l.
Proof.
  destruct cs as [|c cs]; cbn [accept_frac].
  - intros [= <-]. exists []. split; [reflexivity | constructor].
  - destruct (N.eqb_spec (code c) 46) as [Hp|Hp].
    + intros H. apply accept_digits_sound in H as (l & E & Hl).
      apply eq_of_code in Hp. subst c.
      exists ("."%char :: l). split; [cbn [app]; f_equal; exact E | constructor; exact Hl].
    + intros [= <-]. exists []. split; [reflexivity | constructor].
Qed.

Lemma accept_exp_sound cs rest :
  accept_exp cs = Some rest -> exists l, cs = l ++ rest /\ json_exp l.
Proof.
  destruct cs as [|c cs]; cbn [accept_exp].
  - intros [= <-]. exists []. split; [reflexivity | constructor].
  - destruct ((code c =? 101)%N || (code c =? 69)%N) eqn:He.
    + assert (Hc : code c = 101%N \/ code c = 69%N).
      { apply orb_prop in He as [He|He]; apply N.eqb_eq in He; auto. }
      destruct cs as [|s cs]; [discriminate|].
      destruct ((code s =? 43)%N || (code s =? 45)%N) eqn:Hs.
      * assert (Hs' : code s = 43%N \/ code s = 45%N).
        { apply orb_prop in Hs as [Hs|Hs]; apply N.eqb_eq in Hs; auto. }
        intros H. apply accept_digits_sound in H as (l & E & Hl).
        exists (c :: s :: l).
        split; [cbn [app]; do 2 f_equal; exact E | constructor; assumption].
      * intros H. apply accept_digits_sound in H as (l & E & Hl).
        exists (c :: l).
        split; [cbn [app]; f_equal; exact E | apply exp_plain; assumption].
    + intros [= <-]. exists []. split; [reflexivity | constructor].
Qed.

Lemma accept_number_sound cs rest :
  accept_number cs = Some rest -> exists l, cs = l ++ rest /\ json_number l.
Proof.
  unfold accept_number.
  set (body := match cs with
               | c :: cs' => if (code c =? 45)%N then cs' else cs
               | [] => []
               end).
  destruct (accept_int body) as [r1|] eqn:Hi; [|discriminate].
  destruct (accept_frac r1) as [r2|] eqn:Hf; [|discriminate].
  intros He.
  apply accept_int_sound in Hi as (i & Ei & Hi).
  apply accept_frac_sound in Hf as (f & Ef & Hf).
  apply accept_exp_sound in He as (e & Ee & He).
  assert (Ebody : body = (i ++ f ++ e) ++ rest).
  { rewrite Ei, Ef, Ee, <- !app_assoc. reflexivity. }
  subst body. destruct cs as [|c cs].
  - exists (i ++ f ++ e). split; [exact Ebody | constructor; assumption].
  - destruct (N.eqb_spec (code c) 45) as [Hm|Hm].
    + apply eq_of_code in Hm. subst c.
      exists ("-"%char :: i ++ f ++ e).
      split; [cbn [app]; f_equal; exact Ebody | apply number_minus; assumption].
    + exists (i ++ f ++ e). split; [exact Ebody | constructor; assumption].
Qed.

Lemma of_option_Accepted o rest : of_option o = Accepted rest -> o = Some rest.
Proof. destruct o; cbn; congruence. Qed.

Ltac reassoc := repeat (rewrite <- ?app_assoc; cbn [app]); reflexivity.

Ltac literal H :=
  repeat match type of H with
         | context [match ?x with _ => _ end] => destruct x; try discriminate H
         end.

Lemma accept_value_sound fuel :
  (forall cs rest, accept_value fuel cs = Accepted rest ->
     exists w v, cs = w ++ v ++ rest /\ blank w /\ json_value v) /\
  (forall cs rest, accept_elements fuel cs = Accepted rest ->
     exists l, cs = l ++ "]"%char :: rest /\ json_elements l) /\
  (forall cs rest, accept_members fuel cs = Accepted rest ->
     exists l, cs = l ++ "}"%char :: rest /\ json_members l).
Proof.
  induction fuel as [|fuel (IHv & IHe & IHm)]; [repeat split; discriminate|].
  repeat split.
  - intros cs rest H. cbn [accept_value] in H.
    destruct (skip_ws_split cs) as (w & E & Hw).
    destruct (skip_ws cs) as [|c r]; [discriminate|].
    cbv zeta in H.
    destruct (N.eqb_spec (code c) 110) as [Hc|_].
    { apply eq_of_code in Hc. subst c. literal H. injection H as ->.
      exists w, ["n"; "u"; "l"; "l"]%char. repeat split; [exact E | exact Hw | constructor]. }
    destruct (N.eqb_spec (code c) 116) as [Hc|_].
    { apply eq_of_code in Hc. subst c. literal H. injection H as ->.
      exists w, ["t"; "r"; "u"; "e"]%char. repeat split; [exact E | exact Hw | constructor]. }
    destruct (N.eqb_spec (code c) 102) as [Hc|_].
    { apply eq_of_code in Hc. subst c. literal H. injection H as ->.
      exists w, ["f"; "a"; "l"; "s"; "e"]%char.
      repeat split; [exact E | exact Hw | constructor]. }
    destruct (N.eqb_spec (code c) 34) as [Hc|_].
    { apply eq_of_code in Hc. subst c.
      apply of_option_Accepted, accept_chars_sound in H as (body & Eb & Hb).
      exists w, (dquote :: body ++ [dquote]).
      repeat split; [|exact Hw | constructor; exact Hb].
      rewrite E, Eb. reassoc. }
    destruct (N.eqb_spec (code c) 91) as [Hc|_].
    { apply eq_of_code in Hc. subst c.
      destruct (skip_ws_split r) as (w' & E' & Hw').
      destruct (skip_ws r) as [|c' r']; [discriminate|].
      destruct (N.eqb_spec (code c') 93) as [Hc'|_].
      - apply eq_of_code in Hc'. subst c'. injection H as ->.
        exists w, ("["%char :: w' ++ ["]"%char]).
        repeat split; [|exact Hw | constructor; exact Hw'].
        rewrite E, E'. reassoc.
      - apply IHe in H as (l & El & Hl).
        exists w, ("["%char :: l ++ ["]"%char]).
        repeat split; [|exact Hw | apply value_array; exact Hl].
        rewrite E, El. reassoc. }
    destruct (N.eqb_spec (code c) 123) as [Hc|_].
    { apply eq_of_code in Hc. subst c.
      destruct (skip_ws_split r) as (w' & E' & Hw').
      destruct (skip_ws r) as [|c' r']; [discriminate|].
      destruct (N.eqb_spec (code c') 125) as [Hc'|_].
      - apply eq_of_code in Hc'. subst c'. injection H as ->.
        exists w, ("{"%char :: w' ++ ["}"%char]).
        repeat split; [|exact Hw | apply value_empty_object; exact Hw'].
        rewrite E, E'. reassoc.
      - apply IHm in H as (l & El & Hl).
        exists w, ("{"%char :: l ++ ["}"%char]).
        repeat split; [|exact Hw | apply value_object; exact Hl].
        rewrite E, El. reassoc. }
    apply of_option_Accepted, accept_number_sound in H as (l & El & Hl).
    exists w, l. repeat split; [|exact Hw | apply value_number; exact Hl].
    rewrite E, El. reflexivity.
  - intros cs rest H. cbn [accept_elements] in H.
    destruct (accept_value fuel cs) as [r| |] eqn:Hv; try discriminate.
    apply IHv in Hv as (w & v & E & Hw & Hv).
    destruct (skip_ws_split r) as (w2 & E2 & Hw2).
    destruct (skip_ws r) as [|c r']; [discriminate|].
    destruct (N.eqb_spec (code c) 44) as [Hc|_].
    { apply eq_of_code in Hc. subst c.
      apply IHe in H as (l & El & Hl).
      exists (w ++ v ++ w2 ++ ","%char :: l).
      split; [|constructor; assumption].
      rewrite E, E2, El. reassoc. }
    destruct (N.eqb_spec (code c) 93) as [Hc|_]; [|discriminate].
    apply eq_of_code in Hc. subst c. injection H as ->.
    exists (w ++ v ++ w2). split; [|constructor; assumption].
    rewrite E, E2. reassoc.
  - intros cs rest H. cbn [accept_members] in H.
    destruct (skip_ws_split cs) as (w1 & E1 & Hw1).
    destruct (skip_ws cs) as [|q r]; [discriminate|].
    destruct (N.eqb_spec (code q) 34) as [Hq|_]; [|discriminate].
    apply eq_of_code in Hq. subst q.
    destruct (accept_chars r) as [r1|] eqn:Hk; [|discriminate].
    apply accept_chars_sound in Hk as (k & Ek & Hk).
    destruct (skip_ws_split r1) as (w2 & E2 & Hw2).
    destruct (skip_ws r1) as [|c r2]; [discriminate|].
    destruct (N.eqb_spec (code c) 58) as [Hc|_]; [|discriminate].
    apply eq_of_code in Hc. subst c.
    destruct (accept_value fuel r2) as [r3| |] eqn:Hv; try discriminate.
    apply IHv in Hv as (w3 & v & E3 & Hw3 & Hv).
    destruct (skip_ws_split r3) as (w4 & E4 & Hw4).
    destruct (skip_ws r3) as [|c' r4]; [discriminate|].
    destruct (N.eqb_spec (code c') 44) as [Hc'|_].
    { apply eq_of_code in Hc'. subst c'.
      apply IHm in H as (l & El & Hl).
      exists (w1 ++ dquote :: k ++ dquote :: w2 ++ ":"%char :: w3 ++ v ++ w4 ++ ","%char :: l).
      split; [|constructor; assumption].
      rewrite E1, Ek, E2, E3, E4, El. reassoc. }
    destruct (N.eqb_spec (code c') 125) as [Hc'|_]; [|discriminate].
    apply eq_of_code in Hc'. subst c'. injection H as ->.
    exists (w1 ++ dquote :: k ++ dquote :: w2 ++ ":"%char :: w3 ++ v ++ w4).
    split; [|constructor; assumption].
    rewrite E1, Ek, E2, E3, E4. reassoc.
Qed.


Lemma json_value_nonempty v : json_value v -> v <> [].
Proof.
  destruct 1 as [| | | | l Hl | | | |]; try discriminate.
  destruct Hl as [i f e Hi _ _|]; [|discriminate].
  destruct Hi; discriminate.
Qed.

Lemma accept_value_shorter fuel cs rest :
  accept_value fuel cs = Accepted rest ->
  (List.length rest < List.length cs)%nat.
Proof.
  intros H. apply (proj1 (accept_value_sound fuel)) in H as (w & v & E & _ & Hv).
  apply json_value_nonempty in Hv. rewrite E, !length_app.
  destruct v; [congruence | cbn [List.length]; lia].
Qed.

Lemma skip_ws_cons cs c r :
  skip_ws cs = c :: r -> (S (List.length r) <= List.length cs)%nat.
Proof. intros H. pose proof (skip_ws_length cs) as L. rewrite H in L. exact L. Qed.

(** *** The fuel of [JSON_parse] is never used up *)

Lemma accept_value_fuel fuel :
  (forall cs, (2 * List.length cs < fuel)%nat -> accept_value fuel cs <> Exhausted) /\
  (forall cs, (2 * List.length cs + 1 < fuel)%nat ->
     accept_elements fuel cs <> Exhausted) /\
  (forall cs, (2 * List.length cs + 1 < fuel)%nat ->
     accept_members fuel cs <> Exhausted).
Proof.
  induction fuel as [|fuel (IHv & IHe & IHm)]; [repeat split; intros; lia|].
  repeat split.
  - intros cs Hf. cbn [accept_value].
    destruct (skip_ws cs) as [|c r] eqn:Ecs; [discriminate|].
    apply skip_ws_cons in Ecs. cbv zeta.
    destruct (code c =? 110)%N.
    { intros H; literal H. }
    destruct (code c =? 116)%N.
    { intros H; literal H. }
    destruct (code c =? 102)%N.
    { intros H; literal H. }
    destruct (code c =? 34)%N.
    { destruct (accept_chars r); discriminate. }
    destruct (code c =? 91)%N.
    { destruct (skip_ws r) as [|c' r']; [discriminate|].
      destruct (code c' =? 93)%N; [discriminate | apply IHe; lia]. }
    destruct (code c =? 123)%N.
    { destruct (skip_ws r) as [|c' r']; [discriminate|].
      destruct (code c' =? 125)%N; [discriminate | apply IHm; lia]. }
    destruct (accept_number (c :: r)); discriminate.
  - intros cs Hf. cbn [accept_elements].
    destruct (accept_value fuel cs) as [r| |] eqn:Hv; [|discriminate|].
    + apply accept_value_shorter in Hv.
      destruct (skip_ws r) as [|c r'] eqn:Er; [discriminate|].
      apply skip_ws_cons in Er.
      destruct (code c =? 44)%N; [apply IHe; lia|].
      destruct (code c =? 93)%N; discriminate.
    + exfalso. revert Hv. apply IHv. lia.
  - intros cs Hf. cbn [accept_members].
    destruct (skip_ws cs) as [|q r] eqn:Ecs; [discriminate|].
    apply skip_ws_cons in Ecs.
    destruct (code q =? 34)%N; [|discriminate].
    destruct (accept_chars r) as [r1|] eqn:Hk; [|discriminate].
    apply accept_chars_sound in Hk as (k & Ek & _).
    assert (L1 : (List.length r1 < List.length r)%nat).
    { rewrite Ek, length_app. cbn [List.length]. lia. }
    destruct (skip_ws r1) as [|c r2] eqn:Er1; [discriminate|].
    apply skip_ws_cons in Er1.
    destruct (code c =? 58)%N; [|discriminate].
    destruct (accept_value fuel r2) as [r3| |] eqn:Hv; [|discriminate|].
    + apply accept_value_shorter in Hv.
      destruct (skip_ws r3) as [|c' r4] eqn:Er3; [discriminate|].
      apply skip_ws_cons in Er3.
      destruct (code c' =? 44)%N; [apply IHm; lia|].
      destruct (code c' =? 125)%N; discriminate.
    + exfalso. revert Hv. apply IHv. lia.
Qed.

(** *** What [parse_value] reads, the recognizer accepts *)

Lemma rmap_Ok {A B : Type} (f : A -> B) (r : result A) b rest :
  rmap f r = Ok b rest -> exists a, r = Ok a rest.
Proof. destruct r as [a rest'|e]; cbn [rmap]; [|discriminate]. intros [= _ ->]. eauto. Qed.

Lemma hex4_is_hex a b c d u :
  hex4 a b c d = Some u ->
  is_hex a && is_hex b && is_hex c && is_hex d = true.
Proof.
  unfold hex4, is_hex.
  destruct (hex_value a), (hex_value b), (hex_value c), (hex_value d);
    try discriminate; reflexivity.
Qed.

Lemma parse_chars_accept cs : forall s rest,
  parse_chars cs = Ok s rest -> accept_chars cs = Some rest.
Proof.
  remember (List.length cs) as n eqn:Hn. revert cs Hn.
  induction n as [n IH] using lt_wf_ind. intros cs Hn s rest H. subst n.
  assert (IH' : forall cs' s', (List.length cs' < List.length cs)%nat ->
                  parse_chars cs' = Ok s' rest -> accept_chars cs' = Some rest).
  { intros cs' s' L H'. eapply IH; [exact L | reflexivity | exact H']. }
  clear IH.
  destruct cs as [|c cs]; [discriminate|]. cbn [parse_chars accept_chars] in *.
  destruct (code c =? 34)%N; [congruence|].
  destruct (code c =? 92)%N.
  - destruct cs as [|e cs]; [discriminate|].
    cbv zeta in H. unfold simple_escape. cbv zeta.
    do 8 (match type of H with
          | (if (code e =? ?k)%N then _ else _) = _ =>
              destruct (code e =? k)%N;
              [cbn [orb]; apply rmap_Ok in H as (s' & H);
               apply (IH' cs s'); [cbn [List.length]; lia | exact H]|]
          end).
    cbn [orb].
    destruct (code e =? 117)%N; [|discriminate].
    destruct cs as [|h1 [|h2 [|h3 [|h4 cs]]]]; try discriminate.
    destruct (hex4 h1 h2 h3 h4) as [u|] eqn:Hu; [|discriminate].
    rewrite (hex4_is_hex _ _ _ _ _ Hu).
    destruct (u <? 128)%N; [|discriminate].
    apply rmap_Ok in H as (s' & H).
    apply (IH' cs s'); [cbn [List.length]; lia | exact H].
  - destruct (code c <? 32)%N; [discriminate|].
    apply rmap_Ok in H as (s' & H).
    apply (IH' cs s'); [cbn [List.length]; lia | exact H].
Qed.

Lemma lex_uint_rest cs : snd (lex_uint cs) = skip_digits cs.
Proof.
  induction cs as [|c cs IH]; [reflexivity|].
  cbn [lex_uint skip_digits]. unfold is_digit.
  destruct (digit_cons c); [|reflexivity].
  destruct (lex_uint cs). exact IH.
Qed.

Lemma lex_uint_Nil cs rest : lex_uint cs = (Nil, rest) -> rest = cs.
Proof.
  destruct cs as [|c cs]; cbn [lex_uint]; [congruence|].
  destruct (digit_cons c) as [D|] eqn:Hc; [|congruence].
  destruct (lex_uint cs). intros [= HD _].
  unfold digit_cons in Hc. cbv zeta in Hc.
  repeat match type of Hc with
         | context [if ?b then _ else _] => destruct b
         end; try discriminate; injection Hc as <-; discriminate.
Qed.

Lemma number_of_Ok neg d rest z rest' :
  number_of neg d rest = Ok z rest' ->
  rest' = rest /\ starts_fraction rest = false /\
  match d with
  | Nil => False
  | D0 d' => d' = Nil
  | _ => True
  end.
Proof.
  unfold number_of. intros H.
  assert (G : (if starts_fraction rest then Err Unsupported
               else let m := Z.of_N (N.of_uint d) in
                    if MAX_SAFE_INTEGER <? m then Err Unsupported
                    else if neg then (if m =? 0 then Err Unsupported else Ok (- m) rest)
                    else Ok m rest) = Ok z rest' ->
              rest' = rest /\ starts_fraction rest = false).
  { destruct (starts_fraction rest); [discriminate|]. cbv zeta.
    destruct (MAX_SAFE_INTEGER <? _); [discriminate|].
    destruct neg; [destruct (_ =? 0); [discriminate|]|]; intros [= _ <-]; auto. }
  destruct d as [|d|d|d|d|d|d|d|d|d|d]; try discriminate;
    try (destruct (G H) as [-> ->]; repeat split; exact I).
  destruct d; try discriminate. destruct (G H) as [-> ->]. repeat split.
Qed.

Lemma starts_fraction_accept rest :
  starts_fraction rest = false ->
  accept_frac rest = Some rest /\ accept_exp rest = Some rest.
Proof.
  destruct rest as [|c rest]; [split; reflexivity|].
  cbn [starts_fraction accept_frac accept_exp]. cbv zeta. intros H.
  apply orb_false_elim in H as [H He2]. apply orb_false_elim in H as [Hp He1].
  rewrite Hp, He1, He2. split; reflexivity.
Qed.

Lemma lex_uint_accept body d rest z rest' neg :
  lex_uint body = (d, rest) -> number_of neg d rest = Ok z rest' ->
  accept_int body = Some rest'.
Proof.
  intros Hlex Hnum. apply number_of_Ok in Hnum as (-> & _ & Hd).
  destruct body as [|c body]; [cbn in Hlex; injection Hlex as <- _; contradiction|].
  pose proof (lex_uint_rest (c :: body)) as Hrest. rewrite Hlex in Hrest.
  cbn [snd skip_digits] in Hrest. unfold is_digit in Hrest.
  cbn [lex_uint] in Hlex. cbn [accept_int]. unfold is_digit.
  destruct (digit_cons c) as [D|] eqn:Hc;
    [|injection Hlex as <- _; contradiction].
  destruct (lex_uint body) as [d' rest0] eqn:Hbody. injection Hlex as <- ->.
  destruct (code c =? 48)%N eqn:Hz.
  - unfold digit_cons in Hc. cbv zeta in Hc. rewrite Hz in Hc. injection Hc as <-.
    subst d'. apply lex_uint_Nil in Hbody. congruence.
  - rewrite Hrest. reflexivity.
Qed.

Lemma parse_number_accept cs z rest :
  parse_number cs = Ok z rest -> accept_number cs = Some rest.
Proof.
  destruct cs as [|c cs]; [discriminate|].
  unfold parse_number, accept_number.
  destruct (code c =? 45)%N.
  - destruct (lex_uint cs) as [d r] eqn:Hlex. intros H.
    rewrite (lex_uint_accept _ _ _ _ _ _ Hlex H).
    apply number_of_Ok in H as (-> & Hf & _).
    destruct (starts_fraction_accept _ Hf) as [-> ->]. reflexivity.
  - destruct (lex_uint (c :: cs)) as [d r] eqn:Hlex. intros H.
    rewrite (lex_uint_accept _ _ _ _ _ _ Hlex H).
    apply number_of_Ok in H as (-> & Hf & _).
    destruct (starts_fraction_accept _ Hf) as [-> ->]. reflexivity.
Qed.

Lemma parse_value_accept fuel :
  (forall cs v rest, parse_value fuel cs = Ok v rest ->
     accept_value fuel cs = Accepted rest) /\
  (forall cs vs rest, parse_elements fuel cs = Ok vs rest ->
     accept_elements fuel cs = Accepted rest) /\
  (forall cs ms rest, parse_members fuel cs = Ok ms rest ->
     accept_members fuel cs = Accepted rest).
Proof.
  induction fuel as [|fuel (IHv & IHe & IHm)]; [repeat split; discriminate|].
  repeat split.
  - intros cs v rest H. cbn [parse_value accept_value] in *.
    destruct (skip_ws cs) as [|c r]; [discriminate|]. cbv zeta in *.
    destruct (code c =? 110)%N.
    { literal H. injection H as _ ->. reflexivity. }
    destruct (code c =? 116)%N.
    { literal H. injection H as _ ->. reflexivity. }
    destruct (code c =? 102)%N.
    { literal H. injection H as _ ->. reflexivity. }
    destruct (code c =? 34)%N.
    { apply rmap_Ok in H as (s & H).
      rewrite (parse_chars_accept _ _ _ H). reflexivity. }
    destruct (code c =? 91)%N.
    { destruct (skip_ws r) as [|c' r']; [discriminate|].
      destruct (code c' =? 93)%N; [congruence|].
      apply rmap_Ok in H as (vs & H). eapply IHe, H. }
    destruct (code c =? 123)%N.
    { destruct (skip_ws r) as [|c' r']; [discriminate|].
      destruct (code c' =? 125)%N; [congruence|].
      apply rmap_Ok in H as (ms & H). eapply IHm, H. }
    apply rmap_Ok in H as (z & H).
    rewrite (parse_number_accept _ _ _ H). reflexivity.
  - intros cs vs rest H. cbn [parse_elements accept_elements] in *.
    destruct (parse_value fuel cs) as [v r|] eqn:Hv; [|discriminate].
    rewrite (IHv _ _ _ Hv).
    destruct (skip_ws r) as [|c r']; [discriminate|].
    destruct (code c =? 44)%N.
    { apply rmap_Ok in H as (vs' & H). eapply IHe, H. }
    destruct (code c =? 93)%N; congruence.
  - intros cs ms rest H. cbn [parse_members accept_members] in *.
    destruct (skip_ws cs) as [|q r]; [discriminate|].
    destruct (code q =? 34)%N; [|discriminate].
    destruct (parse_chars r) as [k r1|] eqn:Hk; [|discriminate].
    rewrite (parse_chars_accept _ _ _ Hk).
    destruct (index_like k); [discriminate|].
    destruct (skip_ws r1) as [|c r2]; [discriminate|].
    destruct (code c =? 58)%N; [|discriminate].
    destruct (parse_value fuel r2) as [v r3|] eqn:Hv; [|discriminate].
    rewrite (IHv _ _ _ Hv).
    destruct (skip_ws r3) as [|c' r4]; [discriminate|].
    destruct (code c' =? 44)%N.
    { apply rmap_Ok in H as (ms' & H). eapply IHm, H. }
    destruct (code c' =? 125)%N; congruence.
Qed.

(** *** [JSON_parse] and the grammar *)

Lemma accepted_text fuel cs rest :
  accept_value fuel cs = Accepted rest -> skip_ws rest = [] -> json_text cs.
Proof.
  intros H Hrest. apply (proj1 (accept_value_sound fuel)) in H as (w & v & E & Hw & Hv).
  exists w, v, rest. repeat split; [exact E | exact Hw | exact Hv|].
  apply skip_ws_blank, Hrest.
Qed.

(** A text outside the grammar makes [JSON.parse] throw. *)
Lemma JSON_parse_not_json s :
  ~ json_text (list_ascii_of_string s) -> JSON_parse s = Throws.
Proof.
  intros Hno. unfold JSON_parse. cbv zeta.
  destruct (accept_value _ _) as [rest| |] eqn:Ha; [|reflexivity|].
  - destruct (skip_ws rest) eqn:Hrest; [|reflexivity].
    exfalso. apply Hno. eapply accepted_text; eassumption.
  - exfalso. revert Ha. apply accept_value_fuel. lia.
Qed.

(** What [JSON.parse] returns, it read from a text of the grammar. *)
Lemma JSON_parse_value s v :
  JSON_parse s = Value v -> json_text (list_ascii_of_string s).
Proof.
  unfold JSON_parse. cbv zeta.
  destruct (accept_value _ _) as [rest| |] eqn:Ha; try discriminate.
  destruct (skip_ws rest) eqn:Hrest; [|discriminate].
  intros _. eapply accepted_text; eassumption.
Qed.

(** *** The recognizer accepts every text of the grammar *)

Lemma skip_ws_blank_app w cs : blank w -> skip_ws (w ++ cs) = skip_ws cs.
Proof.
  induction 1 as [|c w Hc _ IH]; [reflexivity|].
  cbn [app skip_ws]. rewrite Hc. exact IH.
Qed.

Lemma accept_value_blank fuel w cs :
  blank w -> accept_value fuel (w ++ cs) = accept_value fuel cs.
Proof.
  intros Hw. destruct fuel as [|fuel]; [reflexivity|].
  cbn [accept_value]. rewrite skip_ws_blank_app by exact Hw. reflexivity.
Qed.

Lemma accept_chars_complete body rest :
  json_chars body -> accept_chars (body ++ dquote :: rest) = Some rest.
Proof.
  induction 1 as [|c l Hq Hb Hc _ IH|e l He _ IH|h1 h2 h3 h4 l H1 H2 H3 H4 _ IH].
  - reflexivity.
  - cbn [app accept_chars].
    apply N.eqb_neq in Hq, Hb. apply N.ltb_ge in Hc. rewrite Hq, Hb, Hc. exact IH.
  - change (accept_chars ((bslash :: e :: l) ++ dquote :: rest))
      with (if simple_escape e then accept_chars (l ++ dquote :: rest)
            else if (code e =? 117)%N then
              match l ++ dquote :: rest with
              | h1 :: h2 :: h3 :: h4 :: cs3 =>
                  if is_hex h1 && is_hex h2 && is_hex h3 && is_hex h4
                  then accept_chars cs3
                  else None
              | _ => None
              end
            else None).
    rewrite He. exact IH.
  - change (accept_chars ((bslash :: "u"%char :: h1 :: h2 :: h3 :: h4 :: l)
                          ++ dquote :: rest))
      with (if is_hex h1 && is_hex h2 && is_hex h3 && is_hex h4
            then accept_chars (l ++ dquote :: rest)
            else None).
    rewrite H1, H2, H3, H4. exact IH.
Qed.

Lemma skip_digits_run l r :
  List.Forall (fun c => is_digit c = true) l -> skip_digits r = r ->
  skip_digits (l ++ r) = r.
Proof.
  intros Hl Hr. induction Hl as [|c l Hc _ IH]; [exact Hr|].
  cbn [app skip_digits]. rewrite Hc. exact IH.
Qed.

Lemma skip_digits_head c r : is_digit c = false -> skip_digits (c :: r) = c :: r.
Proof. intros H. cbn [skip_digits]. rewrite H. reflexivity. Qed.

Lemma is_digit_range c : is_digit c = true -> (48 <= code c <= 57)%N.
Proof.
  unfold is_digit, digit_cons. cbv zeta.
  repeat match goal with
         | |- context [(code c =? ?k)%N] => destruct (N.eqb_spec (code c) k); [lia|]
         end.
  discriminate.
Qed.

Lemma not_digit c : ~ (48 <= code c <= 57)%N -> is_digit c = false.
Proof.
  intros H. destruct (is_digit c) eqn:E; [|reflexivity].
  apply is_digit_range in E. contradiction.
Qed.

Lemma accept_digits_complete l r :
  digits l -> skip_digits r = r -> accept_digits (l ++ r) = Some r.
Proof.
  intros [Hne Hl] Hr. destruct Hl as [|c l Hc Hl]; [congruence|].
  cbn [app accept_digits]. rewrite Hc, (skip_digits_run l r Hl Hr). reflexivity.
Qed.

Lemma accept_int_complete i r :
  json_int i -> skip_digits r = r -> accept_int (i ++ r) = Some r.
Proof.
  intros [|c l Hc Hz Hl] Hr; [reflexivity|].
  cbn [app accept_int]. apply N.eqb_neq in Hz.
  rewrite Hz, Hc, (skip_digits_run l r Hl Hr). reflexivity.
Qed.

Lemma accept_frac_complete f r :
  json_frac f -> skip_digits r = r -> accept_frac r = Some r ->
  accept_frac (f ++ r) = Some r.
Proof.
  intros [|l Hl] Hr Hf; [exact Hf|].
  change (accept_frac (("."%char :: l) ++ r)) with (accept_digits (l ++ r)).
  apply accept_digits_complete; assumption.
Qed.

Lemma digits_head l :
  digits l -> exists c tl, l = c :: tl /\ (48 <= code c <= 57)%N.
Proof.
  intros [Hne Hl]. destruct Hl as [|c l Hc _]; [congruence|].
  exists c, l. split; [reflexivity | apply is_digit_range, Hc].
Qed.

Lemma accept_exp_complete e r :
  json_exp e -> skip_digits r = r -> accept_exp r = Some r ->
  accept_exp (e ++ r) = Some r.
Proof.
  intros [|c l Hc Hl|c s l Hc Hs Hl] Hr He; [exact He| |].
  - destruct (digits_head l Hl) as (d & tl & -> & Hd).
    cbn [app accept_exp].
    replace ((code c =? 101)%N || (code c =? 69)%N) with true
      by (destruct Hc as [-> | ->]; reflexivity).
    replace ((code d =? 43)%N || (code d =? 45)%N) with false
      by (symmetry; apply orb_false_intro; apply N.eqb_neq; lia).
    apply (accept_digits_complete (d :: tl) r Hl Hr).
  - cbn [app accept_exp].
    replace ((code c =? 101)%N || (code c =? 69)%N) with true
      by (destruct Hc as [-> | ->]; reflexivity).
    replace ((code s =? 43)%N || (code s =? 45)%N) with true
      by (destruct Hs as [-> | ->]; reflexivity).
    apply accept_digits_complete; assumption.
Qed.

(** What may follow a number: [delim], in the recognizer's terms. *)
Lemma delim_accept rest :
  delim rest ->
  skip_digits rest = rest /\ accept_frac rest = Some rest /\
  accept_exp rest = Some rest.
Proof.
  destruct rest as [|c rest]; [repeat split|].
  intros [Hd Hf]. split; [|apply starts_fraction_accept, Hf].
  apply skip_digits_head. unfold is_digit. rewrite Hd. reflexivity.
Qed.

Lemma json_exp_follows e rest :
  json_exp e -> delim rest ->
  skip_digits (e ++ rest) = e ++ rest /\
  accept_frac (e ++ rest) = Some (e ++ rest).
Proof.
  intros He Hrest. destruct (delim_accept rest Hrest) as (Hd & Hf & _).
  assert (G : forall c tl, code c = 101%N \/ code c = 69%N ->
              skip_digits (c :: tl) = c :: tl /\ accept_frac (c :: tl) = Some (c :: tl)).
  { intros c tl Hc. split.
    - apply skip_digits_head, not_digit. lia.
    - cbn [accept_frac].
      replace (code c =? 46)%N with false by (symmetry; apply N.eqb_neq; lia).
      reflexivity. }
  destruct He as [|c l Hc _|c s l Hc _ _]; [auto | apply G, Hc | apply G, Hc].
Qed.

Lemma json_frac_follows f r :
  json_frac f -> skip_digits r = r -> skip_digits (f ++ r) = f ++ r.
Proof.
  intros [|l _] Hr; [exact Hr|]. apply skip_digits_head. reflexivity.
Qed.

Lemma accept_number_complete l rest :
  json_number l -> delim rest -> accept_number (l ++ rest) = Some rest.
Proof.
  intros Hl Hrest.
  destruct (delim_accept rest Hrest) as (Hd & _ & Hx).
  assert (G : forall i f e, json_int i -> json_frac f -> json_exp e ->
              match accept_int ((i ++ f ++ e) ++ rest) with
              | Some r1 => match accept_frac r1 with
                           | Some r2 => accept_exp r2
                           | None => None
                           end
              | None => None
              end = Some rest).
  { intros i f e Hi Hf He.
    destruct (json_exp_follows e rest He Hrest) as (Hed & Hef).
    rewrite <- !app_assoc.
    rewrite (accept_int_complete i _ Hi (json_frac_follows f _ Hf Hed)).
    rewrite (accept_frac_complete f _ Hf Hed Hef).
    apply accept_exp_complete; assumption. }
  destruct Hl as [i f e Hi Hf He|i f e Hi Hf He].
  - unfold accept_number.
    assert (Hhead : exists c tl, i = c :: tl /\ code c <> 45%N).
    { destruct Hi as [|c tl Hc _ _]; eexists _, _; (split; [reflexivity|]).
      - discriminate.
      - apply is_digit_range in Hc. lia. }
    destruct Hhead as (c & tl & Ei & Hc).
    specialize (G i f e Hi Hf He). rewrite Ei in *. cbn [app] in *.
    replace (code c =? 45)%N with false by (symmetry; apply N.eqb_neq; exact Hc).
    exact G.
  - exact (G i f e Hi Hf He).
Qed.

Lemma json_number_head l :
  json_number l -> exists c tl, l = c :: tl /\ number_start c.
Proof.
  assert (G : forall i, json_int i -> exists c tl, i = c :: tl /\ number_start c).
  { intros i [|c tl Hc _ _]; eexists _, _; (split; [reflexivity|]); right.
    - vm_compute. split; discriminate.
    - apply is_digit_range, Hc. }
  intros [i f e Hi _ _|i f e _ _ _].
  - destruct (G i Hi) as (c & tl & -> & Hc). exists c, (tl ++ f ++ e). auto.
  - eexists _, _. split; [reflexivity | left; reflexivity].
Qed.

Lemma accept_value_number fuel c r :
  number_start c ->
  accept_value (S fuel) (c :: r) = of_option (accept_number (c :: r)).
Proof.
  unfold number_start.
  destruct c as [[] [] [] [] [] [] [] []]; vm_compute code; intros H;
    try (exfalso; lia); reflexivity.
Qed.

(** A value starts with a character that is neither whitespace nor a
    closing bracket. *)
Lemma json_value_head v :
  json_value v ->
  exists c tl, v = c :: tl /\
               is_ws c = false /\ code c <> 93%N /\ code c <> 125%N.
Proof.
  destruct 1 as [| | | | l Hl | | | |];
    try (eexists _, _; split; [reflexivity | vm_compute; repeat split; congruence]).
  destruct (json_number_head l Hl) as (c & tl & -> & Hc).
  exists c, tl. split; [reflexivity | apply number_start_plain, Hc].
Qed.

Lemma is_ws_delim c rest : is_ws c = true -> delim (c :: rest).
Proof.
  destruct c as [[] [] [] [] [] [] [] []]; try discriminate; intros _; split; reflexivity.
Qed.

Lemma delim_blank w c rest :
  blank w -> delim (c :: rest) -> delim (w ++ c :: rest).
Proof.
  intros [|d w' Hd _] Hc; [exact Hc|]. cbn [app]. apply is_ws_delim, Hd.
Qed.

Lemma blank_delim w : blank w -> delim w.
Proof. intros [|d w' Hd _]; [exact I | apply is_ws_delim, Hd]. Qed.

Lemma accept_value_string fuel r :
  accept_value (S fuel) (dquote :: r) = of_option (accept_chars r).
Proof. reflexivity. Qed.

Lemma accept_value_array fuel r :
  accept_value (S fuel) ("["%char :: r) =
  match skip_ws r with
  | [] => Refused
  | c' :: r' => if (code c' =? 93)%N then Accepted r' else accept_elements fuel r
  end.
Proof. reflexivity. Qed.

Lemma accept_value_object fuel r :
  accept_value (S fuel) ("{"%char :: r) =
  match skip_ws r with
  | [] => Refused
  | c' :: r' => if (code c' =? 125)%N then Accepted r' else accept_members fuel r
  end.
Proof. reflexivity. Qed.

Lemma accept_elements_S fuel cs :
  accept_elements (S fuel) cs =
  match accept_value fuel cs with
  | Accepted r =>
      match skip_ws r with
      | [] => Refused
      | c :: r' =>
          if (code c =? 44)%N then accept_elements fuel r'
          else if (code c =? 93)%N then Accepted r'
          else Refused
      end
  | Refused => Refused
  | Exhausted => Exhausted
  end.
Proof. reflexivity. Qed.

Lemma accept_members_S fuel r :
  accept_members (S fuel) (dquote :: r) =
  match accept_chars r with
  | None => Refused
  | Some r1 =>
      match skip_ws r1 with
      | [] => Refused
      | c :: r2 =>
          if (code c =? 58)%N then
            match accept_value fuel r2 with
            | Accepted r3 =>
                match skip_ws r3 with
                | [] => Refused
                | c' :: r4 =>
                    if (code c' =? 44)%N then accept_members fuel r4
                    else if (code c' =? 125)%N then Accepted r4
                    else Refused
                end
            | Refused => Refused
            | Exhausted => Exhausted
            end
          else Refused
      end
  end.
Proof. reflexivity. Qed.

Lemma accept_members_blank fuel w cs :
  blank w -> accept_members fuel (w ++ cs) = accept_members fuel cs.
Proof.
  intros Hw. destruct fuel as [|fuel]; [reflexivity|].
  cbn [accept_members]. rewrite skip_ws_blank_app by exact Hw. reflexivity.
Qed.

Lemma skip_ws_then w c rest :
  blank w -> is_ws c = false -> skip_ws (w ++ c :: rest) = c :: rest.
Proof.
  intros Hw Hc. rewrite skip_ws_blank_app by exact Hw. apply skip_ws_head, Hc.
Qed.

Lemma accept_value_complete fuel :
  (forall v rest, json_value v -> delim rest ->
     (2 * List.length v < fuel)%nat ->
     accept_value fuel (v ++ rest) = Accepted rest) /\
  (forall l rest, json_elements l ->
     (2 * List.length l + 1 < fuel)%nat ->
     accept_elements fuel (l ++ "]"%char :: rest) = Accepted rest) /\
  (forall l rest, json_members l ->
     (2 * List.length l + 1 < fuel)%nat ->
     accept_members fuel (l ++ "}"%char :: rest) = Accepted rest).
Proof.
  induction fuel as [|fuel (IHv & IHe & IHm)]; [repeat split; intros; lia|].
  repeat split.
  - intros v rest Hv Hrest Hf.
    destruct Hv as [| | |body Hb|l Hl|w Hw|l Hl|w Hw|l Hl].
    + reflexivity.
    + reflexivity.
    + reflexivity.
    + cbn [app]. rewrite <- app_assoc. rewrite accept_value_string.
      cbn [app]. rewrite accept_chars_complete by exact Hb. reflexivity.
    + destruct (json_number_head l Hl) as (c & tl & E & Hc).
      pose proof (accept_number_complete l rest Hl Hrest) as Hn.
      rewrite E in *. cbn [app] in *.
      rewrite accept_value_number by exact Hc. rewrite Hn. reflexivity.
    + cbn [app]. rewrite <- app_assoc. rewrite accept_value_array.
      cbn [app]. rewrite skip_ws_then by (exact Hw || reflexivity). reflexivity.
    + assert (Hhead : exists w c tl, l = w ++ c :: tl /\ blank w /\
                                     is_ws c = false /\ code c <> 93%N).
      { destruct Hl as [w1 v w2 Hw1 Hv _|w1 v w2 l Hw1 Hv _ _];
          destruct (json_value_head v Hv) as (c & tl & -> & Hws & Hc & _);
          eexists w1, c, _; (split; [cbn [app]; reflexivity | auto]). }
      destruct Hhead as (w & c & tl & E & Hw & Hws & Hc).
      cbn [app]. rewrite <- app_assoc. rewrite accept_value_array. cbn [app].
      rewrite E at 1. rewrite <- app_assoc. cbn [app].
      rewrite skip_ws_then by assumption.
      replace (code c =? 93)%N with false by (symmetry; apply N.eqb_neq; exact Hc).
      apply IHe; [exact Hl|].
      cbn [List.length] in Hf. rewrite length_app in Hf. cbn [List.length] in Hf. lia.
    + cbn [app]. rewrite <- app_assoc. rewrite accept_value_object.
      cbn [app]. rewrite skip_ws_then by (exact Hw || reflexivity). reflexivity.
    + assert (Hhead : exists w tl, l = w ++ dquote :: tl /\ blank w).
      { destruct Hl as [w1 k w2 w3 v w4 Hw1 _ _ _ _ _|w1 k w2 w3 v w4 l Hw1 _ _ _ _ _ _];
          eexists w1, _; (split; [reflexivity | exact Hw1]). }
      destruct Hhead as (w & tl & E & Hw).
      cbn [app]. rewrite <- app_assoc. rewrite accept_value_object. cbn [app].
      rewrite E at 1. rewrite <- app_assoc. cbn [app].
      rewrite skip_ws_then by (exact Hw || reflexivity).
      change (code dquote =? 125)%N with false. cbv iota.
      apply IHm; [exact Hl|].
      cbn [List.length] in Hf. rewrite length_app in Hf. cbn [List.length] in Hf. lia.
  - intros l rest Hl Hf. rewrite accept_elements_S.
    destruct Hl as [w1 v w2 Hw1 Hv Hw2|w1 v w2 l Hw1 Hv Hw2 Hl];
      rewrite !length_app in Hf; cbn [List.length] in Hf;
      repeat (rewrite <- ?app_assoc; cbn [app]);
      rewrite accept_value_blank by exact Hw1.
    + rewrite (proj1 (conj IHv IHe));
        [| exact Hv | apply delim_blank; [exact Hw2 | apply delim_bracket] | lia].
      rewrite skip_ws_then by (exact Hw2 || reflexivity). reflexivity.
    + rewrite IHv;
        [| exact Hv | apply delim_blank; [exact Hw2 | apply delim_comma] | lia].
      rewrite skip_ws_then by (exact Hw2 || reflexivity).
      change (code "," =? 44)%N with true. cbv iota.
      apply IHe; [exact Hl | lia].
  - intros l rest Hl Hf.
    destruct Hl as [w1 k w2 w3 v w4 Hw1 Hk Hw2 Hw3 Hv Hw4
                   |w1 k w2 w3 v w4 l Hw1 Hk Hw2 Hw3 Hv Hw4 Hl];
      rewrite !length_app in Hf; cbn [List.length] in Hf;
      rewrite !length_app in Hf; cbn [List.length] in Hf;
      rewrite !length_app in Hf; cbn [List.length] in Hf;
      rewrite ?length_app in Hf; cbn [List.length] in Hf;
      repeat (rewrite <- ?app_assoc; cbn [app]);
      rewrite accept_members_blank by exact Hw1;
      rewrite accept_members_S, accept_chars_complete by exact Hk;
      rewrite skip_ws_then by (exact Hw2 || reflexivity);
      change (code ":" =? 58)%N with true; cbv iota;
      rewrite accept_value_blank by exact Hw3.
    + rewrite IHv;
        [| exact Hv | apply delim_blank; [exact Hw4 | apply delim_brace] | lia].
      rewrite skip_ws_then by (exact Hw4 || reflexivity). reflexivity.
    + rewrite IHv;
        [| exact Hv | apply delim_blank; [exact Hw4 | apply delim_comma] | lia].
      rewrite skip_ws_then by (exact Hw4 || reflexivity).
      change (code "," =? 44)%N with true. cbv iota.
      apply IHm; [exact Hl | lia].
Qed.

(** The recognizer decides the grammar: with the fuel of [JSON_parse]
    it accepts a text, up to trailing whitespace, exactly when the text
    is JSON. *)
Lemma json_text_accepted cs :
  json_text cs <->
  exists rest, accept_value (S (2 * List.length cs)) cs = Accepted rest /\
               skip_ws rest = [].
Proof.
  split.
  - intros (w1 & v & w2 & -> & Hw1 & Hv & Hw2). exists w2. split.
    + rewrite accept_value_blank by exact Hw1.
      apply accept_value_complete; [exact Hv | apply blank_delim, Hw2|].
      rewrite !length_app. lia.
    + rewrite <- (app_nil_r w2). rewrite skip_ws_blank_app by exact Hw2. reflexivity.
  - intros (rest & Ha & Hrest). eapply accepted_text; eassumption.
Qed.

(** [JSON.parse] throws on the texts outside the grammar, and on no
    other. *)
Lemma JSON_parse_throws s :
  JSON_parse s = Throws <-> ~ json_text (list_ascii_of_string s).
Proof.
  split; [|apply JSON_parse_not_json].
  intros Ht Hjson. apply json_text_accepted in Hjson as (rest & Ha & Hrest).
  unfold JSON_parse in Ht. cbv zeta in Ht. rewrite Ha, Hrest in Ht.
  destruct (parse_value _ _); discriminate.
Qed.


(** The third outcome is kept for texts of the grammar: JSON whose value
    [json] does not cover. *)
Lemma JSON_parse_out_of_model s :
  JSON_parse s = OutOfModel -> json_text (list_ascii_of_string s).
Proof.
  unfold JSON_parse. cbv zeta.
  destruct (accept_value _ _) as [rest| |] eqn:Ha; [|discriminate|].
  - destruct (skip_ws rest) eqn:Hrest; [|discriminate].
    intros _. eapply accepted_text; eassumption.
  - exfalso. revert Ha. apply accept_value_fuel. lia.
Qed.

(** Texts that break off early and numbers cut short are not JSON,
    wherever they break off; a complete fraction is JSON, though [json]
    has no value for it. *)
Lemma JSON_parse_samples :
  JSON_parse "[[[" = Throws /\ JSON_parse "1." = Throws /\
  JSON_parse "2e" = Throws /\ JSON_parse "[1.5, x" = Throws /\
  JSON_parse "1.5" = OutOfModel /\ JSON_parse "[1.5e3]" = OutOfModel /\
  JSON_parse " [ ] " = Value (JArr []).
Proof. vm_compute. repeat split. Qed.

(** Parsing what [JSON.stringify] wrote gives the value back. *)
Theorem JSON_parse_stringify v :
  json_wf v = true -> JSON_parse (JSON_stringify v) = Value v.
Proof.
  intros Hwf. unfold JSON_parse, JSON_stringify.
  rewrite list_ascii_of_string_of_list_ascii. cbv zeta.
  assert (Hp : parse_value (S (2 * List.length (print v))) (print v) = Ok v []).
  { pose proof (print_reads_back v Hwf (S (2 * List.length (print v))) []) as H.
    rewrite app_nil_r in H. apply H; [|exact I].
    pose proof (need_le_length v). lia. }
  rewrite (proj1 (parse_value_accept _) _ _ _ Hp). cbn [skip_ws].
  rewrite Hp. reflexivity.
Qed.

End JsonFacts.


(** ** The typed views invert the encoders *)

Module CodecFacts.
Import Json JsonFacts.

Lemma assoc_absent k fs :
  existsb (String.eqb k) (map fst fs) = false -> assoc k (present fs) = None.
Proof.
  induction fs as [|[k' [v|]] fs IH]; cbn [map existsb fst present assoc];
    [reflexivity| |]; intros H; apply orb_false_elim in H as [Hk Hfs];
    rewrite ?Hk; auto.
Qed.

(** Reading a property of a freshly built object reads its slot. *)
Lemma prop_object k fs :
  distinct (map fst fs) = true -> prop k (object fs) = slot k fs.
Proof.
  unfold object, prop.
  induction fs as [|[k' ov] fs IH]; cbn [map distinct fst]; [reflexivity|].
  intros H. apply andb_prop in H as [Hk' Hfs]. apply negb_true_iff in Hk'.
  destruct ov as [v|]; cbn [present slot assoc];
    destruct (String.eqb_spec k k') as [->|Hne]; auto.
  apply assoc_absent, Hk'.
Qed.

Lemma existsb_present k fs :
  existsb (String.eqb k) (map fst fs) = false ->
  existsb (String.eqb k) (map fst (present fs)) = false.
Proof.
  induction fs as [|[k' [v|]] fs IH]; cbn [map existsb fst present];
    [reflexivity| |]; intros H; apply orb_false_elim in H as [Hk Hfs];
    rewrite ?Hk; auto.
Qed.

Lemma json_wf_object fs :
  distinct (map fst fs) = true ->
  forallb (fun f : field => negb (index_like (fst f))) fs = true ->
  List.Forall (fun f : field => forall v, snd f = Some v -> json_wf v = true) fs ->
  json_wf (object fs) = true.
Proof.
  intros Hd Hi Hv. unfold object. cbn [json_wf]. apply andb_true_intro. split.
  - clear Hi Hv. induction fs as [|[k [v|]] fs IH]; [reflexivity| |];
      cbn [map distinct fst] in Hd; apply andb_prop in Hd as [Hk Hfs];
      apply negb_true_iff in Hk; cbn [present]; auto.
    cbn [map distinct fst]. rewrite existsb_present by exact Hk. cbn. auto.
  - clear Hd. induction Hv as [|[k [v|]] fs Hf _ IH]; [reflexivity| |];
      cbn [forallb fst] in Hi; apply andb_prop in Hi as [Hk Hfs];
      cbn [present]; auto.
    cbn [forallb fst snd]. rewrite Hk, (Hf v eq_refl). cbn. auto.
Qed.

#[export] Instance string_laws : JsonableLaws string.
Proof. constructor. reflexivity. Qed.

#[export] Instance bool_laws : JsonableLaws bool.
Proof. constructor. reflexivity. Qed.

#[export] Instance number_laws : JsonableLaws Z.
Proof. constructor. reflexivity. Qed.

#[export] Instance array_laws {T : Type} `{JsonableLaws T} : JsonableLaws (list T).
Proof.
  constructor. intros xs. cbn [of_json to_json array_json].
  induction xs as [|x xs IH]; [reflexivity|].
  cbn [map mapM]. rewrite of_to_json. cbn. rewrite IH. reflexivity.
Qed.

#[export] Instance ReminderType_laws : JsonableLaws ReminderType.
Proof. constructor. intros []; reflexivity. Qed.

#[export] Instance HistoryItemType_laws : JsonableLaws HistoryItemType.
Proof. constructor. intros []; reflexivity. Qed.

Lemma required_put {T : Type} `{JsonableLaws T} k fs (x : T) :
  distinct (map fst fs) = true -> slot k fs = Some (to_json x) ->
  required k (object fs) = Some x.
Proof.
  intros Hd Hs. unfold required. rewrite prop_object, Hs by exact Hd.
  cbn. apply of_to_json.
Qed.

Lemma optional_put {T : Type} `{JsonableLaws T} k fs (x : option T) :
  distinct (map fst fs) = true -> slot k fs = to_json <$> x ->
  optional k (object fs) = Some x.
Proof.
  intros Hd Hs. unfold optional. rewrite prop_object, Hs by exact Hd.
  destruct x as [x|]; cbn; [rewrite of_to_json|]; reflexivity.
Qed.

(** Decoding a record just encoded: every property is read from its own
    slot. *)
Ltac read_fields :=
  repeat first
    [ erewrite required_put by reflexivity
    | erewrite optional_put by reflexivity ];
  cbn [mbind option_bind].

Ltac record_laws inst :=
  constructor; intros x; cbn [of_json to_json inst]; read_fields;
  destruct x; reflexivity.

#[export] Instance Reminder_laws : JsonableLaws Reminder.t.
Proof. record_laws Reminder_json. Qed.

#[export] Instance User_laws : JsonableLaws User.t.
Proof. record_laws User_json. Qed.

#[export] Instance PurchaseLink_laws : JsonableLaws PurchaseLink.t.
Proof. record_laws PurchaseLink_json. Qed.

#[export] Instance Cures_laws : JsonableLaws Cures.t.
Proof. record_laws Cures_json. Qed.

#[export] Instance SoilData_laws : JsonableLaws SoilData.t.
Proof. record_laws SoilData_json. Qed.

#[export] Instance SeedData_laws : JsonableLaws SeedData.t.
Proof. record_laws SeedData_json. Qed.

#[export] Instance HistoryItem_laws : JsonableLaws HistoryItem.t.
Proof. record_laws HistoryItem_json. Qed.

(** *** Which records are inside [json] *)

#[export] Instance string_wf : AlwaysWf string.
Proof. constructor. reflexivity. Qed.

#[export] Instance bool_wf : AlwaysWf bool.
Proof. constructor. reflexivity. Qed.

#[export] Instance ReminderType_wf : AlwaysWf ReminderType.
Proof. constructor. reflexivity. Qed.

#[export] Instance HistoryItemType_wf : AlwaysWf HistoryItemType.
Proof. constructor. reflexivity. Qed.

Lemma array_wf {T : Type} `{Jsonable T} (xs : list T) :
  List.Forall (fun x => json_wf (to_json x) = true) xs ->
  json_wf (to_json xs) = true.
Proof.
  cbn [to_json array_json json_wf].
  induction 1 as [|x xs Hx _ IH]; [reflexivity|].
  cbn [map forallb]. rewrite Hx, IH. reflexivity.
Qed.

#[export] Instance array_always_wf {T : Type} `{AlwaysWf T} : AlwaysWf (list T).
Proof.
  constructor. intros xs. apply array_wf.
  induction xs; constructor; auto using to_json_wf.
Qed.

Lemma put_wf {T : Type} `{AlwaysWf T} k (x : T) v :
  snd (put k x) = Some v -> json_wf v = true.
Proof. intros [= <-]. apply to_json_wf. Qed.

Lemma put_opt_wf {T : Type} `{AlwaysWf T} k (x : option T) v :
  snd (put_opt k x) = Some v -> json_wf v = true.
Proof. destruct x; intros [= <-]. apply to_json_wf. Qed.

Ltac fields_wf :=
  repeat (apply List.Forall_cons; [intros ?; first [apply put_wf | apply put_opt_wf] |]);
  try apply List.Forall_nil.

Ltac record_wf inst :=
  constructor; intros x; cbn [to_json inst];
  apply json_wf_object; [reflexivity | reflexivity | fields_wf].

#[export] Instance Reminder_wf : AlwaysWf Reminder.t.
Proof. record_wf Reminder_json. Qed.

#[export] Instance User_wf : AlwaysWf User.t.
Proof. record_wf User_json. Qed.

#[export] Instance PurchaseLink_wf : AlwaysWf PurchaseLink.t.
Proof. record_wf PurchaseLink_json. Qed.

#[export] Instance Cures_wf : AlwaysWf Cures.t.
Proof. record_wf Cures_json. Qed.

#[export] Instance SoilData_wf : AlwaysWf SoilData.t.
Proof. record_wf SoilData_json. Qed.

#[export] Instance SeedData_wf : AlwaysWf SeedData.t.
Proof. record_wf SeedData_json. Qed.

Lemma HistoryItem_wf (h : HistoryItem.t) :
  safe_integer (HistoryItem.timestamp h) -> json_wf (to_json h) = true.
Proof.
  intros [Hlo Hhi]. cbn [to_json HistoryItem_json].
  apply json_wf_object; [reflexivity | reflexivity |].
  apply List.Forall_cons; [intros ?; apply put_wf|].
  apply List.Forall_cons.
  { intros v [= <-]. cbn [to_json number_json json_wf].
    apply andb_true_intro. split; apply Z.leb_le; assumption. }
  fields_wf.
Qed.

End CodecFacts.

(** ** Persistence: load and save *)

Module PersistenceFacts.
Import Json JsonFacts CodecFacts App Examples.

Lemma stringify_truthy v : truthy (JSON_stringify v) = true.
Proof.
  unfold truthy, JSON_stringify.
  destruct (print_head v) as (c & tl & E & _). rewrite E. reflexivity.
Qed.

(** Loading what was stringified under the key gives the value back. *)
Lemma load_stringified {T : Type} `{JsonableLaws T} key (x current : T) ls :
  json_wf (to_json x) = true ->
  ls !! key = Some (JSON_stringify (to_json x)) ->
  load key current ls = Loaded x.
Proof.
  intros Hwf Hls. unfold load. rewrite Hls, stringify_truthy.
  rewrite JSON_parse_stringify by exact Hwf. rewrite of_to_json. reflexivity.
Qed.

Lemma history_wf (hs : list HistoryItem.t) :
  List.Forall (fun h => safe_integer (HistoryItem.timestamp h)) hs ->
  json_wf (to_json hs) = true.
Proof.
  intros Hs. apply array_wf. eapply List.Forall_impl; [|exact Hs].
  intros h. apply HistoryItem_wf.
Qed.

(** C1, as the code has it: an absent key or an empty text leaves the
    collection as it is (empty at mount), the serialization of a
    sequence gives that sequence back, and the load crashes with the
    parser's SyntaxError on every other text that is not JSON
    ([json_text], the grammar of ECMA-404), and on no text that is. *)
Theorem load_outcomes {T : Type} `{JsonableLaws T} (key : string) (current : T)
  (ls : gmap string string) :
  (ls !! key = None -> load key current ls = Loaded current) /\
  (ls !! key = Some ""%string -> load key current ls = Loaded current) /\
  (forall x : T, json_wf (to_json x) = true ->
     ls !! key = Some (JSON_stringify (to_json x)) ->
     load key current ls = Loaded x) /\
  (forall saved, ls !! key = Some saved -> saved <> ""%string ->
     (load key current ls = Crashed <->
      ~ json_text (list_ascii_of_string saved))).
Proof.
  split; [|split; [|split]].
  - intros Hls. unfold load. rewrite Hls. reflexivity.
  - intros Hls. unfold load. rewrite Hls. reflexivity.
  - intros x. apply load_stringified.
  - intros saved Hls Hne. unfold load. rewrite Hls.
    assert (Ht : truthy saved = true).
    { unfold truthy. destruct (String.eqb_spec saved ""); [contradiction | reflexivity]. }
    rewrite Ht. split.
    + intros Hcrash. apply JSON_parse_throws.
      destruct (JSON_parse saved) as [v| |]; [|reflexivity|discriminate].
      destruct (of_json v); discriminate.
    + intros Hno. rewrite (JSON_parse_not_json saved Hno). reflexivity.
Qed.

(** C1 fails as stated: with a truncated text under the history key the
    load neither returns the empty sequence nor returns at all, and the
    whole mount effect goes down with it. *)
Lemma load_malformed_crashes :
  truncated_store !! HISTORY_KEY = Some "[{"%string /\
  ~ json_text (list_ascii_of_string "[{") /\
  JSON_parse "[{" = Throws /\
  load HISTORY_KEY ([] : list HistoryItem.t) truncated_store = Crashed /\
  load HISTORY_KEY ([] : list HistoryItem.t) truncated_store <> Loaded [] /\
  mountEffect (boot truncated_store []) = Crashed.
Proof.
  split; [vm_compute; reflexivity|].
  split; [apply JSON_parse_throws; vm_compute; reflexivity|].
  vm_compute. repeat split; congruence.
Qed.

Lemma load_outcomes_witness :
  let ls : gmap string string :=
    {[ REMINDERS_KEY := JSON_stringify (to_json [example_reminder]) ]} in
  load REMINDERS_KEY [] ls = Loaded [example_reminder].
Proof.
  intros ls.
  apply (proj1 (proj2 (proj2 (load_outcomes REMINDERS_KEY [] ls))) [example_reminder]).
  - vm_compute. reflexivity.
  - vm_compute. reflexivity.
Defined.

(** C7: what a handler saved is what the mount effect loads, for
    reminders and for history, the empty sequence included (written as
    [[]] by [saveReminders], as a removed key by the history clear). *)
Theorem save_load_roundtrip :
  (forall (updated current : list Reminder.t) (st : State),
     load REMINDERS_KEY current (storage (saveReminders updated st))
     = Loaded updated) /\
  (forall (history current : list HistoryItem.t) (item : HistoryItem.t) (st : State),
     List.Forall (fun h => safe_integer (HistoryItem.timestamp h)) (item :: history) ->
     load HISTORY_KEY current (storage (saveToHistory history item st))
     = Loaded (item :: history)) /\
  (forall (st : State),
     load HISTORY_KEY ([] : list HistoryItem.t) (storage (clearHistory st))
     = Loaded []).
Proof.
  repeat split.
  - intros updated current st. apply load_stringified.
    + apply to_json_wf.
    + cbn [saveReminders setItem storage]. apply lookup_insert_eq.
  - intros history current item st Hsafe. apply load_stringified.
    + apply history_wf, Hsafe.
    + cbn [saveToHistory setItem storage]. apply lookup_insert_eq.
  - intros st. unfold load. cbn [clearHistory removeItem storage].
    rewrite lookup_delete_eq. reflexivity.
Qed.

Lemma save_load_roundtrip_witness :
  load HISTORY_KEY []
       (storage (saveToHistory [] example_guide (boot ∅ [])))
  = Loaded [example_guide].
Proof.
  apply (proj1 (proj2 save_load_roundtrip) [] [] example_guide (boot ∅ [])).
  repeat constructor; vm_compute; congruence.
Defined.

End PersistenceFacts.

(** ** The scheduler *)

Module SchedulerFacts.
Import App Examples.

Section WithHost.
Context `{Host}.

Lemma check_reminder_fires todayStr permission r st :
  fires todayStr permission r st ->
  check_reminder todayStr permission r st =
  setItem (marker_key (Reminder.id r)) todayStr
    (newNotification (Reminder.id r) todayStr (notification_for r) st).
Proof.
  intros (Hdue & Hc & -> & Hm). unfold check_reminder.
  rewrite bool_decide_eq_true_2 by exact Hdue. rewrite Hc. cbn [negb andb].
  rewrite bool_decide_eq_true_2 by exact Hm. reflexivity.
Qed.

Lemma check_reminder_idle todayStr permission r st :
  ~ fires todayStr permission r st ->
  check_reminder todayStr permission r st = st.
Proof.
  intros Hn. unfold check_reminder.
  case_bool_decide as Hdue; cbn [andb]; [|reflexivity].
  destruct (Reminder.completed r) eqn:Hc; cbn [negb]; [reflexivity|].
  destruct permission; try reflexivity.
  case_bool_decide as Hm; [|reflexivity].
  exfalso. apply Hn. repeat split; assumption.
Qed.

Lemma marker_key_inj a b : marker_key a = marker_key b -> a = b.
Proof. unfold marker_key. intros Heq. simpl in Heq. injection Heq. auto. Qed.

(** A marker that already carries today's string keeps it. *)
Lemma check_reminder_keeps todayStr permission r st k :
  storage st !! k = Some todayStr ->
  storage (check_reminder todayStr permission r st) !! k = Some todayStr.
Proof.
  intros Hk. destruct (decide (fires todayStr permission r st)) as [Hf|Hf].
  - rewrite check_reminder_fires by exact Hf. cbn [setItem newNotification storage].
    destruct (decide (marker_key (Reminder.id r) = k)) as [->|Hne].
    + apply lookup_insert_eq.
    + rewrite lookup_insert_ne by exact Hne. exact Hk.
  - rewrite check_reminder_idle by exact Hf. exact Hk.
Qed.

Lemma tick_cons todayStr permission r rs st :
  tick todayStr permission (r :: rs) st
  = tick todayStr permission rs (check_reminder todayStr permission r st).
Proof. reflexivity. Qed.

Lemma tick_keeps todayStr permission rs : forall st k,
  storage st !! k = Some todayStr ->
  storage (tick todayStr permission rs st) !! k = Some todayStr.
Proof.
  induction rs as [|r rs IH]; intros st k Hk; [exact Hk|].
  rewrite tick_cons. apply IH, check_reminder_keeps, Hk.
Qed.

(** After a tick with permission, every reminder that is due and open
    has today's marker. *)
Lemma tick_marks todayStr rs : forall st r,
  r ∈ rs ->
  toDateString (Date_parse (Reminder.date r)) = todayStr ->
  Reminder.completed r = false ->
  storage (tick todayStr Notification.granted rs st) !! marker_key (Reminder.id r)
  = Some todayStr.
Proof.
  induction rs as [|x rs IH]; intros st r Hin Hdue Hc.
  - inversion Hin.
  - rewrite tick_cons. apply elem_of_cons in Hin as [->|Hin].
    + apply tick_keeps.
      destruct (decide (fires todayStr Notification.granted x st)) as [Hf|Hf].
      * rewrite check_reminder_fires by exact Hf.
        cbn [setItem newNotification storage]. apply lookup_insert_eq.
      * rewrite check_reminder_idle by exact Hf.
        destruct (decide (storage st !! marker_key (Reminder.id x) = Some todayStr))
          as [Hm|Hm]; [exact Hm|].
        exfalso. apply Hf. repeat split; assumption.
    + apply IH; assumption.
Qed.

(** A tick over reminders that all carry today's marker does nothing. *)
Lemma tick_suppressed todayStr permission rs : forall st,
  (forall r, r ∈ rs ->
     toDateString (Date_parse (Reminder.date r)) = todayStr ->
     Reminder.completed r = false ->
     storage st !! marker_key (Reminder.id r) = Some todayStr) ->
  tick todayStr permission rs st = st.
Proof.
  induction rs as [|x rs IH]; intros st Hall; [reflexivity|].
  rewrite tick_cons. rewrite check_reminder_idle.
  - apply IH. intros r Hin. apply Hall. apply elem_of_cons. right. exact Hin.
  - intros (Hdue & Hc & _ & Hm). apply Hm, Hall; [apply elem_of_cons; left|..]; auto.
Qed.

Lemma dispatches_app id tr1 tr2 :
  dispatches id (tr1 ++ tr2) = (dispatches id tr1 + dispatches id tr2)%nat.
Proof. unfold dispatches. rewrite List.filter_app, length_app. reflexivity. Qed.

(** Once the marker carries today's string, a tick adds no notification
    for that id; in any case it adds at most one. *)
Lemma tick_dispatches_marked todayStr permission id rs : forall st,
  storage st !! marker_key id = Some todayStr ->
  dispatches id (trace (tick todayStr permission rs st)) = dispatches id (trace st).
Proof.
  induction rs as [|r rs IH]; intros st Hm; [reflexivity|].
  rewrite tick_cons.
  rewrite IH by (apply check_reminder_keeps, Hm).
  destruct (decide (fires todayStr permission r st)) as [Hf|Hf].
  - rewrite check_reminder_fires by exact Hf.
    cbn [setItem newNotification trace]. rewrite !dispatches_app.
    unfold dispatches at 2 3. cbn [List.filter is_dispatch List.length].
    case_bool_decide as Hid; [|cbn; lia].
    exfalso. destruct Hf as (_ & _ & _ & Hn). apply Hn. rewrite Hid. exact Hm.
  - rewrite check_reminder_idle by exact Hf. reflexivity.
Qed.

Lemma tick_dispatches_once todayStr permission id rs : forall st,
  (dispatches id (trace (tick todayStr permission rs st))
   <= dispatches id (trace st) + 1)%nat.
Proof.
  induction rs as [|r rs IH]; intros st; [cbn; lia|].
  rewrite tick_cons.
  destruct (decide (fires todayStr permission r st)) as [Hf|Hf].
  - rewrite check_reminder_fires by exact Hf.
    destruct (decide (Reminder.id r = id)) as [Hid|Hid].
    + rewrite tick_dispatches_marked.
      * cbn [setItem newNotification trace]. rewrite !dispatches_app.
        unfold dispatches at 2 3. cbn [List.filter is_dispatch List.length].
        case_bool_decide; cbn; lia.
      * cbn [setItem newNotification storage]. rewrite Hid. apply lookup_insert_eq.
    + etransitivity; [apply IH|].
      cbn [setItem newNotification trace]. rewrite !dispatches_app.
      unfold dispatches at 2 3. cbn [List.filter is_dispatch List.length].
      case_bool_decide; [contradiction | cbn; lia].
  - rewrite check_reminder_idle by exact Hf. apply IH.
Qed.

Lemma checkReminders_tick rs now permission st :
  checkReminders rs now permission st = tick (DateString now) permission rs st.
Proof. reflexivity. Qed.

Lemma tick_app todayStr permission l1 l2 st :
  tick todayStr permission (l1 ++ l2) st
  = tick todayStr permission l2 (tick todayStr permission l1 st).
Proof. apply fold_left_app. Qed.

Lemma check_reminder_trace todayStr permission r st :
  exists evs, trace (check_reminder todayStr permission r st) = trace st ++ evs.
Proof.
  destruct (decide (fires todayStr permission r st)) as [Hf|Hf].
  - rewrite check_reminder_fires by exact Hf. cbn [setItem newNotification trace].
    rewrite <- app_assoc. eexists. reflexivity.
  - rewrite check_reminder_idle by exact Hf. exists []. rewrite app_nil_r. reflexivity.
Qed.

Lemma tick_trace todayStr permission rs : forall st,
  exists evs, trace (tick todayStr permission rs st) = trace st ++ evs.
Proof.
  induction rs as [|r rs IH]; intros st.
  - exists []. rewrite app_nil_r. reflexivity.
  - rewrite tick_cons. destruct (IH (check_reminder todayStr permission r st)) as [e2 E2].
    destruct (check_reminder_trace todayStr permission r st) as [e1 E1].
    exists (e1 ++ e2). rewrite E2, E1, app_assoc. reflexivity.
Qed.

(** Reminders with other ids leave the marker and the count of an id
    alone. *)
Lemma tick_other todayStr permission id rs : forall st,
  id ∉ map Reminder.id rs ->
  storage (tick todayStr permission rs st) !! marker_key id
  = storage st !! marker_key id /\
  dispatches id (trace (tick todayStr permission rs st)) = dispatches id (trace st).
Proof.
  induction rs as [|r rs IH]; intros st Hid; [split; reflexivity|].
  cbn [map] in Hid. apply not_elem_of_cons in Hid as [Hne Hid].
  rewrite tick_cons. destruct (IH (check_reminder todayStr permission r st) Hid) as [-> ->].
  destruct (decide (fires todayStr permission r st)) as [Hf|Hf].
  - rewrite check_reminder_fires by exact Hf.
    cbn [setItem newNotification storage trace]. split.
    + apply lookup_insert_ne. intros E. apply marker_key_inj in E. congruence.
    + rewrite !dispatches_app. unfold dispatches at 2 3.
      cbn [List.filter is_dispatch List.length].
      case_bool_decide; [congruence | cbn; lia].
  - rewrite check_reminder_idle by exact Hf. split; reflexivity.
Qed.

End WithHost.

(** C2: two ticks on the same calendar day, with permission, over a
    registry that holds a due, open reminder: its notifications in the
    trace grow by at most one, the first tick leaves today's marker for
    it, and the second tick changes nothing at all. *)
Theorem second_tick_suppressed `{Host} (r : Reminder.t)
  (reminders : list Reminder.t) (now1 now2 : Z) (st : State) :
  r ∈ reminders ->
  due now1 r ->
  Reminder.completed r = false ->
  DateString now2 = DateString now1 ->
  let st1 := checkReminders reminders now1 Notification.granted st in
  let st2 := checkReminders reminders now2 Notification.granted st1 in
  (dispatches (Reminder.id r) (trace st2)
   <= dispatches (Reminder.id r) (trace st) + 1)%nat /\
  storage st1 !! marker_key (Reminder.id r) = Some (DateString now1) /\
  st2 = st1.
Proof.
  intros Hin Hdue Hopen Hday st1 st2.
  assert (E2 : st2 = st1).
  { subst st2. unfold checkReminders. rewrite Hday.
    apply (tick_suppressed (DateString now1)).
    intros x Hx Hxdue Hxopen. subst st1. apply tick_marks; assumption. }
  split; [|split].
  - rewrite E2. subst st1. apply (tick_dispatches_once (DateString now1)).
  - subst st1. apply tick_marks; assumption.
  - exact E2.
Qed.

(** A due, open reminder whose marker is not today's gets its
    notification from the first reminder of its id that is due and open. *)
Lemma tick_first_fires `{Host} todayStr id rs : forall st,
  storage st !! marker_key id <> Some todayStr ->
  (exists r, r ∈ rs /\ Reminder.id r = id /\
             toDateString (Date_parse (Reminder.date r)) = todayStr /\
             Reminder.completed r = false) ->
  let st' := tick todayStr Notification.granted rs st in
  dispatches id (trace st') = (dispatches id (trace st) + 1)%nat /\
  storage st' !! marker_key id = Some todayStr /\
  exists r', r' ∈ rs /\ Reminder.id r' = id /\
             toDateString (Date_parse (Reminder.date r')) = todayStr /\
             Reminder.completed r' = false /\
             List.In (NewNotification id todayStr (notification_for r')) (trace st').
Proof.
  induction rs as [|x rs IH]; intros st Hmark (r & Hin & Hid & Hdue & Hopen).
  - inversion Hin.
  - cbn zeta. rewrite tick_cons.
    destruct (decide (Reminder.id x = id /\
                      toDateString (Date_parse (Reminder.date x)) = todayStr /\
                      Reminder.completed x = false)) as [(Hxid & Hxdue & Hxopen)|Hx].
    + assert (Hf : fires todayStr Notification.granted x st).
      { repeat split; auto. rewrite Hxid. exact Hmark. }
      rewrite check_reminder_fires by exact Hf. rewrite Hxid.
      set (st2 := setItem _ _ _).
      assert (Hm2 : storage st2 !! marker_key id = Some todayStr).
      { subst st2. cbn [setItem storage]. apply lookup_insert_eq. }
      assert (Ht2 : trace st2 = trace st ++
                    [NewNotification id todayStr (notification_for x);
                     SetItem (marker_key id) todayStr]).
      { subst st2. cbn [setItem newNotification trace]. rewrite <- app_assoc. reflexivity. }
      split; [|split].
      * rewrite tick_dispatches_marked by exact Hm2.
        rewrite Ht2, dispatches_app. unfold dispatches at 2.
        cbn [List.filter is_dispatch]. rewrite bool_decide_eq_true_2 by reflexivity.
        reflexivity.
      * apply tick_keeps, Hm2.
      * exists x. repeat split; auto; [apply list_elem_of_here|].
        destruct (tick_trace todayStr Notification.granted rs st2) as [evs ->].
        rewrite Ht2. apply in_or_app. left. apply in_or_app. right. left. reflexivity.
    + assert (Hrs : r ∈ rs).
      { apply elem_of_cons in Hin as [->|Hin]; [|exact Hin].
        exfalso. apply Hx. auto. }
      assert (Hkeep : storage (check_reminder todayStr Notification.granted x st)
                        !! marker_key id = storage st !! marker_key id /\
                      dispatches id (trace (check_reminder todayStr Notification.granted x st))
                      = dispatches id (trace st)).
      { destruct (decide (Reminder.id x = id)) as [Hxid|Hxid].
        - rewrite check_reminder_idle; [split; reflexivity|].
          intros (Hxdue & Hxopen & _). apply Hx. auto.
        - apply (tick_other todayStr Notification.granted id [x] st).
          cbn [map]. intros Hc. apply list_elem_of_singleton in Hc. congruence. }
      destruct Hkeep as [Hs Hd].
      destruct (IH (check_reminder todayStr Notification.granted x st)) as (Hd' & Hm' & Hr').
      { rewrite Hs. exact Hmark. }
      { exists r. auto. }
      split; [rewrite Hd', Hd; reflexivity | split; [exact Hm'|]].
      destruct Hr' as (r' & Hr'in & Hrest). exists r'.
      split; [apply list_elem_of_further; exact Hr'in | exact Hrest].
Qed.

Lemma same_id_same_reminder (rs : list Reminder.t) r r' :
  List.NoDup (map Reminder.id rs) -> r ∈ rs -> r' ∈ rs ->
  Reminder.id r' = Reminder.id r -> r' = r.
Proof.
  induction rs as [|x rs IH]; intros Hnd Hr Hr' Hid; [inversion Hr|].
  cbn [map] in Hnd. inversion Hnd as [|? ? Hx Hnd']; subst.
  assert (Hmem : forall y, y ∈ rs -> List.In (Reminder.id y) (map Reminder.id rs)).
  { intros y Hy. apply in_map, list_elem_of_In, Hy. }
  apply elem_of_cons in Hr as [->|Hr]; apply elem_of_cons in Hr' as [->|Hr']; auto.
  - exfalso. apply Hx. rewrite <- Hid. apply Hmem, Hr'.
  - exfalso. apply Hx. rewrite Hid. apply Hmem, Hr.
Qed.

(** C5, with the permission the code asks for: a marker that records
    another day does not hold back today's notification.  The tick adds
    exactly one notification for the reminder's id and moves the marker
    to today; the notification is built from a due, open reminder of that
    id, which is the reminder itself when ids are unique. *)
Theorem marker_of_another_day `{Host} (r : Reminder.t)
  (reminders : list Reminder.t) (now : Z) (st : State) (dayD : string) :
  r ∈ reminders ->
  due now r ->
  Reminder.completed r = false ->
  storage st !! marker_key (Reminder.id r) = Some dayD ->
  dayD <> DateString now ->
  let st' := checkReminders reminders now Notification.granted st in
  dispatches (Reminder.id r) (trace st')
  = (dispatches (Reminder.id r) (trace st) + 1)%nat /\
  storage st' !! marker_key (Reminder.id r) = Some (DateString now) /\
  (exists r', r' ∈ reminders /\ Reminder.id r' = Reminder.id r /\
              due now r' /\ Reminder.completed r' = false /\
              List.In (NewNotification (Reminder.id r) (DateString now)
                         (notification_for r')) (trace st')) /\
  (List.NoDup (map Reminder.id reminders) ->
   List.In (NewNotification (Reminder.id r) (DateString now) (notification_for r))
           (trace st')).
Proof.
  intros Hin Hdue Hopen Hmark Hday st'. subst st'. rewrite checkReminders_tick.
  destruct (tick_first_fires (DateString now) (Reminder.id r) reminders st)
    as (Hd & Hm & r' & Hr' & Hid & Hdue' & Hopen' & Hev).
  { rewrite Hmark. congruence. }
  { exists r. auto. }
  split; [exact Hd | split; [exact Hm | split]].
  - exists r'. auto.
  - intros Hnd.
    pose proof (same_id_same_reminder reminders r r' Hnd Hin Hr' Hid) as ->.
    exact Hev.
Qed.

Lemma marker_of_another_day_witness :
  let r := example_reminder in
  let st :=
    boot {[ marker_key (Reminder.id r) := "Sun Nov 01 2026"%string ]} [] in
  let st' := checkReminders (H := Utc.host) [r] monday_morning Notification.granted st in
  dispatches (Reminder.id r) (trace st') = 1%nat /\
  storage st' !! marker_key (Reminder.id r) = Some "Mon Nov 02 2026"%string.
Proof.
  intros r st.
  destruct (marker_of_another_day (H := Utc.host) r [r] monday_morning st
              "Sun Nov 01 2026") as (Hd & Hm & _).
  - apply list_elem_of_here.
  - vm_compute. reflexivity.
  - reflexivity.
  - vm_compute. reflexivity.
  - vm_compute. discriminate.
  - split; [exact Hd | exact Hm].
Defined.

(** C5 fails as stated: it does not ask for the permission.  With the
    permission not granted the tick of the next day, over a due and open
    reminder whose marker records the day before, notifies nothing. *)
Lemma no_dispatch_without_permission :
  let r := example_reminder in
  let st :=
    boot {[ marker_key (Reminder.id r) := "Sun Nov 01 2026"%string ]} [] in
  let st' := checkReminders (H := Utc.host) [r] monday_morning Notification.default st in
  due (H := Utc.host) monday_morning r /\
  Reminder.completed r = false /\
  storage st !! marker_key (Reminder.id r) = Some "Sun Nov 01 2026"%string /\
  DateString (Host := Utc.host) (monday_morning - Utc.msPerDay) = "Sun Nov 01 2026"%string /\
  dispatches (Reminder.id r) (trace st') = 0%nat /\
  trace st' = [].
Proof. vm_compute. repeat split. Qed.

(** *** No marker without a notification *)

Lemma marker_inv_setItem key value ls tr :
  (forall id, key <> marker_key id) ->
  marker_inv ls tr -> marker_inv (<[key := value]> ls) (tr ++ [SetItem key value]).
Proof.
  intros Hkey [Hm Ho]. split.
  - intros id day Hl. rewrite lookup_insert_ne in Hl by apply Hkey.
    destruct (Hm id day Hl) as [n Hn]. exists n. apply in_or_app. left. exact Hn.
  - unfold marker_after_dispatch. rewrite rev_unit. cbn [justified]. split; [|exact Ho].
    intros id E. destruct (Hkey id E).
Qed.

Lemma marker_inv_removeItem key ls tr :
  marker_inv ls tr -> marker_inv (delete key ls) (tr ++ [RemoveItem key]).
Proof.
  intros [Hm Ho]. split.
  - intros id day Hl. apply lookup_delete_Some in Hl as [_ Hl].
    destruct (Hm id day Hl) as [n Hn]. exists n. apply in_or_app. left. exact Hn.
  - unfold marker_after_dispatch. rewrite rev_unit. exact Ho.
Qed.

Lemma marker_inv_check `{Host} todayStr permission r st :
  marker_inv (storage st) (trace st) ->
  marker_inv (storage (check_reminder todayStr permission r st))
             (trace (check_reminder todayStr permission r st)).
Proof.
  intros [Hm Ho].
  destruct (decide (fires todayStr permission r st)) as [Hf|Hf].
  - rewrite check_reminder_fires by exact Hf.
    cbn [setItem newNotification storage trace]. split.
    + intros id day Hl.
      destruct (decide (marker_key (Reminder.id r) = marker_key id)) as [E|Hne].
      * rewrite E, lookup_insert_eq in Hl. injection Hl as <-.
        apply marker_key_inj in E. subst id. exists (notification_for r).
        apply in_or_app. left. apply in_or_app. right. left. reflexivity.
      * rewrite lookup_insert_ne in Hl by exact Hne.
        destruct (Hm id day Hl) as [n Hn]. exists n.
        apply in_or_app. left. apply in_or_app. left. exact Hn.
    + unfold marker_after_dispatch. rewrite !rev_unit. cbn [justified].
      split; [|exact Ho]. intros id E. apply marker_key_inj in E. subst id.
      eexists _, _. reflexivity.
  - rewrite check_reminder_idle by exact Hf. split; assumption.
Qed.

Lemma marker_inv_tick `{Host} todayStr permission rs : forall st,
  marker_inv (storage st) (trace st) ->
  marker_inv (storage (tick todayStr permission rs st))
             (trace (tick todayStr permission rs st)).
Proof.
  induction rs as [|r rs IH]; intros st Hinv; [exact Hinv|].
  rewrite tick_cons. apply IH, marker_inv_check, Hinv.
Qed.

Lemma app_key_not_marker key id :
  key = HISTORY_KEY \/ key = USER_KEY \/ key = REMINDERS_KEY ->
  key <> marker_key id.
Proof. intros [-> | [-> | ->]]; unfold marker_key; simpl; discriminate. Qed.

Lemma marker_inv_run `{Host} a st :
  marker_inv (storage st) (trace st) ->
  marker_inv (storage (run a st)) (trace (run a st)).
Proof.
  intros Hinv. destruct a; cbn [run].
  - apply marker_inv_tick, Hinv.
  - apply marker_inv_setItem; [intros; apply app_key_not_marker; auto | exact Hinv].
  - apply marker_inv_setItem; [intros; apply app_key_not_marker; auto | exact Hinv].
  - apply marker_inv_setItem; [intros; apply app_key_not_marker; auto | exact Hinv].
  - apply marker_inv_setItem; [intros; apply app_key_not_marker; auto | exact Hinv].
  - apply marker_inv_removeItem, Hinv.
  - apply marker_inv_setItem; [intros; apply app_key_not_marker; auto | exact Hinv].
  - apply marker_inv_removeItem, Hinv.
  - exact Hinv.
Qed.

Lemma mountEffect_world st st' :
  mountEffect st = Loaded st' -> storage st' = storage st /\ trace st' = trace st.
Proof.
  unfold mountEffect, loaded_bind.
  repeat match goal with
         | |- context [match ?l with Loaded _ => _ | _ => _ end] =>
             destruct l; try discriminate
         end.
  intros [= <-]. split; reflexivity.
Qed.

(** C3: on every reachable state a marker for [(id, day)] is backed by
    a notification for [id] made on [day]; in the trace each marker write
    comes directly after that notification; and a reminder that is not
    notified (no permission, completed, or not due) leaves the whole
    state, markers included, as it was. *)
Theorem no_marker_without_dispatch `{Host} (st : State) :
  reachable st ->
  (forall id day, storage st !! marker_key id = Some day ->
                  exists n, List.In (NewNotification id day n) (trace st)) /\
  marker_after_dispatch (trace st) /\
  (forall todayStr permission r st0,
     permission <> Notification.granted \/ Reminder.completed r = true \/
     toDateString (Date_parse (Reminder.date r)) <> todayStr ->
     check_reminder todayStr permission r st0 = st0).
Proof.
  intros Hreach.
  assert (Hinv : marker_inv (storage st) (trace st)).
  { induction Hreach as [|a st _ IH|st st' _ IH Hm].
    - split; [intros id day Hl; cbn [boot storage] in Hl;
               rewrite lookup_empty in Hl; discriminate | exact I].
    - apply marker_inv_run, IH.
    - apply mountEffect_world in Hm as [-> ->]. exact IH. }
  destruct Hinv as [Hm Ho]. split; [exact Hm | split; [exact Ho |]].
  intros todayStr permission r st0 Hno. apply check_reminder_idle.
  intros (Hdue & Hopen & Hperm & _).
  destruct Hno as [Hn|[Hn|Hn]]; [contradiction | congruence | contradiction].
Qed.

Lemma second_tick_suppressed_witness :
  let r := example_reminder in
  let st := boot ∅ [] in
  let st1 := checkReminders (H := Utc.host) [r] monday_morning Notification.granted st in
  let st2 :=
    checkReminders (H := Utc.host) [r] (monday_morning + 60000) Notification.granted st1 in
  (dispatches (Reminder.id r) (trace st2)
   <= dispatches (Reminder.id r) (trace st) + 1)%nat /\
  storage st1 !! marker_key (Reminder.id r) = Some "Mon Nov 02 2026"%string /\
  st2 = st1.
Proof.
  intros r st.
  apply (second_tick_suppressed (H := Utc.host) r [r] monday_morning
           (monday_morning + 60000) st).
  - apply list_elem_of_here.
  - vm_compute. reflexivity.
  - reflexivity.
  - vm_compute. reflexivity.
Defined.

Lemma no_marker_without_dispatch_witness :
  let st :=
    run (H := Utc.host) (Tick monday_morning Notification.granted)
      (run (H := Utc.host) (AddReminder example_reminder)
         (boot ∅ [])) in
  storage st !! marker_key "7f9c" = Some "Mon Nov 02 2026"%string /\
  exists n, List.In (NewNotification "7f9c" "Mon Nov 02 2026" n) (trace st).
Proof.
  intros st. split; [vm_compute; reflexivity|].
  apply (proj1 (no_marker_without_dispatch (H := Utc.host) st
                  (reach_run _ _ (reach_run _ _ reach_init)))).
  vm_compute. reflexivity.
Defined.

End SchedulerFacts.

(** ** The history ledger and the reminder registry *)

Module RegistryFacts.
Import Json JsonFacts CodecFacts App Examples.

Section WithHost.
Context `{Host}.

Lemma appends_snoc items item st :
  appends (items ++ [item]) st = run (SaveToHistory item) (appends items st).
Proof. unfold appends. rewrite fold_left_app. reflexivity. Qed.

(** C4, as the code has it: an append stores the new item in front of
    the history that its [saveToHistory] captured, and persists that
    list; the ledger keeps what it held exactly when the captured
    history is the current one.  So after any run of appends, each by
    the handler of the latest render, the ledger reads newest first, the
    items it held before follow unchanged and in their order, and the
    store holds the whole updated sequence, which the mount effect loads
    back. *)
Theorem appends_newest_first (items : list HistoryItem.t) (st : State) :
  (forall captured item st0,
     history (saveToHistory captured item st0) = item :: captured /\
     storage (saveToHistory captured item st0) !! HISTORY_KEY
     = Some (JSON_stringify (to_json (item :: captured))) /\
     (history (saveToHistory captured item st0) = item :: history st0 <->
      captured = history st0)) /\
  history (appends items st) = rev items ++ history st /\
  storage (appends items st) !! HISTORY_KEY =
    match items with
    | [] => storage st !! HISTORY_KEY
    | _ :: _ => Some (JSON_stringify (to_json (rev items ++ history st)))
    end /\
  (items <> [] ->
   List.Forall (fun h => safe_integer (HistoryItem.timestamp h)) (items ++ history st) ->
   forall current,
     load HISTORY_KEY current (storage (appends items st))
     = Loaded (rev items ++ history st)).
Proof.
  assert (Hcap : forall captured item st0,
     history (saveToHistory captured item st0) = item :: captured /\
     storage (saveToHistory captured item st0) !! HISTORY_KEY
     = Some (JSON_stringify (to_json (item :: captured))) /\
     (history (saveToHistory captured item st0) = item :: history st0 <->
      captured = history st0)).
  { intros captured item s. cbn [saveToHistory setItem setHistory history storage].
    split; [reflexivity|]. split; [apply lookup_insert_eq|].
    split; [intros [= E]; exact E | intros ->; reflexivity]. }
  assert (Hone : forall item s,
     history (run (SaveToHistory item) s) = item :: history s /\
     storage (run (SaveToHistory item) s) !! HISTORY_KEY
     = Some (JSON_stringify (to_json (item :: history s)))).
  { intros item s. destruct (Hcap (history s) item s) as (E1 & E2 & _).
    split; [exact E1 | exact E2]. }
  assert (Hhist : forall l, history (appends l st) = rev l ++ history st).
  { induction l as [|item l IH] using rev_ind; [reflexivity|].
    rewrite appends_snoc, (proj1 (Hone _ _)), IH, rev_unit. reflexivity. }
  assert (Hstore : items <> [] ->
            storage (appends items st) !! HISTORY_KEY
            = Some (JSON_stringify (to_json (rev items ++ history st)))).
  { intros Hne.
    destruct (exists_last Hne) as (l & item & ->).
    rewrite appends_snoc, (proj2 (Hone _ _)), Hhist, rev_unit. reflexivity. }
  split; [exact Hcap|]. split; [apply Hhist|]. split.
  - destruct items as [|i0 items]; [reflexivity|]. apply Hstore. discriminate.
  - intros Hne Hsafe current.
    apply PersistenceFacts.load_stringified; [|apply Hstore, Hne].
    apply PersistenceFacts.history_wf.
    apply List.Forall_app in Hsafe as [Hi Hh].
    apply List.Forall_app. split; [|exact Hh].
    apply List.Forall_forall. intros x Hx.
    apply (proj1 (List.Forall_forall _ _) Hi). apply List.in_rev. exact Hx.
Qed.

Lemma toggle_toggle id r : toggle id (toggle id r) = r.
Proof.
  unfold toggle. destruct (decide (Reminder.id r = id)) as [Hid|Hid].
  - rewrite (bool_decide_eq_true_2 (Reminder.id r = id) Hid). cbn [Reminder.id].
    rewrite (bool_decide_eq_true_2 (Reminder.id r = id) Hid).
    cbn. rewrite negb_involutive. destruct r; reflexivity.
  - rewrite !(bool_decide_eq_false_2 (Reminder.id r = id) Hid). reflexivity.
Qed.

Lemma toggle_absent id rs :
  (forall r, r ∈ rs -> Reminder.id r <> id) -> map (toggle id) rs = rs.
Proof.
  induction rs as [|r rs IH]; intros Hno; [reflexivity|].
  cbn [map]. unfold toggle at 1.
  rewrite bool_decide_eq_false_2 by (apply Hno, list_elem_of_here).
  rewrite IH; [reflexivity|]. intros x Hx. apply Hno, list_elem_of_further, Hx.
Qed.

(** Overwriting a property and then putting its first value back gives
    the object back, property order included. *)
Lemma obj_set_restore k v v' ps :
  assoc k ps = Some v -> obj_set k v (obj_set k v' ps) = ps.
Proof.
  induction ps as [|[k' x] ps IH]; cbn [assoc obj_set]; [discriminate|].
  destruct (String.eqb_spec k k') as [->|Hne].
  - intros [= ->]. cbn [obj_set]. rewrite String.eqb_refl. reflexivity.
  - intros Hk. cbn [obj_set].
    destruct (String.eqb_spec k k'); [contradiction|]. rewrite IH by exact Hk.
    reflexivity.
Qed.

(** The record update is the object spread of the source: on the
    JavaScript object it overwrites [completed] where it stands. *)
Lemma toggle_as_spread id r :
  Reminder.id r = id ->
  exists ps,
    to_json r = JObj ps /\
    to_json (toggle id r)
    = JObj (obj_set "completed" (JBool (negb (Reminder.completed r))) ps).
Proof.
  intros Hid. unfold toggle. rewrite bool_decide_eq_true_2 by exact Hid.
  destruct r as [i t d ty [p|] c]; eexists; split; reflexivity.
Qed.

(** C6: one toggle flips [completed] of the reminders with that id and
    of no other; two toggles give the registry back, in memory and, byte
    for byte, in the store; a toggle of an id that is not there leaves
    the registry as it was. *)
Theorem toggle_twice (id : string) (st : State) :
  let st1 := run (ToggleReminder id) st in
  let st2 := run (ToggleReminder id) st1 in
  reminders st1 = map (toggle id) (reminders st) /\
  (forall r, Reminder.completed (toggle id r)
             = if bool_decide (Reminder.id r = id)
               then negb (Reminder.completed r) else Reminder.completed r) /\
  reminders st2 = reminders st /\
  JSON_stringify (to_json (reminders st2)) = JSON_stringify (to_json (reminders st)) /\
  storage st2 !! REMINDERS_KEY
  = Some (JSON_stringify (to_json (reminders st))) /\
  (storage st !! REMINDERS_KEY = Some (JSON_stringify (to_json (reminders st))) ->
   storage st2 !! REMINDERS_KEY = storage st !! REMINDERS_KEY) /\
  ((forall r, r ∈ reminders st -> Reminder.id r <> id) ->
   reminders st1 = reminders st /\
   storage st1 !! REMINDERS_KEY = Some (JSON_stringify (to_json (reminders st)))).
Proof.
  intros st1 st2.
  assert (E1 : reminders st1 = map (toggle id) (reminders st)) by reflexivity.
  assert (E2 : reminders st2 = reminders st).
  { subst st2. cbn [run handleToggleReminder saveReminders setItem setReminders reminders].
    rewrite E1, map_map. rewrite <- (map_id (reminders st)) at 2.
    apply map_ext. intros r. apply toggle_toggle. }
  assert (E3 : storage st2 !! REMINDERS_KEY
               = Some (JSON_stringify (to_json (reminders st)))).
  { rewrite <- E2. subst st2.
    cbn [run handleToggleReminder saveReminders setItem setReminders reminders storage].
    apply lookup_insert_eq. }
  split; [exact E1 | split; [|split; [exact E2 | split; [|split; [exact E3 | split]]]]].
  - intros r. unfold toggle. case_bool_decide; reflexivity.
  - rewrite E2. reflexivity.
  - intros Hsync. rewrite E3, Hsync. reflexivity.
  - intros Hno. pose proof (toggle_absent id (reminders st) Hno) as Eid.
    split; [rewrite E1; exact Eid|].
    subst st1. cbn [run handleToggleReminder saveReminders setItem setReminders storage].
    rewrite Eid. apply lookup_insert_eq.
Qed.

End WithHost.

Lemma toggle_twice_witness :
  let st := run (H := Utc.host) (AddReminder example_reminder)
              (boot ∅ []) in
  reminders (run (H := Utc.host) (ToggleReminder "none") st) = reminders st /\
  storage (run (H := Utc.host) (ToggleReminder "none") st) !! REMINDERS_KEY
  = Some (JSON_stringify (to_json (reminders st))).
Proof.
  intros st.
  destruct (toggle_twice (H := Utc.host) "none" st) as (_ & _ & _ & _ & _ & _ & Hno).
  apply Hno. intros r Hr. apply list_elem_of_singleton in Hr. subst r.
  vm_compute. discriminate.
Defined.

(** C4 fails as stated: an image is uploaded at home, and while its
    analysis is awaited a guide is generated in the garden view and
    saved.  The analysis handler then saves its result through the
    [saveToHistory] it captured at the upload, in front of the history of
    that moment: the guide is no longer in the ledger nor in the store. *)
Lemma overlapping_appends_lose_an_item :
  exists (uploading answered : Shell.State) (k : Shell.analysis_pending)
         (with_guide : App.State),
    Shell.handleImageAnalysis (history (Shell.core (Shell.boot ∅ [])))
      (Some "/9j/4AAQSkZJRg=="%string) (Shell.boot ∅ []) = (uploading, k) /\
    snd (GardenGuide.submit (GardenCare.Resolved "Water twice a week.") "a41e"
           monday_morning (Scenarios.typing_hibiscus, Shell.core uploading))
    = with_guide /\
    history with_guide
    = [GardenGuide.guide_item "a41e" monday_morning "Hibiscus" "Water twice a week."] /\
    Shell.resumeImageAnalysis k (Shell.AnalysisResolved (Some Scenarios.blight))
      "c9f2" (monday_morning + 60000) (Shell.setCore with_guide uploading) = answered /\
    history (Shell.core answered)
    = [Shell.analysis_result Scenarios.blight "c9f2" (monday_morning + 60000)
         (Some "/9j/4AAQSkZJRg=="%string)] /\
    storage (Shell.core answered) !! HISTORY_KEY
    = Some (JSON_stringify (to_json (history (Shell.core answered)))).
Proof.
  eexists _, _, _, _.
  split; [reflexivity|]. split; [reflexivity|]. split; [vm_compute; reflexivity|].
  split; [reflexivity|]. split; [reflexivity|]. apply lookup_insert_eq.
Qed.

End RegistryFacts.

(** ** The month view of the registry *)

Module RemindersFacts.
Import Reminders Examples.

Section Sorting.
Context {A : Type} (cmp : A -> A -> Z).

Lemma insert_by_perm x l : Permutation (insert_by cmp x l) (x :: l).
Proof.
  induction l as [|y l IH]; cbn [insert_by]; [reflexivity|].
  destruct (cmp x y <=? 0); [reflexivity|].
  rewrite IH. apply perm_swap.
Qed.

Lemma stable_sort_perm l : Permutation (stable_sort cmp l) l.
Proof.
  induction l as [|x l IH]; [reflexivity|].
  cbn [stable_sort foldr]. fold (stable_sort cmp l).
  rewrite insert_by_perm, IH. reflexivity.
Qed.

Lemma insert_by_HdRel (R : A -> A -> Prop) y x l :
  R y x -> HdRel R y l -> HdRel R y (insert_by cmp x l).
Proof.
  intros Hyx Hl. destruct l as [|z l]; cbn [insert_by]; [constructor; exact Hyx|].
  destruct (cmp x z <=? 0); constructor; [exact Hyx|].
  inversion Hl; assumption.
Qed.

End Sorting.

Section WithHost.
Context `{Host}.

Lemma by_date_le a b :
  has_time a -> has_time b -> (by_date a b <=? 0) = true -> le_time a b.
Proof.
  intros [x Hx] [y Hy] Hc. unfold by_date in Hc. rewrite Hx, Hy in Hc.
  apply Z.leb_le in Hc. exists x, y. repeat split; auto. lia.
Qed.

Lemma by_date_gt a b :
  has_time a -> has_time b -> (by_date a b <=? 0) = false -> le_time b a.
Proof.
  intros [x Hx] [y Hy] Hc. unfold by_date in Hc. rewrite Hx, Hy in Hc.
  apply Z.leb_gt in Hc. exists y, x. repeat split; auto. lia.
Qed.

Lemma insert_by_sorted x l :
  has_time x -> List.Forall has_time l ->
  Sorted le_time l -> Sorted le_time (insert_by by_date x l).
Proof.
  intros Hx Hl Hs. induction l as [|y l IH]; cbn [insert_by].
  - repeat constructor.
  - inversion Hl as [|? ? Hy Hl']; subst. inversion Hs as [|? ? Hs' Hhd]; subst.
    destruct (by_date x y <=? 0) eqn:Hc.
    + constructor; [exact Hs|]. constructor. apply by_date_le; assumption.
    + constructor; [apply IH; assumption|].
      apply insert_by_HdRel; [apply by_date_gt; assumption | exact Hhd].
Qed.

Lemma stable_sort_sorted l :
  List.Forall has_time l -> Sorted le_time (stable_sort by_date l).
Proof.
  induction 1 as [|x l Hx Hl IH]; [constructor|].
  cbn [stable_sort foldr]. fold (stable_sort by_date l).
  apply insert_by_sorted; [exact Hx | | exact IH].
  eapply Permutation_Forall; [|exact Hl]. symmetry. apply stable_sort_perm.
Qed.

Lemma le_time_trans : Relations_1.Transitive le_time.
Proof.
  intros a b c (x & y & Hx & Hy & Hxy) (y' & z & Hy' & Hz & Hyz).
  rewrite Hy in Hy'. injection Hy' as <-. exists x, z. repeat split; auto. lia.
Qed.

(** What the filter keeps: the reminders whose date is valid and falls
    in the month and the year of the selected date. *)
Lemma in_month_spec selectedDate r :
  in_month selectedDate r = true <->
  exists t, Date_parse (Reminder.date r) = Some t /\
            getMonth selectedDate = Some (MonthFromTime t) /\
            getFullYear selectedDate = Some (YearFromTime t).
Proof.
  unfold in_month, getMonth, getFullYear, number_eq.
  destruct (Date_parse (Reminder.date r)) as [t|], selectedDate as [s|];
    cbn [fmap option_fmap option_map]; split.
  - intros Hb. apply andb_prop in Hb as [Hm Hy].
    apply Z.eqb_eq in Hm, Hy. exists t. rewrite Hm, Hy. auto.
  - intros (t' & [= <-] & [= Hm] & [= Hy]). rewrite Hm, Hy, !Z.eqb_refl. reflexivity.
  - discriminate.
  - intros (t' & _ & [=] & _).
  - discriminate.
  - intros (t' & [=] & _).
  - discriminate.
  - intros (t' & [=] & _).
Qed.

(** C8: the month view is a fresh array holding exactly the reminders
    of that month and year, in ascending order of their dates; the array
    behind [reminders] and every other array are as they were. *)
Theorem month_projection (reminders : nat) (selectedDate : JsDate)
  (h : gmap nat (list Reminder.t)) (xs : list Reminder.t) :
  h !! reminders = Some xs ->
  exists filtered ys h',
    filteredReminders reminders selectedDate h = Some (filtered, h') /\
    h' !! filtered = Some ys /\
    Permutation ys (List.filter (in_month selectedDate) xs) /\
    (forall r, List.In r ys <->
       List.In r xs /\
       exists t, Date_parse (Reminder.date r) = Some t /\
                 getMonth selectedDate = Some (MonthFromTime t) /\
                 getFullYear selectedDate = Some (YearFromTime t)) /\
    StronglySorted le_time ys /\
    filtered <> reminders /\
    h' !! reminders = Some xs /\
    (forall a, a <> filtered -> h' !! a = h !! a).
Proof.
  intros Hxs.
  set (kept := List.filter (in_month selectedDate) xs).
  set (filtered := fresh (dom h)).
  set (h1 := <[filtered := kept]> h).
  set (ys := stable_sort by_date kept).
  assert (Hfresh : filtered <> reminders).
  { intros E. apply (is_fresh (dom h)). fold filtered. rewrite E.
    apply elem_of_dom. eexists. exact Hxs. }
  assert (Hperm : Permutation ys kept) by apply stable_sort_perm.
  exists filtered, ys, (<[filtered := ys]> h1).
  split; [|split; [|split; [|split; [|split; [|split; [|split]]]]]].
  - unfold filteredReminders, Array_filter, Array_sort, alloc.
    rewrite Hxs. cbn [mbind option_bind]. fold kept filtered h1.
    replace (h1 !! filtered) with (Some kept)
      by (symmetry; apply lookup_insert_eq).
    reflexivity.
  - apply lookup_insert_eq.
  - exact Hperm.
  - intros r. rewrite <- in_month_spec. split; intros Hr.
    + apply List.filter_In. apply (Permutation_in _ Hperm), Hr.
    + apply (Permutation_in _ (Permutation_sym Hperm)). apply List.filter_In, Hr.
  - apply Sorted_StronglySorted; [apply le_time_trans|].
    apply stable_sort_sorted. apply List.Forall_forall. intros r Hr.
    apply List.filter_In in Hr as [_ Hr]. apply in_month_spec in Hr as (t & Ht & _).
    exists t. unfold time_of, getTime. exact Ht.
  - exact Hfresh.
  - subst h1. rewrite !lookup_insert_ne by exact Hfresh. exact Hxs.
  - intros a Ha. subst h1. rewrite !lookup_insert_ne by congruence. reflexivity.
Qed.

End WithHost.

Example november_view :
  (filteredReminders (H := Utc.host) 5%nat (Some monday_morning)
     {[ 5%nat := example_registry ]}
   ≫= fun '(a, h') => h' !! a)
  = Some [november_first; example_reminder].
Proof. vm_compute. reflexivity. Qed.

Lemma month_projection_witness :
  exists filtered ys h',
    filteredReminders (H := Utc.host) 5%nat (Some monday_morning)
      {[ 5%nat := example_registry ]} = Some (filtered, h') /\
    h' !! filtered = Some ys /\
    StronglySorted (le_time (H := Utc.host)) ys /\
    h' !! 5%nat = Some example_registry.
Proof.
  destruct (month_projection (H := Utc.host) 5%nat (Some monday_morning)
              {[ 5%nat := example_registry ]} example_registry)
    as (filtered & ys & h' & E & Hys & _ & _ & Hs & _ & Hh & _).
  - vm_compute. reflexivity.
  - exists filtered, ys, h'. repeat split; assumption.
Defined.

End RemindersFacts.

(** ** The translation cache of the garden chat *)

Module GardenCareFacts.
Import GardenCare Examples.

Lemma cached_with_translation m l translated :
  cached (with_translations m (with_translation (Message.translations m) l translated)) l
  = Some translated.
Proof. destruct l; reflexivity. Qed.

Lemma cached_other m l translated :
  cached (with_translations m (with_translation (Message.translations m) l translated))
         (other l)
  = cached m (other l).
Proof.
  unfold cached. destruct m as [? ? ? ? ? [[? ?]|]], l; reflexivity.
Qed.

Lemma truthy_nonempty s : s <> ""%string -> truthy s = true.
Proof.
  intros Hne. unfold truthy.
  destruct (String.eqb_spec s ""); [contradiction | reflexivity].
Qed.



(** The list a successful answer writes: the captured one with the
    message at [index] replaced. *)
Lemma resume_resolved k translated now :
  translated <> ""%string ->
  chatMessages (resume k (Resolved translated) now)
  = <[index k := with_translations (msg k)
                   (with_translation (Message.translations (msg k))
                                     (language k) translated)]> (captured k).
Proof. intros Hne. unfold resume. rewrite truthy_nonempty by exact Hne. reflexivity. Qed.




(** C10, as the code has it: a successful answer writes the list that
    the handler captured at the request, with the translation for [l]
    set in message [i]: role, text, image and the other translation of
    that message are the captured ones, and every other index holds the
    captured message.  So the other messages of the chat are unchanged
    when the chat still held the captured list at the answer.  An answer
    that fails or is empty leaves the messages of the chat as they
    are. *)
Theorem translation_frame (ms : list Message.t) (st st1 now : State) (i : nat)
  (l : lang) (k : pending) (translated : string) :
  handleTranslate ms i l st = Awaiting st1 k ->
  translated <> ""%string ->
  exists m m',
    ms !! i = Some m /\
    chatMessages (resume k (Resolved translated) now) !! i = Some m' /\
    Message.role m' = Message.role m /\
    Message.text m' = Message.text m /\
    Message.image m' = Message.image m /\
    Message.isAnalysis m' = Message.isAnalysis m /\
    Message.analysis m' = Message.analysis m /\
    cached m' (other l) = cached m (other l) /\
    cached m' l = Some translated /\
    List.length (chatMessages (resume k (Resolved translated) now)) = List.length ms /\
    (forall j, j <> i -> chatMessages (resume k (Resolved translated) now) !! j = ms !! j) /\
    (chatMessages now = ms ->
     forall j, j <> i ->
       chatMessages (resume k (Resolved translated) now) !! j = chatMessages now !! j) /\
    chatMessages (resume k Rejected now) = chatMessages now /\
    chatMessages (resume k (Resolved "") now) = chatMessages now.
Proof.
  intros Hh Hne. unfold handleTranslate in Hh.
  destruct (ms !! i) as [m|] eqn:Hm; [|discriminate].
  destruct (is_truthy (cached m l)) eqn:Hc; [discriminate|].
  injection Hh as <- <-.
  assert (Hi : (i < List.length ms)%nat) by (eapply lookup_lt_Some; exact Hm).
  exists m, (with_translations m
               (with_translation (Message.translations m) l translated)).
  rewrite resume_resolved by exact Hne. cbn [index msg language captured].
  repeat split; try reflexivity.
  - apply list_lookup_insert_eq. exact Hi.
  - apply cached_other.
  - apply cached_with_translation.
  - apply length_insert.
  - intros j Hj. apply list_lookup_insert_ne. congruence.
  - intros -> j Hj. apply list_lookup_insert_ne. congruence.
Qed.



Lemma translation_frame_witness :
  exists m',
    chatMessages
      (resume (mkPending (Message.text greeting, "Malayalam"%string) 0 ml greeting [greeting])
              (Resolved "namaskaram") chat) !! 0%nat = Some m' /\
    Message.text m' = Message.text greeting /\
    cached m' ml = Some "namaskaram"%string /\
    cached m' hi = None.
Proof.
  destruct (translation_frame [greeting] chat _ chat 0 ml _ "namaskaram" eq_refl
              ltac:(discriminate))
    as (m & m' & Hm & Hm' & _ & Htext & _ & _ & _ & Ho & Hc & _).
  injection Hm as <-. exists m'.
  split; [exact Hm'|]. split; [exact Htext|]. split; [exact Hc | exact Ho].
Defined.

(** C10 fails as stated: a message is posted while the translation is
    awaited; the answer writes the list captured at the request, and the
    message at index 1, which is not the one translated, is gone. *)
Lemma late_answer_drops_posts :
  exists w2 w3,
    Overlap.steps [Overlap.Request 0 hi; Overlap.Post hibiscus_guide]
                  (Overlap.mkWorld chat []) = Some w2 /\
    chatMessages (Overlap.view w2) !! 1%nat = Some hibiscus_guide /\
    Overlap.step (Overlap.Answer 0 (Resolved "namaste")) w2 = Some w3 /\
    chatMessages (Overlap.view w3) !! 1%nat = None /\
    List.length (chatMessages (Overlap.view w3)) = 1%nat.
Proof.
  eexists _, _.
  split; [vm_compute; reflexivity|].
  split; [reflexivity|].
  split; [vm_compute; reflexivity|].
  split; reflexivity.
Qed.

End GardenCareFacts.

(** ** Sessions: write-through and reload *)

Module SessionFacts.
Import Json CodecFacts App Session Examples.

Section WithHost.
Context `{Host}.

Lemma check_reminder_frame todayStr permission r st :
  history (check_reminder todayStr permission r st) = history st /\
  reminders (check_reminder todayStr permission r st) = reminders st /\
  user (check_reminder todayStr permission r st) = user st /\
  (forall k, (forall id, k <> marker_key id) ->
     storage (check_reminder todayStr permission r st) !! k = storage st !! k).
Proof.
  destruct (decide (fires todayStr permission r st)) as [Hf|Hf].
  - rewrite SchedulerFacts.check_reminder_fires by exact Hf.
    cbn [setItem newNotification history reminders user storage].
    repeat split. intros k Hk. apply lookup_insert_ne. intros E. apply (Hk _ (eq_sym E)).
  - rewrite SchedulerFacts.check_reminder_idle by exact Hf. repeat split.
Qed.

Lemma tick_frame todayStr permission rs : forall st,
  history (tick todayStr permission rs st) = history st /\
  reminders (tick todayStr permission rs st) = reminders st /\
  user (tick todayStr permission rs st) = user st /\
  (forall k, (forall id, k <> marker_key id) ->
     storage (tick todayStr permission rs st) !! k = storage st !! k).
Proof.
  induction rs as [|r rs IH]; intros st; [repeat split|].
  rewrite SchedulerFacts.tick_cons.
  destruct (IH (check_reminder todayStr permission r st)) as (Hh & Hr & Hu & Hs).
  destruct (check_reminder_frame todayStr permission r st) as (Hh' & Hr' & Hu' & Hs').
  repeat split; try congruence.
  intros k Hk. rewrite Hs by exact Hk. apply Hs', Hk.
Qed.

(** X1: The scheduler reads the registry and writes markers: a tick leaves
    the history, the registry and the user as they are, and the store too
    at every key that is not a marker, the three collection keys among
    them; the trace only grows. *)
Theorem tick_touches_markers_only (rs : list Reminder.t) (now : Z)
  (permission : Notification.permission) (st : State) :
  let st' := checkReminders rs now permission st in
  history st' = history st /\
  reminders st' = reminders st /\
  user st' = user st /\
  (forall k, (forall id, k <> marker_key id) -> storage st' !! k = storage st !! k) /\
  (storage st' !! HISTORY_KEY = storage st !! HISTORY_KEY /\
   storage st' !! USER_KEY = storage st !! USER_KEY /\
   storage st' !! REMINDERS_KEY = storage st !! REMINDERS_KEY) /\
  exists evs, trace st' = trace st ++ evs.
Proof.
  cbn zeta. rewrite SchedulerFacts.checkReminders_tick.
  destruct (tick_frame (DateString now) permission rs st) as (Hh & Hr & Hu & Hs).
  split; [exact Hh | split; [exact Hr | split; [exact Hu | split; [exact Hs | split]]]].
  - repeat split; apply Hs; intros id; apply SchedulerFacts.app_key_not_marker; auto.
  - apply SchedulerFacts.tick_trace.
Qed.

Lemma synced_insert_other {T : Type} `{Jsonable T} key (initial current : T) ls k v :
  k <> key -> synced key initial current ls -> synced key initial current (<[k := v]> ls).
Proof.
  intros Hne [[Hn Hc]|Hs]; [left | right]; rewrite lookup_insert_ne by exact Hne; auto.
Qed.

Lemma synced_delete_other {T : Type} `{Jsonable T} key (initial current : T) ls k :
  k <> key -> synced key initial current ls -> synced key initial current (delete k ls).
Proof.
  intros Hne [[Hn Hc]|Hs]; [left | right]; rewrite lookup_delete_ne by exact Hne; auto.
Qed.

Lemma synced_insert {T : Type} `{Jsonable T} key (initial current : T) ls :
  synced key initial current (<[key := JSON_stringify (to_json current)]> ls).
Proof. right. apply lookup_insert_eq. Qed.

Lemma synced_delete {T : Type} `{Jsonable T} key (initial : T) ls :
  synced key initial initial (delete key ls).
Proof. left. split; [apply lookup_delete_eq | reflexivity]. Qed.

Lemma handlers_write_through_helper (a : action) (st : State) :
  is_reload a = false ->
  write_through st ->
  write_through (run a st).
Proof.
  intros Ha (Hh & Hu & Hr). destruct a; try discriminate Ha; cbn [run].
  - rewrite SchedulerFacts.checkReminders_tick.
    destruct (tick_frame (DateString now) permission (reminders st) st)
      as (Eh & Er & Eu & Es).
    unfold write_through, synced. rewrite Eh, Er, Eu.
    rewrite !Es by (intros id; apply SchedulerFacts.app_key_not_marker; auto).
    split; [exact Hh | split; [exact Hu | exact Hr]].
  - split; [apply synced_insert | split; apply synced_insert_other; auto; discriminate].
  - split; [|split]; [apply synced_insert_other; auto; discriminate ..
                     | apply synced_insert].
  - split; [|split]; [apply synced_insert_other; auto; discriminate ..
                     | apply synced_insert].
  - split; [|split]; [apply synced_insert_other; auto; discriminate ..
                     | apply synced_insert].
  - split; [apply synced_delete | split; apply synced_delete_other; auto; discriminate].
  - split; [|split]; [apply synced_insert_other; auto; discriminate
                     | apply synced_insert
                     | apply synced_insert_other; auto; discriminate].
  - split; [|split]; [apply synced_delete_other; auto; discriminate
                     | apply synced_delete
                     | apply synced_delete_other; auto; discriminate].
Qed.

(** X2: Write-through: whatever handlers run, afterwards the store holds the
    serialization of the history, of the user and of the registry that
    are in memory (or no entry, for one that is still at its initial
    value).  Only a reload, which resets memory and keeps the store,
    parts the two until the mount effect has run. *)
Theorem sessions_write_through (acts : list action) (st : State) :
  forallb (fun a => negb (is_reload a)) acts = true ->
  write_through st ->
  write_through (runs acts st).
Proof.
  revert st. induction acts as [|a acts IH]; intros st Hacts Hst; [exact Hst|].
  cbn [forallb] in Hacts. apply andb_prop in Hacts as [Ha Hacts].
  apply negb_true_iff in Ha. cbn [runs fold_left].
  apply IH; [exact Hacts | apply handlers_write_through_helper; assumption].
Qed.

Lemma load_synced {T : Type} `{JsonableLaws T} key (initial current : T) ls :
  synced key initial current ls ->
  json_wf (to_json current) = true ->
  load key initial ls = Loaded current.
Proof.
  intros [[Hn ->]|Hs] Hwf.
  - unfold load. rewrite Hn. reflexivity.
  - apply PersistenceFacts.load_stringified; [exact Hwf | exact Hs].
Qed.

(** What a fresh page loads from the store of a write-through state. *)
Lemma mount_synced (st : State) :
  write_through st ->
  List.Forall (fun h => safe_integer (HistoryItem.timestamp h)) (history st) ->
  load HISTORY_KEY [] (storage st) = Loaded (history st) /\
  load USER_KEY loggedOutUser (storage st) = Loaded (user st) /\
  load REMINDERS_KEY [] (storage st) = Loaded (reminders st).
Proof.
  intros (Hh & Hu & Hr) Hsafe. repeat split.
  - apply load_synced; [exact Hh | apply PersistenceFacts.history_wf, Hsafe].
  - apply load_synced; [exact Hu | apply to_json_wf].
  - apply load_synced; [exact Hr | apply to_json_wf].
Qed.

(** X3: A reload followed by the mount effect gives the session back: on a
    state whose store is written through, with timestamps that are safe
    integers, the mount effect after a reload ends in that very state. *)
Theorem reload_restores (st : State) :
  write_through st ->
  List.Forall (fun h => safe_integer (HistoryItem.timestamp h)) (history st) ->
  mountEffect (run Reload st) = Loaded st.
Proof.
  intros Hw Hsafe. destruct (mount_synced st Hw Hsafe) as (Lh & Lu & Lr).
  cbn [run]. unfold mountEffect.
  cbn [boot history reminders user storage].
  rewrite Lh. cbn [loaded_bind]. rewrite Lu. cbn [loaded_bind]. rewrite Lr.
  cbn [loaded_bind]. destruct st; reflexivity.
Qed.

End WithHost.

Lemma write_through_boot tr : write_through (boot ∅ tr).
Proof. repeat split; left; split; reflexivity. Qed.

Lemma sessions_write_through_witness :
  write_through
    (runs (H := Utc.host)
       [AddReminder example_reminder; ToggleReminder "7f9c";
        Tick monday_morning Notification.granted]
       (boot ∅ [])).
Proof.
  apply (sessions_write_through (H := Utc.host)); [reflexivity|].
  apply write_through_boot.
Defined.

Lemma reload_restores_witness :
  mountEffect (run (H := Utc.host) Reload example_session) = Loaded example_session.
Proof.
  apply (reload_restores (H := Utc.host)).
  - repeat (apply (handlers_write_through_helper (H := Utc.host)); [reflexivity|]).
    apply write_through_boot.
  - repeat constructor; vm_compute; congruence.
Defined.

End SessionFacts.

(** ** More on the scheduler and the registry handlers *)

Module HandlerFacts.
Import Json CodecFacts App Session Examples.

Section WithHost.
Context `{Host}.

(** Without a candidate for an id the loop adds no notification for it
    and leaves its marker alone. *)
Lemma tick_no_candidate todayStr permission id rs : forall st,
  (forall r, r ∈ rs -> Reminder.id r = id ->
     fires todayStr permission r st -> False) ->
  dispatches id (trace (tick todayStr permission rs st)) = dispatches id (trace st) /\
  storage (tick todayStr permission rs st) !! marker_key id = storage st !! marker_key id.
Proof.
  induction rs as [|x rs IH]; intros st Hno; [split; reflexivity|].
  rewrite SchedulerFacts.tick_cons.
  assert (Hx : dispatches id (trace (check_reminder todayStr permission x st))
               = dispatches id (trace st) /\
               storage (check_reminder todayStr permission x st) !! marker_key id
               = storage st !! marker_key id).
  { destruct (decide (Reminder.id x = id)) as [Hid|Hid].
    - rewrite SchedulerFacts.check_reminder_idle; [split; reflexivity|].
      intros Hf. apply (Hno x); [apply list_elem_of_here | exact Hid | exact Hf].
    - destruct (SchedulerFacts.tick_other todayStr permission id [x] st) as [Hs Hd].
      + cbn [map]. intros Hc. apply list_elem_of_singleton in Hc. congruence.
      + split; [exact Hd | exact Hs]. }
  destruct Hx as [Hd Hs].
  destruct (IH (check_reminder todayStr permission x st)) as [Hd' Hs'].
  - intros r Hr Hid (Hdue & Hopen & Hperm & Hm).
    apply (Hno r); [apply list_elem_of_further; exact Hr | exact Hid |].
    repeat split; auto. rewrite <- Hid, <- Hs in *. rewrite Hid. rewrite Hid in Hm.
    exact Hm.
  - split; congruence.
Qed.

(** X4: A tick notifies for an id only with the permission granted, when the
    registry holds a reminder of that id that is due today and not
    completed, and when the id has no marker of today: it never notifies
    for a completed, a deleted or a future reminder. *)
Theorem tick_notifies_only_when_due (id : string) (rs : list Reminder.t) (now : Z)
  (permission : Notification.permission) (st : State) :
  dispatches id (trace (checkReminders rs now permission st))
  <> dispatches id (trace st) ->
  permission = Notification.granted /\
  storage st !! marker_key id <> Some (DateString now) /\
  exists r, r ∈ rs /\ Reminder.id r = id /\ due now r /\ Reminder.completed r = false.
Proof.
  rewrite SchedulerFacts.checkReminders_tick. intros Hgrew.
  set (today := DateString now) in *.
  assert (Hex : exists r, r ∈ rs /\ Reminder.id r = id /\ fires today permission r st).
  { destruct (decide (Exists (fun r => Reminder.id r = id /\ fires today permission r st) rs))
      as [Hex|Hnone].
    - apply Exists_exists in Hex as (r & Hr & Hid & Hf). exists r. auto.
    - exfalso. apply Hgrew. apply tick_no_candidate.
      intros r Hr Hid Hf. apply Hnone. apply Exists_exists. exists r. auto. }
  destruct Hex as (r & Hr & Hid & Hdue & Hopen & Hperm & Hm).
  split; [exact Hperm | split; [rewrite <- Hid; exact Hm|]].
  exists r. auto.
Qed.

(** X5: A task that is due today is notified by the tick that follows its
    addition: one notification more for its id, and today's marker. *)
Theorem added_reminder_is_notified (r : Reminder.t) (now : Z) (st : State) :
  due now r ->
  Reminder.completed r = false ->
  storage st !! marker_key (Reminder.id r) <> Some (DateString now) ->
  let st' := run (Tick now Notification.granted) (run (AddReminder r) st) in
  r ∈ reminders st' /\
  dispatches (Reminder.id r) (trace st')
  = (dispatches (Reminder.id r) (trace st) + 1)%nat /\
  storage st' !! marker_key (Reminder.id r) = Some (DateString now).
Proof.
  intros Hdue Hopen Hmark. cbn zeta.
  set (st1 := run (AddReminder r) st).
  assert (Hr : r ∈ reminders st1).
  { subst st1. cbn. apply elem_of_app. right. apply list_elem_of_here. }
  assert (Hm1 : storage st1 !! marker_key (Reminder.id r) <> Some (DateString now)).
  { subst st1. cbn [run handleAddReminder saveReminders setItem setReminders storage].
    rewrite lookup_insert_ne; [exact Hmark|].
    apply SchedulerFacts.app_key_not_marker. auto. }
  assert (Ht1 : dispatches (Reminder.id r) (trace st1) = dispatches (Reminder.id r) (trace st)).
  { subst st1. cbn [run handleAddReminder saveReminders setItem setReminders trace].
    rewrite SchedulerFacts.dispatches_app. cbn. lia. }
  cbn [run]. rewrite SchedulerFacts.checkReminders_tick.
  destruct (SchedulerFacts.tick_first_fires (DateString now) (Reminder.id r)
              (reminders st1) st1 Hm1) as (Hd & Hm & _).
  { exists r. auto. }
  destruct (SessionFacts.tick_frame (DateString now) Notification.granted
              (reminders st1) st1) as (_ & Er & _).
  split; [rewrite Er; exact Hr | split; [rewrite Hd, Ht1; reflexivity | exact Hm]].
Qed.

Lemma filter_all {A : Type} (P : A -> Prop) `{forall x, Decision (P x)} (l : list A) :
  (forall x, x ∈ l -> P x) -> filter P l = l.
Proof.
  induction l as [|x l IH]; intros Hall; [reflexivity|].
  rewrite filter_cons_True by (apply Hall, list_elem_of_here).
  rewrite IH; [reflexivity|]. intros y Hy. apply Hall, list_elem_of_further, Hy.
Qed.

(** X6: Delete keeps exactly the reminders of other ids, in their order, and
    persists them; it leaves the notification marker of the deleted id in
    the store; a second delete of the same id leaves the registry as it
    is, and so does a delete of an id that is not there. *)
Theorem delete_removes_exactly (id : string) (st : State) :
  let st1 := run (DeleteReminder id) st in
  (forall r, r ∈ reminders st1 <-> Reminder.id r <> id /\ r ∈ reminders st) /\
  sublist (reminders st1) (reminders st) /\
  storage st1 !! REMINDERS_KEY = Some (JSON_stringify (to_json (reminders st1))) /\
  (forall i, storage st1 !! marker_key i = storage st !! marker_key i) /\
  reminders (run (DeleteReminder id) st1) = reminders st1 /\
  ((forall r, r ∈ reminders st -> Reminder.id r <> id) ->
   reminders st1 = reminders st).
Proof.
  cbn zeta.
  cbn [run handleDeleteReminder saveReminders setItem setReminders reminders storage].
  split; [|split; [|split; [|split; [|split]]]].
  - intros r. apply (list_elem_of_filter (fun r => Reminder.id r <> id)).
  - apply sublist_filter.
  - apply lookup_insert_eq.
  - intros i. apply lookup_insert_ne, SchedulerFacts.app_key_not_marker. auto.
  - apply (list_filter_filter_l (fun r => Reminder.id r <> id)). auto.
  - intros Hno. apply filter_all, Hno.
Qed.

(** X7: Adding a reminder whose id is not in the registry and deleting that id
    again restores the registry and the text persisted for it. *)
Theorem add_then_delete (r : Reminder.t) (st : State) :
  (forall x, x ∈ reminders st -> Reminder.id x <> Reminder.id r) ->
  let st2 := run (DeleteReminder (Reminder.id r)) (run (AddReminder r) st) in
  reminders st2 = reminders st /\
  storage st2 !! REMINDERS_KEY = Some (JSON_stringify (to_json (reminders st))) /\
  history st2 = history st /\ user st2 = user st.
Proof.
  intros Hfresh. cbn zeta.
  cbn [run handleDeleteReminder handleAddReminder saveReminders setItem
       setReminders reminders storage history user].
  assert (E : filter (fun x => Reminder.id x <> Reminder.id r) (reminders st ++ [r])
              = reminders st).
  { rewrite filter_app, filter_all by exact Hfresh.
    rewrite filter_cons_False by (intros Hne; apply Hne; reflexivity).
    rewrite filter_nil. apply app_nil_r. }
  rewrite E. repeat split. apply lookup_insert_eq.
Qed.

End WithHost.

Lemma tick_notifies_only_when_due_witness :
  exists r, r ∈ [november_first; example_reminder] /\ Reminder.id r = "7f9c"%string /\
            due (H := Utc.host) monday_morning r /\ Reminder.completed r = false.
Proof.
  destruct (tick_notifies_only_when_due (H := Utc.host) "7f9c"
              [november_first; example_reminder] monday_morning
              Notification.granted (boot ∅ [])) as (_ & _ & Hex).
  - vm_compute. discriminate.
  - exact Hex.
Defined.

Lemma added_reminder_is_notified_witness :
  let st' := run (H := Utc.host) (Tick monday_morning Notification.granted)
               (run (H := Utc.host) (AddReminder example_reminder) (boot ∅ [])) in
  dispatches "7f9c" (trace st') = 1%nat /\
  storage st' !! marker_key "7f9c" = Some "Mon Nov 02 2026"%string.
Proof.
  destruct (added_reminder_is_notified (H := Utc.host) example_reminder
              monday_morning (boot ∅ [])) as (_ & Hd & Hm).
  - vm_compute. reflexivity.
  - reflexivity.
  - vm_compute. discriminate.
  - split; [exact Hd | exact Hm].
Defined.

Lemma add_then_delete_witness :
  reminders (run (H := Utc.host) (DeleteReminder "7f9c")
               (run (H := Utc.host) (AddReminder example_reminder)
                  (run (H := Utc.host) (AddReminder december_first) (boot ∅ []))))
  = [december_first].
Proof.
  destruct (add_then_delete (H := Utc.host) example_reminder
              (run (H := Utc.host) (AddReminder december_first) (boot ∅ [])))
    as (Hr & _).
  - intros x Hx. apply list_elem_of_singleton in Hx. subst x. vm_compute. discriminate.
  - exact Hr.
Defined.

End HandlerFacts.

(** ** Host text functions *)

Module TextFacts.
Import Json Text.

Lemma chars_app (s1 s2 : string) :
  list_ascii_of_string (s1 +:+ s2) = list_ascii_of_string s1 ++ list_ascii_of_string s2.
Proof.
  induction s1 as [|c s1 IH]; [reflexivity|].
  change (c :: list_ascii_of_string (s1 +:+ s2)
          = c :: list_ascii_of_string s1 ++ list_ascii_of_string s2).
  rewrite IH. reflexivity.
Qed.

Section Strip.
Variable w2 : ascii -> ascii -> bool.
Variable w3 : ascii -> ascii -> ascii -> bool.

Lemma strip_blank_prefix (pre l : list ascii) :
  List.Forall (fun c => is_ws1 c = true) pre ->
  strip w2 w3 (pre ++ l) = strip w2 w3 l.
Proof.
  induction 1 as [|c pre Hc _ IH]; [reflexivity|].
  cbn [app strip]. rewrite Hc. exact IH.
Qed.


Lemma strip_stop (c : ascii) (l : list ascii) :
  is_ws1 c = false ->
  (forall c2, w2 c c2 = false) ->
  (forall c2 c3, w3 c c2 c3 = false) ->
  strip w2 w3 (c :: l) = c :: l.
Proof.
  intros H1 H2 H3. cbn [strip]. rewrite H1.
  destruct l as [|c2 [|c3 l]]; [reflexivity| |]; rewrite H2; [reflexivity|].
  rewrite H3. reflexivity.
Qed.

End Strip.

(** A byte below 128 is neither the first nor the last byte of a white
    space code point of more than one byte. *)
Lemma ascii_not_in_ws (c : ascii) :
  (code c < 128)%N ->
  (forall x, is_ws2 c x = false) /\ (forall x, is_ws2 x c = false) /\
  (forall x y, is_ws3 c x y = false) /\ (forall x y, is_ws3 x y c = false).
Proof.
  intros Hc.
  assert (E : forall k, (128 <= k)%N -> (code c =? k)%N = false).
  { intros k Hk. apply N.eqb_neq. lia. }
  assert (L : (128 <=? code c)%N = false) by (apply N.leb_gt; exact Hc).
  repeat split; intros; unfold is_ws2, is_ws3; cbv zeta;
    rewrite ?E by lia; rewrite ?L;
    repeat (rewrite ?andb_false_r, ?orb_false_r; cbn [andb orb]); reflexivity.
Qed.

(** [trim] on a text that is padded with ASCII white space around a core
    that starts and ends with other ASCII characters. *)
Lemma trim_padded (pre post : string) (a b : ascii) (body : list ascii) :
  ascii_blank pre -> ascii_blank post ->
  (code a < 128)%N -> is_ws1 a = false ->
  (code b < 128)%N -> is_ws1 b = false ->
  trim (pre +:+ string_of_list_ascii (a :: body ++ [b]) +:+ post)
  = string_of_list_ascii (a :: body ++ [b]).
Proof.
  intros Hpre Hpost Ha Ha1 Hb Hb1. unfold trim. f_equal.
  rewrite !chars_app, list_ascii_of_string_of_list_ascii.
  unfold trimStart. rewrite strip_blank_prefix by exact Hpre.
  destruct (ascii_not_in_ws a Ha) as (A2 & _ & A3 & _).
  destruct (ascii_not_in_ws b Hb) as (_ & B2 & _ & B3).
  cbn [app]. rewrite strip_stop by auto.
  unfold trimEnd.
  replace (rev (a :: (body ++ [b]) ++ list_ascii_of_string post))
    with (rev (list_ascii_of_string post) ++ b :: rev (a :: body)).
  2:{ change (a :: (body ++ [b]) ++ list_ascii_of_string post)
        with ((a :: body ++ [b]) ++ list_ascii_of_string post).
      rewrite rev_app_distr. f_equal.
      change (a :: body ++ [b]) with ((a :: body) ++ [b]).
      rewrite rev_app_distr. reflexivity. }
  rewrite strip_blank_prefix.
  2:{ apply List.Forall_forall. intros x Hx. apply (proj1 (List.Forall_forall _ _) Hpost).
      apply List.in_rev. exact Hx. }
  rewrite strip_stop by auto.
  change (b :: rev (a :: body)) with ([b] ++ rev (a :: body)).
  rewrite rev_app_distr, rev_involutive. reflexivity.
Qed.


Lemma split_chars_nonempty sep l : split_chars sep l <> [].
Proof.
  induction l as [|c l IH]; [discriminate|]. cbn [split_chars].
  destruct (code c =? code sep)%N; [discriminate|].
  destruct (split_chars sep l); discriminate.
Qed.

Lemma split_chars_plain sep l :
  List.Forall (fun c => code c <> code sep) l -> split_chars sep l = [l].
Proof.
  induction 1 as [|c l Hc _ IH]; [reflexivity|]. cbn [split_chars].
  rewrite (proj2 (N.eqb_neq _ _) Hc), IH. reflexivity.
Qed.

Lemma split_chars_first sep l rest :
  List.Forall (fun c => code c <> code sep) l ->
  split_chars sep (l ++ sep :: rest) = l :: split_chars sep rest.
Proof.
  induction 1 as [|c l Hc _ IH]; cbn [app split_chars].
  - rewrite N.eqb_refl. reflexivity.
  - rewrite (proj2 (N.eqb_neq _ _) Hc), IH. reflexivity.
Qed.

(** X8: The upload handlers pass on the payload of a data URL, the text
    behind its first comma up to the next one; a text without a comma
    gives [undefined]. *)
Theorem base64String_payload (header payload : string) :
  no_comma header ->
  no_comma payload ->
  base64String (header +:+ "," +:+ payload) = Some payload /\
  base64String header = None.
Proof.
  intros Hh Hp. unfold base64String, split. split.
  - rewrite chars_app.
    change (list_ascii_of_string ("," +:+ payload))
      with (","%char :: list_ascii_of_string payload).
    rewrite split_chars_first by exact Hh.
    rewrite split_chars_plain by exact Hp. cbn.
    rewrite string_of_list_ascii_of_string. reflexivity.
  - rewrite split_chars_plain by exact Hh. reflexivity.
Qed.

Lemma base64String_payload_witness :
  base64String "data:image/png;base64,iVBORw0KGgo=" = Some "iVBORw0KGgo="%string.
Proof.
  apply (base64String_payload "data:image/png;base64" "iVBORw0KGgo=").
  - unfold no_comma. repeat constructor; vm_compute; discriminate.
  - unfold no_comma. repeat constructor; vm_compute; discriminate.
Defined.

End TextFacts.

(** ** The chat window *)

Module ChatWindowFacts.
Import Json Text ChatWindow TextFacts.

Lemma brace_core (body : list ascii) :
  startsWith "{" (string_of_list_ascii ("{"%char :: body ++ ["}"%char])) = true /\
  endsWith "}" (string_of_list_ascii ("{"%char :: body ++ ["}"%char])) = true.
Proof.
  unfold startsWith, endsWith. rewrite list_ascii_of_string_of_list_ascii.
  split; [reflexivity|].
  change ("{"%char :: body ++ ["}"%char]) with (("{"%char :: body) ++ ["}"%char]).
  rewrite rev_app_distr. reflexivity.
Qed.

(** X9: A text that is an object in braces, with any ASCII white space around
    it, is never shown: the bubble shows the placeholder instead.  So is
    every object as [JSON.stringify] writes it.  The placeholder itself
    is shown as it is. *)
Theorem cleanText_hides_objects (pre post : string) (body : list ascii) :
  ascii_blank pre ->
  ascii_blank post ->
  cleanText (pre +:+ string_of_list_ascii ("{"%char :: body ++ ["}"%char]) +:+ post)
  = placeholder /\
  (forall ps, cleanText (JSON_stringify (JObj ps)) = placeholder) /\
  cleanText placeholder = placeholder.
Proof.
  intros Hpre Hpost.
  assert (Hide : forall pre post body, ascii_blank pre -> ascii_blank post ->
            cleanText (pre +:+ string_of_list_ascii ("{"%char :: body ++ ["}"%char]) +:+ post)
            = placeholder).
  { clear. intros pre post body Hpre Hpost. unfold cleanText.
    rewrite trim_padded by (try assumption; try reflexivity; vm_compute; reflexivity).
    destruct (brace_core body) as [-> ->]. reflexivity. }
  split; [apply Hide; assumption|]. split; [|vm_compute; reflexivity].
  intros ps.
  set (body' := print_list (fun kv => quote (fst kv) ++ ":"%char :: print (snd kv)) ps).
  specialize (Hide EmptyString EmptyString body' (List.Forall_nil _) (List.Forall_nil _)).
  change (JSON_stringify (JObj ps))
    with (string_of_list_ascii ("{"%char :: body' ++ ["}"%char])).
  change (EmptyString +:+ ?x) with x in Hide.
  revert Hide. generalize (string_of_list_ascii ("{"%char :: body' ++ ["}"%char])).
  intros s. replace (s +:+ EmptyString) with s; [auto|].
  clear. induction s as [|c s IH]; [reflexivity|].
  change (String c s = String c (s +:+ EmptyString)). rewrite <- IH. reflexivity.
Qed.

Lemma cleanText_hides_objects_witness :
  cleanText (" " +:+ string_of_list_ascii ("{"%char :: list_ascii_of_string "a:1" ++ ["}"%char])
             +:+ String (chr 10) "")
  = placeholder.
Proof.
  apply (cleanText_hides_objects " " (String (chr 10) "") (list_ascii_of_string "a:1")).
  - repeat constructor.
  - repeat constructor.
Defined.

End ChatWindowFacts.

(** ** The home chat, the uploads and the history list *)

Module ShellFacts.
Import Json CodecFacts App Session Text GardenCare Shell.

Lemma or_else_truthy (x fallback : string) :
  truthy fallback = true -> truthy (or_else x fallback) = true.
Proof. intros Hf. unfold or_else. destruct (truthy x) eqn:Hx; [exact Hx | exact Hf]. Qed.

(** A page loaded over the store of a write-through state. *)
Lemma shell_mount (c : App.State) :
  write_through c ->
  List.Forall (fun h => safe_integer (HistoryItem.timestamp h)) (history c) ->
  mountEffect (boot (storage c) (trace c))
  = Loaded (mkState c home_view [] false false None false).
Proof.
  intros Hw Hsafe. destruct (SessionFacts.mount_synced c Hw Hsafe) as (Lh & Lu & Lr).
  unfold mountEffect, boot, App.mountEffect. cbn [core].
  cbn [App.boot history reminders user storage].
  rewrite Lh. cbn [loaded_bind]. rewrite Lu. cbn [loaded_bind]. rewrite Lr.
  cbn [loaded_bind]. destruct c; reflexivity.
Qed.

Lemma saveToHistory_write_through (item : HistoryItem.t) (c : App.State) :
  write_through c -> write_through (saveToHistory (history c) item c).
Proof.
  intros (Hh & Hu & Hr).
  split; [apply SessionFacts.synced_insert
         | split; apply SessionFacts.synced_insert_other; auto; discriminate].
Qed.



(** X11: An upload in the chat window ends with the analysis flag cleared and
    exactly one more message, of the model and not empty.  When the
    collaborator fails, or answers nothing, history and store stay as
    they were.  When it answers, the history gets one new first item,
    persisted, of type analysis, with the generated id and time, a plant
    name that is never empty, the uploaded image, and the findings of the
    answer; the message carries that item and the image. *)
Theorem upload_outcomes (file : string) (answer : analysis_response)
  (uuid : string) (now : Z) (st : State) :
  let st' := upload (Some file) answer uuid now st in
  isAnalyzing st' = false /\
  exists m,
    messages st' = messages st ++ [m] /\
    Message.role m = Message.model /\
    truthy (Message.text m) = true /\
    match answer with
    | AnalysisResolved (Some resultRaw) =>
        exists item,
          history (core st') = item :: history (core st) /\
          storage (core st') !! HISTORY_KEY
          = Some (JSON_stringify (to_json (history (core st')))) /\
          HistoryItem.id item = uuid /\
          HistoryItem.timestamp item = now /\
          HistoryItem.type item = analysis /\
          truthy (HistoryItem.plantName item) = true /\
          HistoryItem.imageUrl item = base64String file /\
          HistoryItem.diseaseName item = HistoryItem.diseaseName resultRaw /\
          HistoryItem.cures item = HistoryItem.cures resultRaw /\
          Message.analysis m = Some item /\
          Message.image m = base64String file
    | _ => core st' = core st /\ Message.analysis m = None
    end.
Proof.
  cbn zeta. unfold upload, ChatWindow.handleFileChange, handleImageAnalysis,
    resumeImageAnalysis.
  cbn [analysis_request captured_history].
  destruct answer as [[resultRaw|]|].
  - split; [reflexivity|]. eexists. split; [reflexivity|].
    split; [reflexivity|]. split; [reflexivity|].
    exists (analysis_result resultRaw uuid now (base64String file)).
    cbn. repeat split.
    + apply lookup_insert_eq.
    + apply or_else_truthy. reflexivity.
  - split; [reflexivity|]. exists analysis_failed. repeat split.
  - split; [reflexivity|]. exists analysis_failed. repeat split.
Qed.

(** X12: An analysis that was saved comes back after a reload of the page:
    the mount effect loads a history with the item in front, and a click
    on it opens the home view with one message that carries the item and
    the image that was uploaded. *)
Theorem analysis_reopens (file : string) (resultRaw : HistoryItem.t)
  (uuid : string) (now : Z) (st : State) :
  write_through (core st) ->
  List.Forall (fun h => safe_integer (HistoryItem.timestamp h)) (history (core st)) ->
  safe_integer now ->
  let st1 := upload (Some file) (AnalysisResolved (Some resultRaw)) uuid now st in
  let item := analysis_result resultRaw uuid now (base64String file) in
  exists st2,
    mountEffect (boot (storage (core st1)) (trace (core st1))) = Loaded st2 /\
    history (core st2) = item :: history (core st) /\
    view (history_item_onClick item st2) = home_view /\
    exists m,
      messages (history_item_onClick item st2) = [m] /\
      Message.analysis m = Some item /\
      Message.image m = base64String file.
Proof.
  intros Hw Hsafe Hnow. cbn zeta.
  set (item := analysis_result resultRaw uuid now (base64String file)).
  assert (Ec : core (upload (Some file) (AnalysisResolved (Some resultRaw)) uuid now st)
               = saveToHistory (history (core st)) item (core st)) by reflexivity.
  rewrite Ec. eexists. split.
  - apply shell_mount.
    + apply saveToHistory_write_through, Hw.
    + cbn. constructor; [exact Hnow | exact Hsafe].
  - split; [reflexivity|]. split; [reflexivity|].
    eexists. split; [reflexivity|]. split; reflexivity.
Qed.

Lemma in_range_set {A : Type} (l : list A) (i : nat) (x y : A) :
  l !! i = Some y -> array_set l i x = Some (<[i := x]> l).
Proof.
  intros Hi. unfold array_set. apply lookup_lt_Some in Hi.
  rewrite (proj2 (Nat.ltb_lt _ _) Hi). reflexivity.
Qed.

(** X13: Translating in the home chat, where the window asks the application
    to replace the message, changes the conversation exactly as the
    garden chat does on its own list: both fail on an index outside the
    list, both leave a cached translation alone, and otherwise they end
    with the same messages and the same translating marker.  The home
    chat does not touch history, reminders, user or store. *)
Theorem home_translate_as_garden (index : nat) (l : lang) (answer : response)
  (w : ChatWindow.State) (st : State) (g : GardenCare.State) :
  chatMessages g = messages st ->
  GardenCare.translatingIndex g = ChatWindow.translatingIndex w ->
  match step (Translate index l answer) g, translate index l answer (w, st) with
  | Some g', Some (w', st') =>
      messages st' = chatMessages g' /\
      ChatWindow.translatingIndex w' = GardenCare.translatingIndex g' /\
      core st' = core st
  | None, None => True
  | _, _ => False
  end.
Proof.
  intros Hm Ht. unfold step, translate, handleTranslate, ChatWindow.handleTranslate.
  rewrite Hm. destruct (messages st !! index) as [msg|] eqn:Hi; [|exact I].
  destruct (is_truthy (cached msg l)) eqn:Hc.
  - repeat split; [symmetry; exact Hm | symmetry; exact Ht].
  - unfold resume, ChatWindow.resume.
    cbn [GardenCare.index GardenCare.msg GardenCare.language GardenCare.captured].
    destruct answer as [translated|].
    + destruct (truthy translated) eqn:Htr; cbn [andb].
      * unfold handleUpdateMessage. rewrite (in_range_set _ _ _ _ Hi). cbn.
        repeat split.
      * cbn. repeat split. symmetry. exact Hm.
    + cbn. repeat split. symmetry. exact Hm.
Qed.

Lemma safe_monday : safe_integer Examples.monday_morning.
Proof. unfold safe_integer, MAX_SAFE_INTEGER, Examples.monday_morning. lia. Qed.

Lemma analysis_reopens_witness :
  let st1 := upload (Some Scenarios.leaf_photo) (AnalysisResolved (Some Scenarios.blight))
               "c9f2" Examples.monday_morning (boot ∅ []) in
  let item := analysis_result Scenarios.blight "c9f2" Examples.monday_morning
                (Some "/9j/4AAQSkZJRg=="%string) in
  exists st2,
    mountEffect (boot (storage (core st1)) (trace (core st1))) = Loaded st2 /\
    history (core st2) = [item] /\
    view (history_item_onClick item st2) = home_view.
Proof.
  destruct (analysis_reopens Scenarios.leaf_photo Scenarios.blight "c9f2"
              Examples.monday_morning (boot ∅ []))
    as (st2 & Hm & Hh & Hv & _).
  - apply SessionFacts.write_through_boot.
  - constructor.
  - exact safe_monday.
  - exists st2. split; [exact Hm | split; [exact Hh | exact Hv]].
Defined.

Lemma home_translate_as_garden_witness :
  match step (Translate 0 hi (Resolved "namaste")) Examples.chat,
        translate 0 hi (Resolved "namaste")
          (Scenarios.asking, setMessages [Examples.greeting] (boot ∅ []))
  with
  | Some g', Some (w', st') =>
      messages st' = chatMessages g' /\
      ChatWindow.translatingIndex w' = GardenCare.translatingIndex g' /\
      core st' = App.boot ∅ []
  | None, None => True
  | _, _ => False
  end.
Proof.
  apply (home_translate_as_garden 0 hi (Resolved "namaste") Scenarios.asking
           (setMessages [Examples.greeting] (boot ∅ [])) Examples.chat);
    reflexivity.
Defined.

End ShellFacts.

(** ** The guide chat of the garden view *)

Module GardenGuideFacts.
Import Json CodecFacts Examples Scenarios App Session Text GardenCare GardenGuide.



Lemma submit_saves (reply uuid : string) (now : Z)
  (g : GardenGuide.State) (c : App.State) :
  truthy (trim (chatInput g)) = true ->
  isChatLoading g = false ->
  truthy reply = true ->
  snd (submit (Resolved reply) uuid now (g, c))
  = saveToHistory (history c) (guide_item uuid now (trim (chatInput g)) reply) c.
Proof.
  intros Ht Hl Hr. unfold submit, handleChatSubmit. rewrite Ht, Hl. cbn [negb orb].
  unfold resume. rewrite Hr. reflexivity.
Qed.



(** X15: A guide that was saved comes back after a reload of the page: the
    mount effect loads a history with the guide in front, a click on it
    switches to the garden view, and the view opens with the text of the
    guide as its only message. *)
Theorem guide_reopens (reply uuid : string) (now : Z)
  (g : GardenGuide.State) (c : App.State) :
  write_through c ->
  List.Forall (fun h => safe_integer (HistoryItem.timestamp h)) (history c) ->
  safe_integer now ->
  truthy (trim (chatInput g)) = true ->
  isChatLoading g = false ->
  truthy reply = true ->
  let c1 := snd (submit (Resolved reply) uuid now (g, c)) in
  let item := guide_item uuid now (trim (chatInput g)) reply in
  exists st2,
    Shell.mountEffect (Shell.boot (storage c1) (trace c1)) = Loaded st2 /\
    history (Shell.core st2) = item :: history c /\
    Shell.view (Shell.history_item_onClick item st2) = Shell.garden_care_view /\
    chatMessages
      (chat (GardenGuide.open
               (Shell.initialMessages (Shell.history_item_onClick item st2))))
    = [Message.make Message.model reply None None None None].
Proof.
  intros Hw Hsafe Hnow Ht Hl Hr. cbn zeta.
  rewrite (submit_saves reply uuid now g c Ht Hl Hr).
  eexists. split.
  - apply ShellFacts.shell_mount.
    + apply ShellFacts.saveToHistory_write_through, Hw.
    + cbn. constructor; [exact Hnow | exact Hsafe].
  - split; [reflexivity|]. split; reflexivity.
Qed.

(** The chat holds a message, and so does the list of every suspended
    handler: every event keeps it so. *)
Lemma nonempty_step e (w w' : Overlap.world) :
  Overlap.step e w = Some w' ->
  chatMessages (Overlap.view w) <> [] ->
  List.Forall (fun k => captured k <> []) (Overlap.inflight w) ->
  chatMessages (Overlap.view w') <> [] /\
  List.Forall (fun k => captured k <> []) (Overlap.inflight w').
Proof.
  intros Hstep Hv Hin. destruct e as [j l'|n r|m0]; cbn [Overlap.step] in Hstep.
  - unfold handleTranslate in Hstep.
    destruct (chatMessages (Overlap.view w) !! j) as [mj|]; [|discriminate].
    destruct (is_truthy (cached mj l')); injection Hstep as <-; [auto|].
    split; [exact Hv|]. cbn [Overlap.inflight].
    apply Forall_app. split; [exact Hin|]. constructor; [exact Hv | constructor].
  - destruct (Overlap.inflight w !! n) as [k|] eqn:Hk; [|discriminate].
    injection Hstep as <-. split; [|apply Forall_delete, Hin].
    pose proof (proj1 (List.Forall_forall _ _) Hin k
                  (proj1 (list_elem_of_In _ _) (list_elem_of_lookup_2 _ _ _ Hk))) as Hc.
    cbn [Overlap.view]. unfold GardenCare.resume.
    destruct r as [translated|]; [destruct (truthy translated)|];
      cbn [GardenCare.setChatMessages setTranslatingIndex console_error chatMessages];
      try exact Hv.
    intros E. apply Hc. apply (f_equal List.length) in E.
    rewrite length_insert in E. destruct (captured k); [reflexivity | discriminate E].
  - injection Hstep as <-. split; [|exact Hin]. cbn.
    destruct (chatMessages (Overlap.view w)); discriminate.
Qed.

(** X16: The garden view opens with the conversation of the home chat
    when there is one, and with its greeting when there is none: its
    chat is not empty.  It never becomes empty afterwards, however
    translation requests, their answers and posts overlap, a late answer
    that writes back an earlier list included; and the messages of a
    submit are such posts. *)
Theorem garden_chat_never_empty (st : Shell.State) :
  let g := GardenGuide.open (Shell.initialMessages st) in
  (Shell.messages st = [] -> chatMessages (chat g) = [welcome]) /\
  (Shell.messages st <> [] -> chatMessages (chat g) = Shell.messages st) /\
  chatMessages (chat g) <> [] /\
  (forall es w,
     Overlap.steps es (Overlap.mkWorld (chat g) []) = Some w ->
     chatMessages (Overlap.view w) <> []) /\
  (forall ms g0 g1 k suspended,
     handleChatSubmit ms g0 = Awaiting g1 k ->
     Overlap.step
       (Overlap.Post (Message.make Message.user (trim (chatInput g0)) None None None None))
       (Overlap.mkWorld (chat g0) suspended)
     = Some (Overlap.mkWorld (chat g1) suspended)) /\
  (forall k answer uuid now g0 suspended,
     Overlap.step
       (Overlap.Post (Message.make Message.model (guide_reply answer) None None None None))
       (Overlap.mkWorld (chat g0) suspended)
     = Some (Overlap.mkWorld (chat (fst (resume true k answer uuid now g0))) suspended)).
Proof.
  cbn zeta.
  assert (Hopen : chatMessages (chat (GardenGuide.open (Shell.initialMessages st))) <> []).
  { unfold GardenGuide.open, initialEffect, Shell.initialMessages.
    destruct (Shell.messages st); discriminate. }
  split; [|split; [|split; [exact Hopen|split; [|split]]]].
  - unfold GardenGuide.open, initialEffect, Shell.initialMessages.
    intros ->. reflexivity.
  - unfold GardenGuide.open, initialEffect, Shell.initialMessages.
    intros Hne. destruct (Shell.messages st); [congruence | reflexivity].
  - intros es.
    assert (Hall : forall w w',
              Overlap.steps es w = Some w' ->
              chatMessages (Overlap.view w) <> [] ->
              List.Forall (fun k => captured k <> []) (Overlap.inflight w) ->
              chatMessages (Overlap.view w') <> []).
    { induction es as [|e es IH]; intros w w' Hs Hv Hin.
      - injection Hs as <-. exact Hv.
      - cbn [Overlap.steps] in Hs.
        destruct (Overlap.step e w) as [w0|] eqn:He; [|discriminate].
        destruct (nonempty_step e w w0 He Hv Hin) as [Hv0 Hin0].
        exact (IH w0 w' Hs Hv0 Hin0). }
    intros w Hs. apply (Hall _ w Hs); [exact Hopen | constructor].
  - intros ms g0 g1 k suspended Hh. unfold handleChatSubmit in Hh.
    destruct (negb (truthy (trim (chatInput g0))) || isChatLoading g0); [discriminate|].
    injection Hh as <- _. reflexivity.
  - intros k answer uuid now g0 suspended.
    destruct answer as [reply|]; reflexivity.
Qed.

Lemma guide_reopens_witness :
  let c1 := snd (submit (Resolved "Water twice a week.") "a41e" monday_morning
                   (typing_hibiscus, App.boot ∅ [])) in
  let item := guide_item "a41e" monday_morning "Hibiscus" "Water twice a week." in
  exists st2,
    Shell.mountEffect (Shell.boot (storage c1) (trace c1)) = Loaded st2 /\
    history (Shell.core st2) = [item] /\
    Shell.view (Shell.history_item_onClick item st2) = Shell.garden_care_view /\
    chatMessages
      (chat (GardenGuide.open
               (Shell.initialMessages (Shell.history_item_onClick item st2))))
    = [Message.make Message.model "Water twice a week." None None None None].
Proof.
  apply (guide_reopens "Water twice a week." "a41e" monday_morning
           typing_hibiscus (App.boot ∅ [])).
  - apply SessionFacts.write_through_boot.
  - constructor.
  - unfold safe_integer, MAX_SAFE_INTEGER, monday_morning. lia.
  - vm_compute. reflexivity.
  - reflexivity.
  - reflexivity.
Defined.

End GardenGuideFacts.

(** ** The seed view and the soil view *)

Module AnalyzerFacts.
Import Json CodecFacts Examples Scenarios App Session Text.

(** X17: An upload in the seed view ends with the analysis flag cleared and
    the uploaded image shown.  When the collaborator answers, the result
    is set, no error is shown, and the history gets one new first item,
    persisted, of type seed-analysis, with a name that is never empty,
    the image and the answer.  When it fails or answers nothing, no
    result is shown, the error is, and history and store stay as they
    were: result and error are never shown together. *)
Theorem seed_upload_outcomes (file : string) (answer : SeedDetector.response)
  (uuid : string) (now : Z) (s : SeedDetector.State) (c : App.State) :
  let s' := fst (SeedDetector.handleFileUpload file answer uuid now (s, c)) in
  let c' := snd (SeedDetector.handleFileUpload file answer uuid now (s, c)) in
  SeedDetector.isAnalyzing s' = false /\
  SeedDetector.currentImage s' = base64String file /\
  match answer with
  | SeedDetector.Resolved (Some data) =>
      SeedDetector.result s' = Some data /\
      SeedDetector.error s' = None /\
      exists item,
        history c' = item :: history c /\
        storage c' !! HISTORY_KEY = Some (JSON_stringify (to_json (history c'))) /\
        HistoryItem.type item = seed_analysis /\
        HistoryItem.id item = uuid /\
        HistoryItem.timestamp item = now /\
        truthy (HistoryItem.plantName item) = true /\
        HistoryItem.imageUrl item = base64String file /\
        HistoryItem.seedData item = Some data
  | _ =>
      SeedDetector.result s' = None /\
      SeedDetector.error s' = Some SeedDetector.failure /\
      c' = c
  end.
Proof.
  cbn zeta. unfold SeedDetector.handleFileUpload, SeedDetector.performAnalysis,
    SeedDetector.resume.
  destruct answer as [[data|]|]; cbn [fst snd].
  - split; [reflexivity|]. split; [reflexivity|]. split; [reflexivity|].
    split; [reflexivity|].
    exists (SeedDetector.seed_item uuid now (base64String file) data).
    cbn. repeat split.
    + apply lookup_insert_eq.
    + apply ShellFacts.or_else_truthy. reflexivity.
  - repeat split.
  - repeat split.
Qed.


(** X19: An upload in the soil view: as in the seed view, with the welcome
    message as the only message of the chat on success and an empty chat
    on failure; the saved item is of type soil-analysis and named
    Soil Test. *)
Theorem soil_upload_outcomes (file : string) (answer : SoilAnalyzer.response)
  (uuid : string) (now : Z) (s : SoilAnalyzer.State) (c : App.State) :
  let s' := fst (SoilAnalyzer.handleFileUpload file answer uuid now (s, c)) in
  let c' := snd (SoilAnalyzer.handleFileUpload file answer uuid now (s, c)) in
  SoilAnalyzer.isAnalyzing s' = false /\
  SoilAnalyzer.currentImage s' = base64String file /\
  match answer with
  | SoilAnalyzer.Resolved (Some data) =>
      SoilAnalyzer.result s' = Some data /\
      SoilAnalyzer.error s' = None /\
      SoilAnalyzer.chatMessages s' = [SoilAnalyzer.welcomeMsg] /\
      exists item,
        history c' = item :: history c /\
        storage c' !! HISTORY_KEY = Some (JSON_stringify (to_json (history c'))) /\
        HistoryItem.type item = soil_analysis /\
        HistoryItem.id item = uuid /\
        HistoryItem.timestamp item = now /\
        HistoryItem.plantName item = "Soil Test"%string /\
        HistoryItem.imageUrl item = base64String file /\
        HistoryItem.soilData item = Some data
  | _ =>
      SoilAnalyzer.result s' = None /\
      SoilAnalyzer.error s' = Some SoilAnalyzer.failure /\
      SoilAnalyzer.chatMessages s' = [] /\
      c' = c
  end.
Proof.
  cbn zeta. unfold SoilAnalyzer.handleFileUpload, SoilAnalyzer.performAnalysis,
    SoilAnalyzer.resume.
  destruct answer as [[data|]|]; cbn [fst snd].
  - split; [reflexivity|]. split; [reflexivity|]. split; [reflexivity|].
    split; [reflexivity|]. split; [reflexivity|].
    exists (SoilAnalyzer.soil_item uuid now (base64String file) data).
    cbn. repeat split. apply lookup_insert_eq.
  - repeat split.
  - repeat split.
Qed.

(** X20: A soil report that was saved comes back after a reload of the page:
    a click on it in the loaded history switches to the soil view, which
    opens with the saved result and image, no error, and one message of
    the model.  A seed report opens nothing in the soil view. *)
Theorem soil_report_reopens (toLocaleDateString : Z -> string) (file : string)
  (data : SoilData.t) (uuid : string) (now : Z)
  (s : SoilAnalyzer.State) (c : App.State) :
  write_through c ->
  List.Forall (fun h => safe_integer (HistoryItem.timestamp h)) (history c) ->
  safe_integer now ->
  let c1 := snd (SoilAnalyzer.handleFileUpload file
                   (SoilAnalyzer.Resolved (Some data)) uuid now (s, c)) in
  let item := SoilAnalyzer.soil_item uuid now (base64String file) data in
  exists st2,
    Shell.mountEffect (Shell.boot (storage c1) (trace c1)) = Loaded st2 /\
    history (Shell.core st2) = item :: history c /\
    let st3 := Shell.history_item_onClick item st2 in
    let s3 := SoilAnalyzer.open toLocaleDateString (Shell.initialData st3) in
    Shell.view st3 = Shell.soil_analyzer_view /\
    SoilAnalyzer.result s3 = Some data /\
    SoilAnalyzer.currentImage s3 = SeedDetector.or_null (base64String file) /\
    SoilAnalyzer.error s3 = None /\
    (exists m, SoilAnalyzer.chatMessages s3 = [m] /\ Message.role m = Message.model) /\
    forall seed_report,
      HistoryItem.type seed_report = seed_analysis ->
      SoilAnalyzer.open toLocaleDateString (Some seed_report) = SoilAnalyzer.mounted.
Proof.
  intros Hw Hsafe Hnow. cbn zeta.
  change (snd (SoilAnalyzer.handleFileUpload file
                 (SoilAnalyzer.Resolved (Some data)) uuid now (s, c)))
    with (saveToHistory (history c)
            (SoilAnalyzer.soil_item uuid now (base64String file) data) c).
  eexists. split.
  - apply ShellFacts.shell_mount.
    + apply ShellFacts.saveToHistory_write_through, Hw.
    + cbn. constructor; [exact Hnow | exact Hsafe].
  - split; [reflexivity|]. split; [reflexivity|]. split; [reflexivity|].
    split; [reflexivity|]. split; [reflexivity|]. split.
    + eexists. split; reflexivity.
    + intros seed_report Hty. unfold SoilAnalyzer.open, SoilAnalyzer.initialEffect.
      rewrite Hty. reflexivity.
Qed.


Lemma soil_report_reopens_witness :
  let c1 := snd (SoilAnalyzer.handleFileUpload leaf_photo
                   (SoilAnalyzer.Resolved (Some red_soil)) "77b1" monday_morning
                   (SoilAnalyzer.mounted, App.boot ∅ [])) in
  let item := SoilAnalyzer.soil_item "77b1" monday_morning (Some "/9j/4AAQSkZJRg=="%string)
                red_soil in
  exists st2,
    Shell.mountEffect (Shell.boot (storage c1) (trace c1)) = Loaded st2 /\
    history (Shell.core st2) = [item] /\
    SoilAnalyzer.result
      (SoilAnalyzer.open Utc.date_string
         (Shell.initialData (Shell.history_item_onClick item st2)))
    = Some red_soil.
Proof.
  destruct (soil_report_reopens Utc.date_string leaf_photo red_soil "77b1" monday_morning
              SoilAnalyzer.mounted (App.boot ∅ []))
    as (st2 & Hm & Hh & _ & Hr & _).
  - apply SessionFacts.write_through_boot.
  - constructor.
  - exact ShellFacts.safe_monday.
  - exists st2. split; [exact Hm | split; [exact Hh | exact Hr]].
Defined.

End AnalyzerFacts.

(** ** Translations that fail *)

Module TranslationFacts.
Import GardenCare Examples.

(** X21: A translation that fails, or is answered with an empty text, is not
    cached: the messages stay as they were, the translating marker is
    cleared, a failure is logged, and a later request for the same
    message and language goes to the collaborator again with the same
    text and target language. *)
Theorem failed_translation_is_retried (index : nat) (l : lang) (answer : response)
  (msg : Message.t) (st : State) :
  chatMessages st !! index = Some msg ->
  is_truthy (cached msg l) = false ->
  answer = Rejected \/ answer = Resolved "" ->
  exists st1,
    step (Translate index l answer) st = Some st1 /\
    chatMessages st1 = chatMessages st /\
    translatingIndex st1 = None /\
    (answer = Rejected -> console st1 = console st ++ ["Translation failed"%string]) /\
    handleTranslate (chatMessages st1) index l st1
    = Awaiting (setTranslatingIndex (Some index) st1)
               (mkPending (Message.text msg, targetLang l) index l msg (chatMessages st)).
Proof.
  intros Hm Hc Ha. eexists. split.
  - cbn [step]. unfold handleTranslate. rewrite Hm, Hc. reflexivity.
  - destruct Ha as [-> | ->]; unfold resume; cbn;
      (split; [reflexivity|]); (split; [reflexivity|]);
      (split; [intros E; first [reflexivity | discriminate E]|]);
      unfold handleTranslate; cbn; rewrite Hm, Hc; reflexivity.
Qed.

Lemma failed_translation_is_retried_witness :
  exists st1,
    step (Translate 0 ml Rejected) chat = Some st1 /\
    chatMessages st1 = [greeting] /\
    translatingIndex st1 = None.
Proof.
  destruct (failed_translation_is_retried 0 ml Rejected greeting chat)
    as (st1 & Hs & Hm & Ht & _).
  - reflexivity.
  - reflexivity.
  - left. reflexivity.
  - exists st1. split; [exact Hs | split; [exact Hm | exact Ht]].
Defined.

End TranslationFacts.

(** ** The calendar *)

Module CalendarFacts.
Import Json CodecFacts Examples App Reminders Calendar.

Section WithHost.
Context `{Host} `{LocalTime}.

(** X22: A task added from the form belongs to the selected day: it is open
    and last in the registry, the calendar marks the selected day, the
    month list of the selected month takes it, and it is due for every
    tick of that day.  This holds for a host that reads back the ISO text
    it writes for the selected time and that builds, from the calendar
    fields of the selected time, a date of the same day.  With an
    Invalid Date selected the submit throws and adds nothing. *)
Theorem added_task_shows_on_its_day (t : Z) (uuid : string)
  (st : Calendar.State) (c : App.State) :
  selectedDate st = Some t ->
  Date_parse (toISOString t) = Some t ->
  toDateString (new_Date (Some (YearFromTime t)) (Some (MonthFromTime t))
                         (Some (DateFromTime t)))
  = DateString t ->
  exists st' r,
    handleAddSubmit uuid st = Some (st', r) /\
    Reminder.id r = uuid /\
    Reminder.completed r = false /\
    selectedDate st' = Some t /\
    reminders (handleAddReminder (reminders c) r c) = reminders c ++ [r] /\
    hasReminder (reminders (handleAddReminder (reminders c) r c)) (DateFromTime t) st'
    = true /\
    in_month (selectedDate st') r = true /\
    (forall now, DateString now = DateString t -> due now r) /\
    handleAddSubmit uuid (setSelectedDate None st) = None.
Proof.
  intros Hsel Hiso Hday. unfold handleAddSubmit. rewrite Hsel.
  eexists. eexists. split; [reflexivity|].
  split; [reflexivity|]. split; [reflexivity|]. split; [exact Hsel|].
  split; [reflexivity|]. split; [|split; [|split; [|reflexivity]]].
  - unfold hasReminder. cbn [selectedDate setNewReminder setShowAddModal].
    rewrite Hsel. cbn [getFullYear getMonth fmap option_fmap option_map].
    rewrite Hday. apply existsb_exists. eexists. split.
    + cbn [handleAddReminder saveReminders setItem setReminders reminders].
      apply in_or_app. right. left. reflexivity.
    + cbn [Reminder.date]. rewrite Hiso. apply bool_decide_eq_true_2. reflexivity.
  - unfold in_month. cbn [selectedDate setNewReminder setShowAddModal Reminder.date].
    rewrite Hsel, Hiso. cbn. rewrite !Z.eqb_refl. reflexivity.
  - intros now Hnow. unfold due. cbn [Reminder.date]. rewrite Hiso. cbn.
    symmetry. exact Hnow.
Qed.

End WithHost.

Lemma added_task_shows_on_its_day_witness :
  exists st' r,
    handleAddSubmit (H0 := UtcCalendar.local_time) "7f9c"
      (mkState (Some monday_morning) true (mkForm "Fertilize Tomatoes" fertilizer ""))
    = Some (st', r) /\
    Reminder.date r = "2026-11-02T08:10:00.000Z"%string /\
    hasReminder (H := Utc.host) (H0 := UtcCalendar.local_time) [r] 2 st' = true.
Proof.
  destruct (added_task_shows_on_its_day (H := Utc.host) (H0 := UtcCalendar.local_time)
              monday_morning "7f9c"
              (mkState (Some monday_morning) true (mkForm "Fertilize Tomatoes" fertilizer ""))
              (App.boot ∅ []))
    as (st' & r & Hs & _ & _ & _ & _ & Hh & _).
  - reflexivity.
  - vm_compute. reflexivity.
  - vm_compute. reflexivity.
  - exists st', r. split; [exact Hs|].
    injection Hs as <- <-. split; [vm_compute; reflexivity | exact Hh].
Defined.

End CalendarFacts.

(** ** The calendar on the UTC host *)

Module UtcCalendarFacts.
Import Utc UtcCalendar Examples Calendar.

Lemma dfc_period y m d k :
  days_from_civil (y + 400 * k) m d = days_from_civil y m d + 146097 * k.
Proof.
  unfold days_from_civil. cbv zeta.
  set (y' := if m <=? 2 then y - 1 else y).
  replace (if m <=? 2 then y + 400 * k - 1 else y + 400 * k) with (y' + k * 400)
    by (subst y'; destruct (m <=? 2); ring).
  rewrite Z.div_add by lia.
  replace (y' + k * 400 - (y' / 400 + k) * 400) with (y' - y' / 400 * 400) by ring.
  ring.
Qed.

Lemma cfd_period z k :
  civil_from_days (z + 146097 * k)
  = (fst (fst (civil_from_days z)) + 400 * k, snd (fst (civil_from_days z)),
     snd (civil_from_days z)).
Proof.
  unfold civil_from_days. cbv zeta.
  replace (z + 146097 * k + 719468) with (z + 719468 + k * 146097) by ring.
  rewrite Z.div_add by lia.
  replace (z + 719468 + k * 146097 - ((z + 719468) / 146097 + k) * 146097)
    with (z + 719468 - (z + 719468) / 146097 * 146097) by ring.
  cbn [fst snd]. f_equal. f_equal. ring.
Qed.

(** One cycle of 400 years, month by month: the day before the first of
    the next month is the last day of the month, the first of the month
    reads back as it was built, and the day numbers stay small. *)
Lemma cycle_checked :
  forallb (fun i => forallb (fun j =>
      let r := 400 + Z.of_nat i in
      let m := Z.of_nat j in
      (snd (civil_from_days
              (days_from_civil (r + (m + 1) / 12) ((m + 1) mod 12 + 1) 1 - 1))
       =? month_length r m)
      && (fst (fst (civil_from_days (days_from_civil r (m + 1) 1))) =? r)
      && (snd (fst (civil_from_days (days_from_civil r (m + 1) 1))) =? m + 1)
      && (snd (civil_from_days (days_from_civil r (m + 1) 1)) =? 1)
      && (-800000 <=? days_from_civil r (m + 1) 1)
      && (days_from_civil r (m + 1) 1 <=? 0)) (seq 0 12))
    (seq 0 401) = true.
Proof. vm_compute. reflexivity. Qed.

Lemma month_checked (r m : Z) :
  400 <= r <= 800 -> 0 <= m <= 11 ->
  snd (civil_from_days (days_from_civil (r + (m + 1) / 12) ((m + 1) mod 12 + 1) 1 - 1))
  = month_length r m /\
  civil_from_days (days_from_civil r (m + 1) 1) = (r, m + 1, 1) /\
  -800000 <= days_from_civil r (m + 1) 1 <= 0.
Proof.
  intros Hr Hm. pose proof cycle_checked as Hc.
  rewrite forallb_forall in Hc.
  assert (Hi : In (Z.to_nat (r - 400)) (seq 0 401)) by (apply in_seq; lia).
  apply Hc in Hi. rewrite forallb_forall in Hi.
  assert (Hj : In (Z.to_nat m) (seq 0 12)) by (apply in_seq; lia).
  apply Hi in Hj. cbv zeta in Hj.
  rewrite !Z2Nat.id in Hj by lia.
  replace (400 + (r - 400)) with r in Hj by ring.
  apply andb_prop in Hj as [Hj H6]. apply andb_prop in Hj as [Hj H5].
  apply andb_prop in Hj as [Hj H4]. apply andb_prop in Hj as [Hj H3].
  apply andb_prop in Hj as [H1 H2].
  apply Z.eqb_eq in H1, H2, H3, H4. apply Z.leb_le in H5, H6.
  split; [exact H1|]. split; [|split; assumption].
  destruct (civil_from_days (days_from_civil r (m + 1) 1)) as [[a b] c].
  cbn [fst snd] in *. congruence.
Qed.

(** A year as a year of the checked cycle and a number of cycles. *)
Lemma year_in_cycle (y : Z) :
  y = (400 + y mod 400) + 400 * (y / 400 - 1) /\ 400 <= 400 + y mod 400 < 800.
Proof.
  pose proof (Z.div_mod y 400 ltac:(lia)). pose proof (Z.mod_pos_bound y 400 ltac:(lia)).
  lia.
Qed.

Lemma leap_year_period (y k : Z) : leap_year (y + 400 * k) = leap_year y.
Proof.
  unfold leap_year.
  replace (y + 400 * k) with (y + (100 * k) * 4) at 1 by ring.
  replace (y + 400 * k) with (y + (4 * k) * 100) at 1 by ring.
  replace (y + 400 * k) with (y + k * 400) by ring.
  rewrite !Z.mod_add by lia. reflexivity.
Qed.

Lemma first_of_month (y m : Z) :
  0 <= m <= 11 ->
  civil_from_days (days_from_civil y (m + 1) 1) = (y, m + 1, 1) /\
  (100 <= y <= 270000 -> -1000000 <= days_from_civil y (m + 1) 1 <= 99000000).
Proof.
  intros Hm. destruct (year_in_cycle y) as [Ey Hr].
  remember (400 + y mod 400) as r eqn:Er. remember (y / 400 - 1) as k eqn:Ek.
  destruct (month_checked r m ltac:(lia) Hm) as (_ & H2 & H3).
  assert (Hk : 100 <= y <= 270000 -> -1 <= k <= 674) by lia.
  clear Er Ek. subst y. rewrite dfc_period. split.
  - rewrite cfd_period, H2. reflexivity.
  - intros Hy. specialize (Hk Hy). revert H3 Hk.
    generalize (days_from_civil r (m + 1) 1). intros d H3 Hk. lia.
Qed.

Lemma msPerDay_div (d : Z) : d * msPerDay / msPerDay = d.
Proof. apply Z.div_mul. unfold msPerDay. lia. Qed.

(** What the constructor builds for a year after 99, and its calendar
    fields, for a first or a zeroth day of a month from -1 to 12. *)
Lemma make_date_fields (y m d : Z) :
  101 <= y <= 269999 -> -1 <= m <= 12 -> 0 <= d <= 1 ->
  exists t,
    make_date y m d = Some t /\
    t / msPerDay = days_from_civil (y + m / 12) (m mod 12 + 1) 1 + d - 1.
Proof.
  intros Hy Hm Hd. unfold make_date.
  replace ((0 <=? y) && (y <=? 99)) with false
    by (symmetry; apply andb_false_iff; right; apply Z.leb_gt; lia).
  cbv zeta.
  assert (Hq : -1 <= m / 12 <= 1).
  { split; [apply Z.div_le_lower_bound | apply Z.div_le_upper_bound]; lia. }
  pose proof (Z.mod_pos_bound m 12 ltac:(lia)) as Hr.
  destruct (first_of_month (y + m / 12) (m mod 12) ltac:(lia)) as [_ Hb].
  specialize (Hb ltac:(lia)).
  eexists. split.
  - rewrite (proj2 (Z.leb_le _ _)); [reflexivity|].
    unfold msPerDay. revert Hb. generalize (days_from_civil (y + m / 12) (m mod 12 + 1) 1).
    intros x Hb. lia.
  - apply msPerDay_div.
Qed.

Lemma daysInMonth_unfold (year month : Z) :
  daysInMonth (H0 := local_time) (Some year) (Some month)
  = option_map date_from_time (make_date year (month + 1) 0).
Proof. reflexivity. Qed.

Lemma last_day (year month : Z) :
  0 <= month <= 11 ->
  snd (civil_from_days
         (days_from_civil (year + (month + 1) / 12) ((month + 1) mod 12 + 1) 1 + 0 - 1))
  = month_length year month.
Proof.
  intros Hm.
  destruct (year_in_cycle year) as [Ey Hr].
  remember (400 + year mod 400) as r eqn:Er. remember (year / 400 - 1) as k eqn:Ek.
  clear Er Ek. subst year.
  replace (r + 400 * k + (month + 1) / 12) with (r + (month + 1) / 12 + 400 * k) by ring.
  rewrite dfc_period.
  replace (days_from_civil (r + (month + 1) / 12) ((month + 1) mod 12 + 1) 1
           + 146097 * k + 0 - 1)
    with (days_from_civil (r + (month + 1) / 12) ((month + 1) mod 12 + 1) 1 - 1
           + 146097 * k) by ring.
  rewrite cfd_period.
  destruct (month_checked r month ltac:(lia) Hm) as (H1 & _).
  unfold month_length. rewrite leap_year_period.
  revert H1.
  generalize (civil_from_days
                (days_from_civil (r + (month + 1) / 12) ((month + 1) mod 12 + 1) 1 - 1)).
  intros [[a b] c] H1. exact H1.
Qed.

(** X23: On the UTC host the number of days the calendar draws for a month
    is the length of that month in the Gregorian calendar, leap years
    and the carry from December into the next year included, for the
    years 101 to 269999. *)
Theorem daysInMonth_is_month_length (year month : Z) :
  101 <= year <= 269999 ->
  0 <= month <= 11 ->
  daysInMonth (H0 := local_time) (Some year) (Some month)
  = Some (month_length year month).
Proof.
  intros Hy Hm. rewrite daysInMonth_unfold.
  destruct (make_date_fields year (month + 1) 0 Hy ltac:(lia) ltac:(lia)) as (t & -> & Ht).
  cbn [option_map]. f_equal. unfold date_from_time. rewrite Ht.
  apply last_day, Hm.
Qed.

Lemma month_range (z : Z) : 1 <= snd (fst (civil_from_days z)) <= 12.
Proof.
  unfold civil_from_days. cbv zeta. cbn [fst snd].
  match goal with |- context [if ?c then _ else _] => destruct c eqn:Hc end;
    [apply Z.ltb_lt in Hc | apply Z.ltb_ge in Hc];
    Z.to_euclidean_division_equations; lia.
Qed.

(** The fields of the first day of a month as the constructor builds it,
    for a month number from -1 to 12. *)
Lemma first_day_fields (y m : Z) :
  101 <= y <= 269999 -> -1 <= m <= 12 ->
  exists t,
    make_date y m 1 = Some t /\
    YearFromTime (Host := Utc.host) t = y + m / 12 /\
    MonthFromTime (Host := Utc.host) t = m mod 12 /\
    date_from_time t = 1.
Proof.
  intros Hy Hm.
  destruct (make_date_fields y m 1 Hy Hm ltac:(lia)) as (t & Ht & Hd).
  exists t. split; [exact Ht|].
  pose proof (Z.mod_pos_bound m 12 ltac:(lia)) as Hr.
  destruct (first_of_month (y + m / 12) (m mod 12) ltac:(lia)) as [Hc _].
  unfold date_from_time. cbn [YearFromTime MonthFromTime Utc.host].
  rewrite Hd.
  replace (days_from_civil (y + m / 12) (m mod 12 + 1) 1 + 1 - 1)
    with (days_from_civil (y + m / 12) (m mod 12 + 1) 1) by ring.
  rewrite Hc. cbn [fst snd]. repeat split. ring.
Qed.

Lemma make_date_same_month (y1 m1 y2 m2 d : Z) :
  100 <= y1 -> 100 <= y2 ->
  y1 + m1 / 12 = y2 + m2 / 12 -> m1 mod 12 = m2 mod 12 ->
  make_date y1 m1 d = make_date y2 m2 d.
Proof.
  intros H1 H2 Hy Hm. unfold make_date.
  replace ((0 <=? y1) && (y1 <=? 99)) with false
    by (symmetry; apply andb_false_iff; right; apply Z.leb_gt; lia).
  replace ((0 <=? y2) && (y2 <=? 99)) with false
    by (symmetry; apply andb_false_iff; right; apply Z.leb_gt; lia).
  cbv zeta. rewrite Hy, Hm. reflexivity.
Qed.

Lemma navigation_after_99 (t : Z) (st : Calendar.State) :
  selectedDate st = Some t ->
  102 <= YearFromTime (Host := Utc.host) t <= 269998 ->
  let y := YearFromTime (Host := Utc.host) t in
  let m := MonthFromTime (Host := Utc.host) t in
  let prev := selectedDate (handlePrevMonth (H := Utc.host) (H0 := local_time) st) in
  let next := selectedDate (handleNextMonth (H := Utc.host) (H0 := local_time) st) in
  getFullYear (H := Utc.host) prev = Some (if m =? 0 then y - 1 else y) /\
  getMonth (H := Utc.host) prev = Some (if m =? 0 then 11 else m - 1) /\
  getDate (H0 := local_time) prev = Some 1 /\
  getFullYear (H := Utc.host) next = Some (if m =? 11 then y + 1 else y) /\
  getMonth (H := Utc.host) next = Some (if m =? 11 then 0 else m + 1) /\
  getDate (H0 := local_time) next = Some 1 /\
  selectedDate (handleNextMonth (H := Utc.host) (H0 := local_time)
                  (handlePrevMonth (H := Utc.host) (H0 := local_time) st))
  = make_date y m 1 /\
  selectedDate (handlePrevMonth (H := Utc.host) (H0 := local_time)
                  (handleNextMonth (H := Utc.host) (H0 := local_time) st))
  = make_date y m 1.
Proof.
  intros Hsel Hy. cbn zeta.
  assert (Hm : 0 <= MonthFromTime (Host := Utc.host) t <= 11).
  { cbn [MonthFromTime Utc.host].
    pose proof (month_range (t / msPerDay)). lia. }
  unfold handlePrevMonth, handleNextMonth. cbn [selectedDate setSelectedDate].
  rewrite Hsel. unfold getFullYear, getMonth, getDate, new_Date.
  cbn [fmap option_fmap option_map mbind option_bind MakeDate DateFromTime local_time].
  revert Hy Hm.
  generalize (YearFromTime (Host := Utc.host) t) as y.
  generalize (MonthFromTime (Host := Utc.host) t) as m.
  intros m y Hy Hm.
  destruct (first_day_fields y (m - 1) ltac:(lia) ltac:(lia)) as (t1 & -> & Y1 & M1 & D1).
  destruct (first_day_fields y (m + 1) ltac:(lia) ltac:(lia)) as (t2 & -> & Y2 & M2 & D2).
  cbn [fmap option_fmap option_map mbind option_bind].
  rewrite Y1, M1, D1, Y2, M2, D2. clear Y1 M1 D1 Y2 M2 D2 t1 t2.
  assert (A : forall k, -1 <= k <= 12 ->
            k / 12 = (if k <? 0 then -1 else if k <? 12 then 0 else 1) /\
            k mod 12 = (if k <? 0 then k + 12 else if k <? 12 then k else k - 12)).
  { intros k Hk. destruct (Z.ltb_spec k 0); [|destruct (Z.ltb_spec k 12)];
      Z.to_euclidean_division_equations; lia. }
  destruct (A (m - 1) ltac:(lia)) as [Q1 R1]. destruct (A (m + 1) ltac:(lia)) as [Q2 R2].
  rewrite Q1, R1, Q2, R2.
  repeat split.
  - destruct (Z.eqb_spec m 0), (Z.ltb_spec (m - 1) 0), (Z.ltb_spec (m - 1) 12);
      f_equal; lia.
  - destruct (Z.eqb_spec m 0), (Z.ltb_spec (m - 1) 0), (Z.ltb_spec (m - 1) 12);
      f_equal; lia.
  - destruct (Z.eqb_spec m 11), (Z.ltb_spec (m + 1) 0), (Z.ltb_spec (m + 1) 12);
      f_equal; lia.
  - destruct (Z.eqb_spec m 11), (Z.ltb_spec (m + 1) 0), (Z.ltb_spec (m + 1) 12);
      f_equal; lia.
  - apply make_date_same_month.
    + destruct (Z.ltb_spec (m - 1) 0), (Z.ltb_spec (m - 1) 12); lia.
    + lia.
    + destruct (Z.ltb_spec (m - 1) 0), (Z.ltb_spec (m - 1) 12);
        Z.to_euclidean_division_equations; lia.
    + destruct (Z.ltb_spec (m - 1) 0), (Z.ltb_spec (m - 1) 12);
        Z.to_euclidean_division_equations; lia.
  - apply make_date_same_month.
    + destruct (Z.ltb_spec (m + 1) 0), (Z.ltb_spec (m + 1) 12); lia.
    + lia.
    + destruct (Z.ltb_spec (m + 1) 0), (Z.ltb_spec (m + 1) 12);
        Z.to_euclidean_division_equations; lia.
    + destruct (Z.ltb_spec (m + 1) 0), (Z.ltb_spec (m + 1) 12);
        Z.to_euclidean_division_equations; lia.
Qed.

Lemma make_date_two_digits (y m d : Z) :
  0 <= y <= 99 -> make_date y m d = make_date (1900 + y) m d.
Proof.
  intros Hy. unfold make_date.
  replace ((0 <=? y) && (y <=? 99)) with true
    by (symmetry; apply andb_true_iff; split; apply Z.leb_le; lia).
  replace ((0 <=? 1900 + y) && (1900 + y <=? 99)) with false
    by (symmetry; apply andb_false_iff; right; apply Z.leb_gt; lia).
  reflexivity.
Qed.

(** X24: On the UTC host, for a selected date of the years 102 to 269998,
    the two month buttons select the first day of the neighbouring
    month, across the ends of the year, whatever day was selected, and
    one button after the other selects the first day of the month that
    was selected.  For a selected date of the years 0 to 99 the buttons
    leave the century: the constructor reads such a year as 1900 plus the
    year, and the buttons select the neighbouring month of that year. *)
Theorem month_navigation (t : Z) (st : Calendar.State) :
  selectedDate st = Some t ->
  let y := YearFromTime (Host := Utc.host) t in
  let m := MonthFromTime (Host := Utc.host) t in
  let prev := selectedDate (handlePrevMonth (H := Utc.host) (H0 := local_time) st) in
  let next := selectedDate (handleNextMonth (H := Utc.host) (H0 := local_time) st) in
  (102 <= y <= 269998 ->
   getFullYear (H := Utc.host) prev = Some (if m =? 0 then y - 1 else y) /\
   getMonth (H := Utc.host) prev = Some (if m =? 0 then 11 else m - 1) /\
   getDate (H0 := local_time) prev = Some 1 /\
   getFullYear (H := Utc.host) next = Some (if m =? 11 then y + 1 else y) /\
   getMonth (H := Utc.host) next = Some (if m =? 11 then 0 else m + 1) /\
   getDate (H0 := local_time) next = Some 1 /\
   selectedDate (handleNextMonth (H := Utc.host) (H0 := local_time)
                   (handlePrevMonth (H := Utc.host) (H0 := local_time) st))
   = make_date y m 1 /\
   selectedDate (handlePrevMonth (H := Utc.host) (H0 := local_time)
                   (handleNextMonth (H := Utc.host) (H0 := local_time) st))
   = make_date y m 1) /\
  (0 <= y <= 99 ->
   getFullYear (H := Utc.host) prev = Some (1900 + (if m =? 0 then y - 1 else y)) /\
   getMonth (H := Utc.host) prev = Some (if m =? 0 then 11 else m - 1) /\
   getFullYear (H := Utc.host) next = Some (1900 + (if m =? 11 then y + 1 else y)) /\
   getMonth (H := Utc.host) next = Some (if m =? 11 then 0 else m + 1)).
Proof.
  intros Hsel. cbn zeta. split; [apply navigation_after_99, Hsel|].
  intros Hy.
  assert (Hm : 0 <= MonthFromTime (Host := Utc.host) t <= 11).
  { cbn [MonthFromTime Utc.host].
    pose proof (month_range (t / msPerDay)). lia. }
  unfold handlePrevMonth, handleNextMonth. cbn [selectedDate setSelectedDate].
  rewrite Hsel. unfold getFullYear, getMonth, new_Date.
  cbn [fmap option_fmap option_map mbind option_bind MakeDate local_time].
  revert Hy Hm.
  generalize (YearFromTime (Host := Utc.host) t) as y.
  generalize (MonthFromTime (Host := Utc.host) t) as m.
  intros m y Hy Hm.
  rewrite (make_date_two_digits y (m - 1) 1 Hy), (make_date_two_digits y (m + 1) 1 Hy).
  destruct (first_day_fields (1900 + y) (m - 1) ltac:(lia) ltac:(lia))
    as (t1 & -> & Y1 & M1 & _).
  destruct (first_day_fields (1900 + y) (m + 1) ltac:(lia) ltac:(lia))
    as (t2 & -> & Y2 & M2 & _).
  cbn [fmap option_fmap option_map mbind option_bind].
  rewrite Y1, M1, Y2, M2. clear Y1 M1 Y2 M2 t1 t2.
  assert (A : forall k, -1 <= k <= 12 ->
            k / 12 = (if k <? 0 then -1 else if k <? 12 then 0 else 1) /\
            k mod 12 = (if k <? 0 then k + 12 else if k <? 12 then k else k - 12)).
  { intros k Hk. destruct (Z.ltb_spec k 0); [|destruct (Z.ltb_spec k 12)];
      Z.to_euclidean_division_equations; lia. }
  destruct (A (m - 1) ltac:(lia)) as [Q1 R1]. destruct (A (m + 1) ltac:(lia)) as [Q2 R2].
  rewrite Q1, R1, Q2, R2.
  repeat split.
  - destruct (Z.eqb_spec m 0), (Z.ltb_spec (m - 1) 0), (Z.ltb_spec (m - 1) 12);
      f_equal; lia.
  - destruct (Z.eqb_spec m 0), (Z.ltb_spec (m - 1) 0), (Z.ltb_spec (m - 1) 12);
      f_equal; lia.
  - destruct (Z.eqb_spec m 11), (Z.ltb_spec (m + 1) 0), (Z.ltb_spec (m + 1) 12);
      f_equal; lia.
  - destruct (Z.eqb_spec m 11), (Z.ltb_spec (m + 1) 0), (Z.ltb_spec (m + 1) 12);
      f_equal; lia.
Qed.

Lemma month_length_range (y m : Z) : 28 <= month_length y m <= 31.
Proof.
  unfold month_length.
  destruct (m =? 1); [destruct (leap_year y); lia|].
  destruct ((m =? 3) || (m =? 5) || (m =? 8) || (m =? 10)); lia.
Qed.

(** X26: On the UTC host the grid of the calendar shows, for a selected
    date of the years 101 to 269999, every day of the selected month
    once and in order, from 1 to the length of the month, behind as many
    blanks as the first of the month is days after Sunday, fewer than
    seven. *)
Theorem calendar_grid (t : Z) (st : Calendar.State) :
  selectedDate st = Some t ->
  101 <= YearFromTime (Host := Utc.host) t <= 269999 ->
  let y := YearFromTime (Host := Utc.host) t in
  let m := MonthFromTime (Host := Utc.host) t in
  let days := Calendar.days (H := Utc.host) (H0 := local_time) st in
  let blanks := Calendar.blanks (H := Utc.host) (H0 := local_time) st in
  days = map (fun i => Z.of_nat i + 1) (seq 0 (Z.to_nat (month_length y m))) /\
  (forall d, List.In d days <-> 1 <= d <= month_length y m) /\
  28 <= Z.of_nat (List.length days) <= 31 /\
  blanks = map Z.of_nat (seq 0 (List.length blanks)) /\
  Z.of_nat (List.length blanks) = (days_from_civil y (m + 1) 1 + 4) mod 7 /\
  (List.length blanks < 7)%nat.
Proof.
  intros Hsel Hy. cbn zeta.
  assert (Hm : 0 <= MonthFromTime (Host := Utc.host) t <= 11).
  { cbn [MonthFromTime Utc.host].
    pose proof (month_range (t / msPerDay)). lia. }
  unfold Calendar.days, Calendar.blanks, firstDayOfMonth. rewrite Hsel.
  unfold getFullYear, getMonth, getDay, new_Date.
  cbn [fmap option_fmap option_map mbind option_bind MakeDate WeekDay local_time].
  revert Hy Hm.
  generalize (YearFromTime (Host := Utc.host) t) as y.
  generalize (MonthFromTime (Host := Utc.host) t) as m.
  intros m y Hy Hm.
  rewrite daysInMonth_unfold.
  destruct (make_date_fields y (m + 1) 0 Hy ltac:(lia) ltac:(lia)) as (t0 & -> & Ht0).
  destruct (make_date_fields y m 1 Hy ltac:(lia) ltac:(lia)) as (t1 & -> & Ht1).
  cbn [option_map]. unfold date_from_time, week_day.
  cbn [fmap option_fmap option_map]. rewrite Ht0, Ht1.
  rewrite (last_day y m Hm).
  pose proof (month_length_range y m) as Hn.
  rewrite (Z.div_small m 12), (Z.mod_small m 12), Z.add_0_r in * by lia.
  replace (days_from_civil y (m + 1) 1 + 1 - 1) with (days_from_civil y (m + 1) 1) by ring.
  pose proof (Z.mod_pos_bound (days_from_civil y (m + 1) 1 + 4) 7 ltac:(lia)) as Hw.
  revert Hw. generalize ((days_from_civil y (m + 1) 1 + 4) mod 7). intros w Hw.
  revert Hn. generalize (month_length y m). intros n Hn.
  rewrite !length_map, !length_seq.
  split; [reflexivity|]. split; [|split; [lia | split; [reflexivity | split; lia]]].
  intros d. rewrite in_map_iff. split.
  - intros (i & <- & Hi). apply in_seq in Hi. lia.
  - intros Hd. exists (Z.to_nat (d - 1)). split; [lia|]. apply in_seq. lia.
Qed.

Lemma calendar_grid_witness :
  let st := Calendar.mkState (Some monday_morning) false
              (Calendar.mkForm "" fertilizer "") in
  Z.of_nat (List.length (Calendar.days (H := Utc.host) (H0 := local_time) st)) = 30 /\
  Z.of_nat (List.length (Calendar.blanks (H := Utc.host) (H0 := local_time) st)) = 0.
Proof.
  intros st.
  assert (Ey : YearFromTime (Host := Utc.host) monday_morning = 2026)
    by (vm_compute; reflexivity).
  destruct (calendar_grid monday_morning st eq_refl) as (Hd & _ & _ & _ & Hb & _).
  - rewrite Ey. lia.
  - split.
    + rewrite Hd, length_map, length_seq. vm_compute. reflexivity.
    + rewrite Hb. vm_compute. reflexivity.
Defined.

Lemma daysInMonth_is_month_length_witness :
  daysInMonth (H0 := local_time) (Some 2024) (Some 1) = Some 29.
Proof. apply (daysInMonth_is_month_length 2024 1); lia. Defined.

Lemma month_navigation_witness :
  let st := Calendar.mkState (Some monday_morning) false
              (Calendar.mkForm "" fertilizer "") in
  getMonth (H := Utc.host)
    (selectedDate (handlePrevMonth (H := Utc.host) (H0 := local_time) st)) = Some 9 /\
  selectedDate (handleNextMonth (H := Utc.host) (H0 := local_time)
                  (handlePrevMonth (H := Utc.host) (H0 := local_time) st))
  = make_date 2026 10 1.
Proof.
  intros st.
  assert (Ey : YearFromTime (Host := Utc.host) monday_morning = 2026)
    by (vm_compute; reflexivity).
  destruct (month_navigation monday_morning st eq_refl) as [Hafter _].
  destruct Hafter as (_ & Hm & _ & _ & _ & _ & Hn & _).
  - rewrite Ey. lia.
  - split; [exact Hm | exact Hn].
Defined.

End UtcCalendarFacts.

(** ** The chat of the soil view and the grid of the calendar *)

Module ViewFacts.
Import Json Examples Scenarios Text.


End ViewFacts.
